(** * EQcorrscan [core/bright_lights.py]: network brightness detection

    A shallow embedding of the grid preparation, energy stacking and
    cumulative-network-response reduction of [bright_lights.py], and the
    properties its specification states about them.

    Conventions.
    - Sample values, lags and energies are NumPy floats in the program.
      They are embedded as exact rationals [Q]: comparisons, sums and
      squares are the exact ones, and rounding error is not modelled.
    - A Python exception is [None] in the [option] monad.
    - Python 2 semantics is used throughout ([/] on ints is floor
      division, [range] builds a list, a for-loop or list-comprehension
      variable survives the loop). *)

From Stdlib Require Import QArith Qabs Qround Qminmax Lqa Ascii.
From stdpp Require Import base option list gmap strings.

Open Scope Q_scope.

(** ** Python and NumPy primitives *)

Module Py.

(** [range(a, b)] on non-negative ints (empty when [b <= a]). *)
Definition range (a b : nat) : list nat := seq a (b - a).

(** Strict comparison of two samples. *)
Definition Qltb (x y : Q) : bool := negb (Qle_bool y x).

(** [np.argmax] of a one-dimensional array: the first position of the
    maximum; the running best is replaced only by a strictly larger
    value.  An empty array raises [ValueError]. *)
Fixpoint argmax_from (best_i : nat) (best : Q) (i : nat) (l : list Q) : nat :=
  match l with
  | [] => best_i
  | x :: l' =>
      if Qltb best x then argmax_from i x (S i) l'
      else argmax_from best_i best (S i) l'
  end.

Definition argmax (l : list Q) : option nat :=
  match l with
  | [] => None
  | x :: l' => Some (argmax_from 0%nat x 1%nat l')
  end.

(** Column [j] of a two-dimensional array given as a list of rows. *)
Definition column (rows : list (list Q)) (j : nat) : option (list Q) :=
  mapM (fun row : list Q => row !! j) rows.

(** [np.argmax(rows, axis=0)]: one argmax per column; the number of
    columns is that of the first row. *)
Definition argmax_axis0 (rows : list (list Q)) : option (list nat) :=
  r0 ← head rows;
  mapM (fun j => column rows j ≫= argmax) (seq 0 (length r0)).

End Py.

(** ** Out-of-core chunking of the node index range ([brightness], lines 480-487) *)

Module Chunks.

(** The body of the [for i in xrange(1, num_cores-1)] loop: append one
    chunk and leave [i] bound to the current index. *)
Definition chunk_step (node_splits : nat) (st : list (list nat) * nat) (i : nat)
  : list (list nat) * nat :=
  (st.1 ++ [Py.range (node_splits * i) (node_splits * (i + 1))], i).

(** Lines 480-484.  [i_in] is the value the function-level variable [i]
    holds when line 480 is reached; the last chunk is built from [i]
    as the loop left it, or from [i_in] when the loop body never ran.
    [len(nodes)/num_cores] raises [ZeroDivisionError] for [num_cores = 0]. *)
Definition node_chunks (len_nodes num_cores i_in : nat) : option (list (list nat)) :=
  if decide (num_cores = 0%nat) then None
  else
    let node_splits := (len_nodes / num_cores)%nat in
    let st :=
      foldl (chunk_step node_splits)
            ([Py.range 0 node_splits], i_in)
            (Py.range 1 (num_cores - 1)) in
    Some (st.1 ++ [Py.range (node_splits * (st.2 + 1)) len_nodes]).

(** Lines 486-487: [indeces[i] for i in xrange(num_cores)], the chunks
    handed to the worker pool. *)
Definition dispatched (indeces : list (list nat)) (num_cores : nat)
  : option (list (list nat)) :=
  mapM (fun i => indeces !! i) (seq 0 num_cores).

(** In [brightness] the variable [i] was last bound by the list
    comprehension of lines 453-456, which iterates over
    [xrange(len(nodes))] and, in Python 2, leaves [i = len(nodes) - 1]. *)
Definition brightness_chunks (len_nodes num_cores : nat) : option (list (list nat)) :=
  indeces ← node_chunks len_nodes num_cores (len_nodes - 1);
  dispatched indeces num_cores.

End Chunks.

(** ** Cumulative network response *)

Module Reduce.

(** The scratch area of one run instance: the file
    ['tmp<instance>/node_<i>.npy'] holds the energy trace of node [i]. *)
Abbreviation scratch := (gmap nat (list Q)).

(** A worker's partial result: the running maximum and the index array. *)
Abbreviation partial := (list Q * list nat)%type.

(** One iteration of the loop of [_cum_net_resp] (lines 275-282) once
    [node_energy] is loaded.  [np.argmax([cum_net_resp, node_energy], axis=0)]
    is [1] where the new trace is strictly larger and [0] elsewhere; the
    entries equal to [1] are then overwritten with [i] and the result
    becomes [indeces]. *)
Definition fold_node (i : nat) (acc : partial) (node_energy : list Q)
  : option partial :=
  let cum_net_resp := acc.1 in
  if decide (length cum_net_resp = length node_energy) then
    let updated_indeces :=
      zip_with (fun c e => if Py.Qltb c e then 1%nat else 0%nat)
               cum_net_resp node_energy in
    let temp := [cum_net_resp; node_energy] in
    cum' ← mapM (fun j => u ← updated_indeces !! j; row ← temp !! u; row !! j)
                (seq 0 (length updated_indeces));
    let updated_indeces :=
      (fun u => if decide (u = 1%nat) then i else u) <$> updated_indeces in
    Some (cum', updated_indeces)
  else None.

(** The loop over [node_lis[1:]]: load, fold, delete the file. *)
Fixpoint fold_nodes (rest : list nat) (acc : partial) (fs : scratch)
  : option (partial * scratch) :=
  match rest with
  | [] => Some (acc, fs)
  | i :: rest' =>
      node_energy ← fs !! i;
      acc' ← fold_node i acc node_energy;
      fold_nodes rest' acc' (delete i fs)
  end.

(** [_cum_net_resp(node_lis, instance)], lines 260-284. *)
Definition _cum_net_resp (node_lis : list nat) (fs : scratch)
  : option (partial * scratch) :=
  n0 ← head node_lis;
  cum_net_resp ← fs !! n0;
  let fs := delete n0 fs in
  let indeces := replicate (length cum_net_resp) n0 in
  fold_nodes (tail node_lis) (cum_net_resp, indeces) fs.

(** The workers of the pool, run one after the other on the shared
    scratch area (each touches only the files of its own chunk). *)
Fixpoint run_workers (chunks : list (list nat)) (fs : scratch)
  : option (list partial * scratch) :=
  match chunks with
  | [] => Some ([], fs)
  | c :: chunks' =>
      r ← _cum_net_resp c fs;
      rs ← run_workers chunks' r.2;
      Some (r.1 :: rs.1, rs.2)
  end.

(** The driver's fold over the partial results, lines 491-499, and the
    index expression [node_indeces[indeces[i]][i]] of line 500: argmax
    over the per-chunk maxima, then the value and the owner recorded by
    the winning chunk.  The owners are given here as numbers; their
    element type, and the lookup [nodes[...]] that line 500 makes with
    them, are [owners_dtype] and [peak_nodes] below. *)
Definition fold_partials (results : list partial) : option partial :=
  let responses := fst <$> results in
  let node_indeces := snd <$> results in
  indeces ← Py.argmax_axis0 responses;
  cum_net_resp ←
    mapM (fun j => c ← indeces !! j; row ← responses !! c; row !! j)
         (seq 0 (length indeces));
  owners ←
    mapM (fun i => c ← indeces !! i; row ← node_indeces !! c; row !! i)
         (seq 0 (length indeces));
  Some (cum_net_resp, owners).

(** The out-of-core branch of [brightness] for a given list of chunks. *)
Definition out_of_core (chunks : list (list nat)) (fs : scratch)
  : option partial :=
  rs ← run_workers chunks fs;
  fold_partials rs.1.

(** The out-of-core branch with the chunks [brightness] builds itself. *)
Definition brightness_out_of_core (len_nodes num_cores : nat) (fs : scratch)
  : option partial :=
  chunks ← Chunks.brightness_chunks len_nodes num_cores;
  out_of_core chunks fs.

(** The element type of the index array a worker returns.  Line 273
    builds it as [np.ones(n)*node_lis[0]], an array of floats; line 282
    replaces it with the integer result of [np.argmax] at every
    iteration of the loop of line 274, which runs when the chunk has a
    second node. *)
Inductive dtype := float64 | int64.

Definition owners_dtype (node_lis : list nat) : dtype :=
  match tail node_lis with
  | [] => float64
  | _ :: _ => int64
  end.

(** Lines 495 and 500-501:
    [nodes[node_indeces[indeces[i]][i]] for i in xrange(len(indeces))].
    A list is indexed with integers only: an index read from an array
    of floats raises [TypeError]. *)
Definition peak_nodes {A : Type} (nodes : list A) (chunks : list (list nat))
    (results : list partial) : option (list A) :=
  let responses := fst <$> results in
  let node_indeces := snd <$> results in
  indeces ← Py.argmax_axis0 responses;
  mapM (fun i =>
          c ← indeces !! i;
          row ← node_indeces !! c;
          owner ← row !! i;
          chunk ← chunks !! c;
          match owners_dtype chunk with
          | float64 => None
          | int64 => nodes !! owner
          end)
       (seq 0 (length indeces)).

(** Lines 485-501 for a given list of chunks: the cumulative network
    response and the node that owns each of its samples. *)
Definition out_of_core_peak_nodes {A : Type} (nodes : list A)
    (chunks : list (list nat)) (fs : scratch) : option (list Q * list A) :=
  rs ← run_workers chunks fs;
  r ← fold_partials rs.1;
  peak ← peak_nodes nodes chunks rs.1;
  Some (r.1, peak).

(** The same with the chunks [brightness] builds itself. *)
Definition brightness_peak_nodes {A : Type} (nodes : list A)
    (num_cores : nat) (fs : scratch) : option (list Q * list A) :=
  chunks ← Chunks.brightness_chunks (length nodes) num_cores;
  out_of_core_peak_nodes nodes chunks fs.

(** The in-memory branch, lines 470-476: [energy] has one row per node.
    Line 472 reads [indeces[0]] and raises on an empty window. *)
Definition in_memory (energy : list (list Q)) : option partial :=
  indeces ← Py.argmax_axis0 energy;
  _ ← head indeces;
  cum_net_resp ←
    mapM (fun i => n ← indeces !! i; row ← energy !! n; row !! i)
         (seq 0 (length indeces));
  Some (cum_net_resp, indeces).

(** The scratch area after the stacking phase wrote the trace of every
    node: node [i] holds row [i] of [energy]. *)
Definition scratch_of (energy : list (list Q)) : scratch :=
  list_to_map (zip (seq 0 (length energy)) energy).

End Reduce.

(** ** Travel-time grid: reading, resampling, removing similar nodes *)

Module Grid.

(** A node is the triple of strings read from a grid file:
    latitude, longitude and depth. *)
Abbreviation Node := (string * string * string)%type.

(** A two-dimensional array of lags: one row per station, one column
    per node. *)
Abbreviation Lags := (list (list Q)).

(** [a.T] of a two-dimensional array. *)
Definition transpose (a : list (list Q)) : option (list (list Q)) :=
  mapM (Py.column a) (seq 0 (length (default [] (head a)))).

(** [a[:, i]]. *)
Definition col (a : list (list Q)) (i : nat) : option (list Q) :=
  Py.column a i.

(** [a.sum()] of a one-dimensional array. *)
Definition sum (l : list Q) : Q := foldl Qplus 0 l.

(** *** [_read_tt] *)

(** One row of a grid file: the three coordinate strings and
    [float(row[3])]. *)
Abbreviation Row := (Node * Q)%type.

(** The directory of Grid2Time outputs: what [glob.glob] returns for a
    pattern, and the parsed rows of a file ([None] when it cannot be
    opened or a travel time does not parse). *)
Record TTDir := {
  glob : string -> list string;
  read_csv : string -> option (list Row)
}.

(** The hard-coded velocity ratio of lines 111 and 113. *)
Definition vp_vs : Q := 1.68.

(** Lines 109-113.  The quotient and the product are the exact ones;
    in doubles a division by 1.68 does not undo a multiplication by
    it. *)
Definition convert (phase phaseout : string) (traveltime : list Q) : list Q :=
  if decide (phase = phaseout) then traveltime
  else if decide (phase = "S"%string) then (fun t => t / vp_vs) <$> traveltime
  else (fun t => t * vp_vs) <$> traveltime.

(** Python's [min] of a non-empty sequence. *)
Definition py_min (l : list Q) : option Q :=
  match l with
  | [] => None
  | x :: l' => Some (foldl (fun m y => if Py.Qltb y m then y else m) x l')
  end.

(** Lines 114-118: re-zero the lags and append them to [alllags]
    ([None] while [alllags] is not yet a local variable);
    [np.concatenate] raises on rows of different lengths. *)
Definition add_lags (alllags : option Lags) (lags : list Q) : option Lags :=
  match alllags with
  | None => Some [lags]
  | Some al =>
      if decide (Forall (fun r => length r = length lags) al)
      then Some (al ++ [lags]) else None
  end.

(** The loop over [gridfiles], lines 99-122. *)
Fixpoint read_files (d : TTDir) (phase phaseout : string)
    (gridfiles : list string) (allnodes : list Node) (alllags : option Lags)
  : option (list Node * option Lags) :=
  match gridfiles with
  | [] => Some (allnodes, alllags)
  | gridfile :: rest =>
      grid ← read_csv d gridfile;
      let nodes := fst <$> grid in
      let traveltime := convert phase phaseout (snd <$> grid) in
      m ← py_min traveltime;
      let lags := (fun t => t - m) <$> traveltime in
      alllags' ← add_lags alllags lags;
      read_files d phase phaseout rest nodes (Some alllags')
  end.

(** [_read_tt(path, stations, phase, phaseout='S', ps_ratio=1.68)],
    lines 62-123.  [sys.exit()] and the unbound [alllags] of line 123
    are both [None]. *)
Definition _read_tt (d : TTDir) (path : string) (stations : list string)
    (phase phaseout : string) (ps_ratio : Q)
  : option (list string * list Node * Lags) :=
  let gridfiles :=
    stations ≫= (fun station =>
      glob d (path +:+ "*." +:+ phase +:+ "." +:+ station +:+ ".time.csv")) in
  let stations_out :=
    filter (fun station =>
      glob d (path +:+ "*." +:+ phase +:+ "." +:+ station +:+ "*.csv") <> [])
      stations in
  if decide (stations_out = []) then None
  else
    r ← read_files d phase phaseout gridfiles [] None;
    alllags ← r.2;
    Some (stations_out, r.1, alllags).

(** *** [_resample_grid] *)

Section Resample.

(** Python's [float] on a string, and [corners.contains_point] on the
    (latitude, longitude) pair of a node. *)
Variable pyfloat : string -> option Q.
Variable contains_point : string * string -> bool.

(** The loop of lines 158-163. *)
Fixpoint cut_volume (nodes : list Node) (lags : Lags) (mindepth maxdepth : Q)
    (todo : list nat) (resamp_nodes : list Node) (resamp_lags : list (list Q))
  : option (list Node * list (list Q)) :=
  match todo with
  | [] => Some (resamp_nodes, resamp_lags)
  | i :: todo' =>
      node ← nodes !! i;
      depth ← pyfloat node.2;
      if Py.Qltb mindepth depth && Py.Qltb depth maxdepth
         && contains_point (node.1.1, node.1.2)
      then
        c ← col lags i;
        cut_volume nodes lags mindepth maxdepth todo'
                   (resamp_nodes ++ [node]) (resamp_lags ++ [c])
      else
        cut_volume nodes lags mindepth maxdepth todo' resamp_nodes resamp_lags
  end.

(** Line 166: [np.reshape(resamp_lags, (len(resamp_lags), len(stations))).T];
    the reshape raises unless every kept column has [len(stations)]
    entries. *)
Definition reshape_T (resamp_lags : list (list Q)) (nstations : nat)
  : option Lags :=
  if decide (Forall (fun c => length c = nstations) resamp_lags)
  then mapM (Py.column resamp_lags) (seq 0 nstations)
  else None.

(** [_resample_grid], lines 125-170; [corners] is the section's
    [contains_point], and [resolution] is never read. *)
Definition _resample_grid (stations : list string) (nodes : list Node)
    (lags : Lags) (mindepth maxdepth : Q) (resolution : Q)
  : option (list string * list Node * Lags) :=
  r ← cut_volume nodes lags mindepth maxdepth (seq 0 (length nodes)) [] [];
  resamp_lags ← reshape_T r.2 (length stations);
  Some (stations, r.1, resamp_lags).

End Resample.

(** *** [_rm_similarlags] *)

(** One row of [netdif]:
    [abs((lags.T - lags.T[i]).sum(axis=1).reshape(1, len(nodes))) > threshold]. *)
Definition netdif_row (lagsT : list (list Q)) (len_nodes : nat)
    (threshold : Q) (i : nat) : option (list bool) :=
  li ← lagsT !! i;
  if decide (length lagsT = len_nodes) then
    Some ((fun lj => Py.Qltb threshold (Qabs (sum (zip_with Qminus lj li))))
            <$> lagsT)
  else None.

(** Lines 201-205: the row of node [0], followed by the rows of
    [i = 0, 1, ..., len(nodes)-1] concatenated below it. *)
Definition netdif (lagsT : list (list Q)) (len_nodes : nat) (threshold : Q)
  : option (list (list bool)) :=
  r0 ← netdif_row lagsT len_nodes threshold 0;
  rs ← mapM (netdif_row lagsT len_nodes threshold) (seq 0 len_nodes);
  Some (r0 :: rs).

(** The loop of lines 212-215. *)
Fixpoint select_nodes (nodes : list Node) (nd : list (list bool))
    (todo : list nat) (node_indeces : list nat) (nodes_out : list Node)
  : option (list nat * list Node) :=
  match todo with
  | [] => Some (node_indeces, nodes_out)
  | i :: todo' =>
      row ← nd !! i;
      picked ← mapM (fun k => row !! k) node_indeces;
      if forallb id picked then
        node ← nodes !! i;
        select_nodes nodes nd todo' (node_indeces ++ [i]) (nodes_out ++ [node])
      else select_nodes nodes nd todo' node_indeces nodes_out
  end.

(** [_rm_similarlags(stations, nodes, lags, threshold)], lines 172-218;
    the last component added here is [node_indeces]. *)
Definition rm_similarlags_idx (stations : list string) (nodes : list Node)
    (lags : Lags) (threshold : Q)
  : option (list string * list Node * Lags * list nat) :=
  lagsT ← transpose lags;
  nd ← netdif lagsT (length nodes) threshold;
  n0 ← nodes !! 0%nat;
  r ← select_nodes nodes nd (Py.range 1 (length nodes)) [0%nat] [n0];
  sel ← mapM (fun k => lagsT !! k) r.1;
  lags_out ← transpose sel;
  Some (stations, r.2, lags_out, r.1).

Definition _rm_similarlags (stations : list string) (nodes : list Node)
    (lags : Lags) (threshold : Q)
  : option (list string * list Node * Lags) :=
  fst <$> rm_similarlags_idx stations nodes lags threshold.

(** The L1 moveout distance of the specification between nodes [i] and
    [j]: the sum over stations of the absolute lag difference. *)
Definition l1_distance (lags : Lags) (i j : nat) : option Q :=
  ds ← mapM (fun row : list Q =>
               a ← row !! i; b ← row !! j; Some (Qabs (a - b))) lags;
  Some (sum ds).

End Grid.

(** ** Energy stacking for one node: [_node_loop] *)

Module Stack.

(** The fields of an [obspy.Trace] the pipeline reads. *)
Record Trace := {
  station : string;        (* tr.stats.station *)
  channel : string;        (* tr.stats.channel *)
  sampling_rate : Q;       (* tr.stats.sampling_rate *)
  starttime_hour : Z;      (* tr.stats.starttime.hour *)
  data : list Q            (* tr.data *)
}.

Abbreviation Stream := (list Trace).

(** Python 2 [round]: to the nearest integer, halves away from zero;
    [int(round(x))] is that integer. *)
Definition py_round (x : Q) : Z :=
  if Qle_bool 0 x then Qfloor (x + (1 # 2)) else Qceiling (x - (1 # 2)).

(** [np.zeros(n)]; a negative length raises [ValueError]. *)
Definition zeros (n : Z) : option (list Q) :=
  if decide (n < 0)%Z then None else Some (replicate (Z.to_nat n) 0).

Definition square (x : Q) : Q := x * x.

Definition mean (l : list Q) : Q := Grid.sum l / inject_Z (Z.of_nat (length l)).

(** [np.clip(a, lo, hi)], that is [minimum(hi, maximum(a, lo))]. *)
Definition clip (l : list Q) (lo hi : Q) : list Q :=
  (fun x => Qmin hi (Qmax x lo)) <$> l.

(** Lines 243-244: the pad is appended to the data, the whole is
    squared and the first [len(pad)] samples are dropped.  The product
    [lag * rate] is the exact one; the shift the program computes is
    the rounding of the product of two doubles, which can be one sample
    away from it when the exact product lies half-way between two
    integers.  What is stated about [lagged] is stated for the shift
    [py_round (lag * rate)], whatever its value. *)
Definition lagged (tr_data : list Q) (lag rate : Q) : option (list Q) :=
  pad ← zeros (py_round (lag * rate));
  Some (drop (length pad) (square <$> (tr_data ++ pad))).

(** [np.sum(energy, axis=0)] of a stack of rows of length [n]. *)
Definition sum_axis0 (energy : list (list Q)) (n : nat) : option (list Q) :=
  mapM (fun j => Grid.sum <$> Py.column energy j) (seq 0 n).

Section NodeLoop.

(** [np.sqrt], and the module-level default [brightdef.clip_level] of
    [par/bright_lights_par.py]. *)
Variable sqrt : Q -> Q.
Variable clip_level : Q.

(** Lines 246-250: clipping and normalisation of one lagged envelope.
    The division is that of [Q].  It is the program's division when the
    root mean square is not zero; for a zero root mean square the
    program divides by zero and the row it builds holds NaN or
    infinities, which no rational stands for: what is stated about the
    values of the energy is stated for envelopes whose root mean square
    is not zero. *)
Definition clipped (lagged_energy : list Q) : list Q :=
  clip lagged_energy 0 (clip_level * mean lagged_energy).

Definition rms (l : list Q) : Q := sqrt (mean (square <$> l)).

Definition normalised (lagged_energy : list Q) : list Q :=
  (fun x => x / rms lagged_energy) <$> lagged_energy.

(** The local variables of [_node_loop] that live across iterations:
    [energy] and [lagged_energy] ([None] while unbound) and the
    warnings issued so far. *)
Record Locals := {
  energy : option (list (list Q));
  lagged_energy : option (list Q);
  warned : list string
}.

(** Line 234: the positions of [stations] that name the trace's
    station. *)
Definition matches (stations : list string) (tr : Trace) : list nat :=
  filter (fun k => stations !! k = Some (station tr)) (seq 0 (length stations)).

(** Lines 247-252: start [energy] or stack one more row under it. *)
Definition stack_row (energy : option (list (list Q))) (row : list Q)
  : option (list (list Q)) :=
  match energy with
  | None => Some [row]
  | Some e =>
      if decide (Forall (fun r => length r = length row) e)
      then Some (e ++ [row]) else None
  end.

(** The body of the loop, lines 234-252; the outer [option] is an
    exception, which ends the function. *)
Definition body (stations : list string) (lags : list Q) (st : Locals)
    (tr : Trace) : option Locals :=
  let j := matches stations tr in
  let w1 := if decide (1 < length j)%nat then ["Too many stations"%string] else [] in
  let j := if decide (1 < length j)%nat then take 1 j else j in
  match j with
  | [] =>
      Some {| energy := energy st; lagged_energy := lagged_energy st;
              warned := warned st ++ w1 ++ ["No station match"%string] |}
  | j0 :: _ =>
      lag ← lags !! j0;
      le ← lagged (data tr) lag (sampling_rate tr);
      let le := clipped le in
      e ← stack_row (energy st) (normalised le);
      Some {| energy := Some e; lagged_energy := Some le;
              warned := warned st ++ w1 |}
  end.

Fixpoint loop (stations : list string) (lags : list Q) (stream : Stream)
    (st : Locals) : option Locals :=
  match stream with
  | [] => Some st
  | tr :: rest =>
      st' ← body stations lags st tr;
      loop stations lags rest st'
  end.

(** [_node_loop(stations, lags, stream, i, mem_issue=False)], lines
    221-255: the pair of [i] and the summed energy row. *)
Definition _node_loop (stations : list string) (lags : list Q)
    (stream : Stream) (i : nat) : option (nat * list Q * list string) :=
  st ← loop stations lags stream
          {| energy := None; lagged_energy := None; warned := [] |};
  e ← energy st;
  le ← lagged_energy st;
  total ← sum_axis0 e (length le);
  Some (i, total, warned st).

(** The [mem_issue] branch, lines 257-258: the row is saved in the
    scratch slot of node [i] instead of being returned. *)
Definition _node_loop_saved (stations : list string) (lags : list Q)
    (stream : Stream) (i : nat) (fs : Reduce.scratch)
  : option (nat * Reduce.scratch * list string) :=
  r ← _node_loop stations lags stream i;
  Some (i, <[i := r.1.2]> fs, r.2).

End NodeLoop.

(** The envelope of the specification: the squared series padded at the
    start with [k] zeros and truncated to the original length. *)
Definition padded_at_start (tr_data : list Q) (k : nat) : list Q :=
  take (length tr_data) (replicate k 0 ++ (square <$> tr_data)).

End Stack.

(** ** Picking detections: [_find_detections] *)

Module Detect.

(** A NumPy float: a finite value, an infinity or a NaN. *)
Inductive float :=
  | Finite (q : Q)
  | PosInf
  | NegInf
  | NaN.

Definition isnan (x : float) : bool :=
  match x with NaN => true | _ => false end.

Definition isfinite (x : float) : bool :=
  match x with Finite _ => true | _ => false end.

Definition finite_value (x : float) : option Q :=
  match x with Finite q => Some q | _ => None end.

(** What [core.match_filter.DETECTION] is constructed with. *)
Record DETECTION := {
  template_name : string;
  detect_time : Q;
  no_chans : nat;
  detect_val : Q;
  threshold : Q;
  typeofdet : string;
  chans : list string
}.

Section FindDetections.

(** The largest finite value of the array's float type, [np.sqrt],
    [np.median], [utils.findpeaks.find_peaks2] (a list of
    (value, index) pairs) and [defaults.length] of
    [par/template_gen_par.py]. *)
Variable fmax : Q.
Variable sqrt : Q -> Q.
Variable median : list Q -> Q.
Variable find_peaks2 : list Q -> Q -> Q -> list (Q * nat).
Variable length_par : Q.

(** [np.nan_to_num] on one element: NaN becomes zero, an infinity
    becomes the largest finite value of its sign. *)
Definition nan_to_num (x : float) : float :=
  match x with
  | NaN => Finite 0
  | PosInf => Finite fmax
  | NegInf => Finite (- fmax)
  | Finite q => Finite q
  end.

(** Lines 307-309. *)
Definition force_no_nans (cum_net_resp : list float) : option (list float) :=
  let cum_net_resp := nan_to_num <$> cum_net_resp in
  if existsb isnan cum_net_resp then None else Some cum_net_resp.

(** Lines 313-318; an unknown [thresh_type] leaves [thresh] unbound. *)
Definition resolve_thresh (thresh_type : string) (threshold : Q)
    (cum_net_resp : list Q) : option Q :=
  if decide (thresh_type = "MAD"%string)
  then Some (median (Qabs <$> cum_net_resp) * threshold)
  else if decide (thresh_type = "abs"%string) then Some threshold
  else if decide (thresh_type = "RMS"%string)
  then Some (sqrt (Stack.mean (Stack.square <$> cum_net_resp)) * threshold)
  else None.

(** [_find_detections], lines 288-334.  Arithmetic is done on the
    finite values left by line 307; [max] of an empty response raises. *)
Definition _find_detections (cum_net_resp : list float)
    (nodes : list Grid.Node) (threshold : Q) (thresh_type : string)
    (samp_rate : Q) (realstations : list string) : option (list DETECTION) :=
  cum_net_resp ← force_no_nans cum_net_resp;
  cnr ← mapM finite_value cum_net_resp;
  thresh ← resolve_thresh thresh_type threshold cnr;
  _ ← head cnr;
  let peaks := find_peaks2 cnr thresh (length_par * samp_rate) in
  mapM (fun peak : Q * nat =>
          node ← nodes !! peak.2;
          Some {| template_name :=
                    node.1.1 +:+ "_" +:+ node.1.2 +:+ "_" +:+ node.2;
                  detect_time := inject_Z (Z.of_nat peak.2) / samp_rate;
                  no_chans := length realstations;
                  detect_val := peak.1;
                  threshold := thresh;
                  typeofdet := "brightness";
                  chans := realstations |})
       peaks.

End FindDetections.

End Detect.

(** ** Network coherence: [coherance] *)

Module Coherence.

Section Coherance.

(** [normxcorr2(a, b)[0][0]] of [core/match_filter.py]: the normalised
    cross-correlation of two equally long series at zero lag. *)
Variable normxcorr2 : list Q -> list Q -> Q.

(** The inner loop of lines 364-365 for a fixed [i]. *)
Definition inner (stream : Stack.Stream) (i : nat) (acc : option Q)
  : option Q :=
  foldl (fun acc j =>
           c ← acc;
           a ← stream !! i;
           b ← stream !! j;
           Some (c + Qabs (normxcorr2 (Stack.data a) (Stack.data b))))
        acc (Py.range (i + 1) (length stream)).

(** [coherance(stream)], lines 336-367.  [np.max] of no lengths raises;
    the padding branch of lines 352-358 starts by evaluating
    [warnings.warn], a name the module never binds, and raises
    [NameError]; the final division raises for a single channel. *)
Definition coherance (stream : Stack.Stream) : option Q :=
  maxlen ← (match length <$> (Stack.data <$> stream) with
            | [] => None
            | l :: ls => Some (foldl Nat.max l ls)
            end);
  if decide (Forall (fun tr => length (Stack.data tr) = maxlen) stream) then
    coh ← foldl (fun acc i => inner stream i acc) (Some 0)
                (Py.range 0 (length stream));
    let n := length stream in
    if decide (n * (n - 1) = 0)%nat then None
    else Some (2 * coh / inject_Z (Z.of_nat (n * (n - 1))))
  else None.

(** The specification's score: the sum over all unordered pairs of
    channels of the magnitude of their correlation, divided by the
    number [n(n-1)/2] of such pairs. *)
Definition unordered_pairs (n : nat) : list (nat * nat) :=
  filter (fun p => p.1 < p.2)%nat
         (i ← seq 0 n; j ← seq 0 n; [(i, j)]).

Definition pair_score (stream : Stack.Stream) (p : nat * nat) : Q :=
  match stream !! p.1, stream !! p.2 with
  | Some a, Some b => Qabs (normxcorr2 (Stack.data a) (Stack.data b))
  | _, _ => 0
  end.

Definition mean_pair_score (stream : Stack.Stream) : Q :=
  let n := length stream in
  Grid.sum (pair_score stream <$> unordered_pairs n)
  / inject_Z (Z.of_nat (n * (n - 1) / 2)).

End Coherance.

End Coherence.

(** ** The driver: pieces of [brightness] *)

Module Driver.

(** Lines 447-451: the size of the worker pool. *)
Definition num_cores (cores len_nodes cpu_count : nat) : nat :=
  let num_cores := cores in
  let num_cores :=
    if decide (len_nodes < num_cores)%nat then len_nodes else num_cores in
  if decide (cpu_count < num_cores)%nat then cpu_count else num_cores.

(** Python's [s.split(sep)] for a one-character separator. *)
Fixpoint split (sep : ascii) (s : string) : list string :=
  match s with
  | EmptyString => [EmptyString]
  | String c s' =>
      if Ascii.eqb c sep then EmptyString :: split sep s'
      else match split sep s' with
           | p :: ps => String c p :: ps
           | [] => [String c EmptyString]
           end
  end.

(** Lines 535-537: the node named by a detection, read back from
    [template_name]; a name with fewer than three parts raises. *)
Definition node_of_name (template_name : string) : option Grid.Node :=
  let parts := split "_" template_name in
  a ← parts !! 0%nat;
  b ← parts !! 1%nat;
  c ← parts !! 2%nat;
  Some (a, b, c).

(** Python's [l.index(x)]: the first position holding [x]; [ValueError]
    when there is none. *)
Fixpoint index (x : Grid.Node) (l : list Grid.Node) : option nat :=
  match l with
  | [] => None
  | y :: l' => if decide (y = x) then Some 0%nat else S <$> index x l'
  end.

(** Lines 535-542: the lags of the node a detection names. *)
Definition detect_lags (nodes : list Grid.Node) (lags : Grid.Lags)
    (d : Detect.DETECTION) : option (Grid.Node * list Q) :=
  node ← node_of_name (Detect.template_name d);
  i ← index node nodes;
  col ← Grid.col lags i;
  Some (node, col).

(** The characters of a string, one string each: what iterating over a
    Python string yields. *)
Fixpoint chars (s : string) : list string :=
  match s with
  | EmptyString => []
  | String c s' => String c EmptyString :: chars s'
  end.

Section RealStations.

(** [stream.select(station=station)] of ObsPy. *)
Variable select : Stack.Stream -> string -> Stack.Stream.

(** Lines 419-424.  [realstations+=station] extends the list with the
    items of the string [station]; [del st] raises when the loop never
    bound [st]. *)
Definition realstations (stations : list string) (stream : Stack.Stream)
  : option (list string) :=
  let realstations :=
    foldl (fun realstations station =>
             match select stream station with
             | [] => realstations
             | _ :: _ => realstations ++ chars station
             end) [] stations in
  match stations with
  | [] => None
  | _ :: _ => Some realstations
  end.

End RealStations.

End Driver.

(** ** Notions used to state the properties *)

(** The chunk of index [i] when every chunk has [node_splits] nodes. *)
Definition chunk (node_splits i : nat) : list nat :=
  Py.range (node_splits * i) (node_splits * (i + 1)).

(** The nodes and lag rows picked out by a list of node indices. *)
Definition selects (idx : list nat) (nodes nodes' : list Grid.Node)
    (lags lags' : Grid.Lags) : Prop :=
  mapM (fun i => nodes !! i) idx = Some nodes'
  /\ Forall2 (fun row row' : list Q => mapM (fun i => row !! i) idx = Some row')
             lags lags'.

(** Every station's lag sequence is as long as the node list. *)
Definition node_aligned (nodes : list Grid.Node) (lags : Grid.Lags) : Prop :=
  Forall (fun row => length row = length nodes) lags.

(** The specification's view of energy stacking. *)
Section StackNotions.

Variable sqrt : Q -> Q.
Variable clip_level : Q.

(** How often the station of a trace is named in the station list, and
    the first position that names it. *)
Definition occurrences (stations : list string) (tr : Stack.Trace) : nat :=
  length (filter (fun s => s = Stack.station tr) stations).

Definition first_match (stations : list string) (tr : Stack.Trace)
  : option nat :=
  fst <$> list_find (fun s => s = Stack.station tr) stations.

(** The traces that contribute: those whose station is listed. *)
Definition matched (stations : list string) (stream : Stack.Stream)
  : Stack.Stream :=
  filter (fun tr => Stack.station tr ∈ stations) stream.

Definition trace_warnings (stations : list string) (tr : Stack.Trace)
  : list string :=
  match occurrences stations tr with
  | 0%nat => ["No station match"%string]
  | 1%nat => []
  | _ => ["Too many stations"%string]
  end.

(** The lagged envelope of a trace clipped at [clip_level] times its
    mean (floor 0), and that envelope divided by its RMS. *)
Definition clipped_envelope (stations : list string) (lags : list Q)
    (tr : Stack.Trace) : option (list Q) :=
  j0 ← first_match stations tr;
  lag ← lags !! j0;
  le ← Stack.lagged (Stack.data tr) lag (Stack.sampling_rate tr);
  Some (Stack.clip le 0 (clip_level * Stack.mean le)).

Definition normalise (c : list Q) : list Q :=
  (fun x => x / sqrt (Stack.mean (Stack.square <$> c))) <$> c.

Definition envelope (stations : list string) (lags : list Q)
    (tr : Stack.Trace) : option (list Q) :=
  c ← clipped_envelope stations lags tr;
  Some (normalise c).

(** The elementwise sum of rows of length [n]. *)
Definition elementwise_sum (rows : list (list Q)) (n : nat) : list Q :=
  foldl (zip_with Qplus) (replicate n 0) rows.

(** Stacking rows one under the other, as the successive
    [np.concatenate] calls do, from an [energy] that may be unbound. *)
Fixpoint stack_rows (energy : option (list (list Q))) (rows : list (list Q))
  : option (option (list (list Q))) :=
  match rows with
  | [] => Some energy
  | r :: rows' => e ← Stack.stack_row energy r; stack_rows (Some e) rows'
  end.

End StackNotions.

(** The lagged energy of a trace, with the lag of the first entry of
    the station list that names its station. *)
Definition lagged_envelope (stations : list string) (lags : list Q)
    (tr : Stack.Trace) : option (list Q) :=
  j0 ← first_match stations tr;
  lag ← lags !! j0;
  Stack.lagged (Stack.data tr) lag (Stack.sampling_rate tr).

(** The specification's clip of one value: above at [hi], with floor 0. *)
Definition clipped_above (hi x : Q) : Q :=
  if Qlt_le_dec x 0 then 0 else if Qlt_le_dec hi x then hi else x.

(** The specification's sum "over all matched stations": one envelope
    for each station of the list that has a channel in the waveform
    set, that of its first channel. *)
Definition first_channels (stations : list string) (stream : Stack.Stream)
  : Stack.Stream :=
  omap (fun s => snd <$> list_find (fun tr => Stack.station tr = s) stream)
       stations.

Definition sum_over_stations (sqrt : Q -> Q) (clip_level : Q)
    (stations : list string) (lags : list Q) (stream : Stack.Stream)
  : option (list Q) :=
  rows ← mapM (envelope sqrt clip_level stations lags)
              (first_channels stations stream);
  r ← head rows;
  Some (elementwise_sum rows (length r)).

(** The larger of the running value and a new sample, the running
    value winning ties: what line 278 of [_cum_net_resp] picks. *)
Definition running_max (c e : Q) : Q := if Py.Qltb c e then e else c.

(** [v] is the maximum of the traces at sample [t]: one of them holds
    it there and none exceeds it. *)
Definition max_at (traces : list (list Q)) (t : nat) (v : Q) : Prop :=
  (exists e, e ∈ traces /\ e !! t = Some v)
  /\ (forall e x, e ∈ traces -> e !! t = Some x -> x <= v).

(** The scratch area once the files of the nodes [done] are removed. *)
Definition removed (done : list nat) (fs : Reduce.scratch) : Reduce.scratch :=
  foldl (fun m i => delete i m) fs done.

(** The composite key [_find_detections] gives a node, and the strings
    that hold no underscore. *)
Definition node_key (node : Grid.Node) : string :=
  node.1.1 +:+ "_" +:+ node.1.2 +:+ "_" +:+ node.2.

Fixpoint no_underscore (s : string) : Prop :=
  match s with
  | EmptyString => True
  | String c s' => c <> "_"%char /\ no_underscore s'
  end.

(** A node lies in the volume of a resampling when its depth parses
    to a value strictly between the bounds and its latitude and
    longitude are inside the polygon. *)
Definition in_volume (pyfloat : string -> option Q)
    (contains_point : string * string -> bool) (mindepth maxdepth : Q)
    (node : Grid.Node) : Prop :=
  exists depth,
    pyfloat node.2 = Some depth
    /\ mindepth < depth /\ depth < maxdepth
    /\ contains_point (node.1.1, node.1.2) = true.

#[global] Instance in_volume_dec pyfloat contains_point mindepth maxdepth node :
  Decision (in_volume pyfloat contains_point mindepth maxdepth node).
Proof.
  unfold in_volume. destruct (pyfloat node.2) as [depth|].
  - destruct (Qlt_le_dec mindepth depth) as [H1|H1];
      [destruct (Qlt_le_dec depth maxdepth) as [H2|H2];
       [destruct (contains_point (node.1.1, node.1.2)) eqn:H3|]|].
    + left. now exists depth.
    + right. intros (d & [= <-] & _ & _ & ?). congruence.
    + right. intros (d & [= <-] & _ & ? & _). now apply (Qle_not_lt _ _ H2).
    + right. intros (d & [= <-] & ? & _). now apply (Qle_not_lt _ _ H1).
  - right. intros (d & ? & _). congruence.
Defined.

(** The values [_find_detections] works on once line 307 has replaced
    the NaNs and the infinities. *)
Definition cleaned (fmax : Q) (cum_net_resp : list Detect.float) : list Q :=
  (fun x => match x with
            | Detect.Finite q => q
            | Detect.NaN => 0
            | Detect.PosInf => fmax
            | Detect.NegInf => - fmax
            end) <$> cum_net_resp.

(** ** Sample inputs *)

Module Examples.

Definition nodes3 : list Grid.Node :=
  [("-43.0", "170.0", "5.0"); ("-43.0", "170.1", "5.0");
   ("-43.0", "170.2", "5.0")]%string.

(** One station; nodes 0 and 2 have the same lag, node 1 differs. *)
Definition lags_one_station : Grid.Lags := [[0; 5; 0]].

Definition lags_two_stations : Grid.Lags := [[0; 5; 0]; [1; 0; 3]].

Definition pyfloat (s : string) : option Q :=
  if String.eqb s "5.0" then Some 5 else None.

Definition inside (p : string * string) : bool :=
  negb (String.eqb p.2 "170.1").

(** A directory with one S grid for station FOZ and one for WVZ. *)
Definition dir : Grid.TTDir := {|
  Grid.glob := fun pattern =>
    if String.eqb pattern "grid/*.S.FOZ.time.csv" then ["grid/a.S.FOZ.time.csv"]
    else if String.eqb pattern "grid/*.S.FOZ*.csv" then ["grid/a.S.FOZ.time.csv"]
    else if String.eqb pattern "grid/*.S.WVZ.time.csv" then ["grid/a.S.WVZ.time.csv"]
    else if String.eqb pattern "grid/*.S.WVZ*.csv" then ["grid/a.S.WVZ.time.csv"]
    else [];
  Grid.read_csv := fun file =>
    if String.eqb file "grid/a.S.FOZ.time.csv"
    then Some (zip nodes3 [2; 7; 2])
    else if String.eqb file "grid/a.S.WVZ.time.csv"
    then Some (zip nodes3 [4; 3; 6])
    else None
|}%string.

(** Two channels of station FOZ and one channel of a station that
    is not listed. *)
Definition foz_z : Stack.Trace := {|
  Stack.station := "FOZ"; Stack.channel := "HHZ"; Stack.sampling_rate := 1;
  Stack.starttime_hour := 0; Stack.data := [0; 0; 2; 0]
|}.

Definition foz_n : Stack.Trace := {|
  Stack.station := "FOZ"; Stack.channel := "HHN"; Stack.sampling_rate := 1;
  Stack.starttime_hour := 0; Stack.data := [0; 0; 0; 4]
|}.

Definition xyz_z : Stack.Trace := {|
  Stack.station := "XYZ"; Stack.channel := "HHZ"; Stack.sampling_rate := 1;
  Stack.starttime_hour := 0; Stack.data := [1; 1; 1; 1]
|}.

(** A stand-in for [np.sqrt], exact on a fraction whose numerator and
    denominator are both squares. *)
Definition sqrt_exact (x : Q) : Q :=
  Z.sqrt (Qnum x) # Pos.sqrt (Qden x).

(** The largest finite double, [1.7976931348623157e308]. *)
Definition float64_max : Q := inject_Z (2 ^ 1024 - 2 ^ 971).

(** A stand-in for [normxcorr2(a, b)[0][0]]: the inner product of the
    two series over the product of their norms. *)
Definition xcorr (a b : list Q) : Q :=
  Grid.sum (zip_with Qmult a b)
  / (sqrt_exact (Grid.sum (Stack.square <$> a))
     * sqrt_exact (Grid.sum (Stack.square <$> b))).

End Examples.

(** * Properties *)

(** ** Auxiliary facts on lists and the option monad *)

Lemma mapM_lookup_seq {A} (l : list A) :
  mapM (fun i => l !! i) (seq 0 (length l)) = Some l.
Proof.
  apply mapM_Some, Forall2_same_length_lookup_2.
  - now rewrite length_seq.
  - intros i x y Hx Hy. apply lookup_seq in Hx as [-> _]. exact Hy.
Qed.

(** ** Chunking *)

Section ChunkFacts.

Variable node_splits : nat.

Lemma chunk_seq i : chunk node_splits i = seq (node_splits * i) node_splits.
Proof. unfold chunk, Py.range. f_equal. lia. Qed.

Lemma foldl_chunk_step (k a : nat) (acc : list (list nat)) (i0 : nat) :
  foldl (Chunks.chunk_step node_splits) (acc, i0) (seq a k)
  = (acc ++ (chunk node_splits <$> seq a k),
     if k is O then i0 else (a + k - 1)%nat).
Proof.
  revert a acc i0. induction k as [|k IH]; intros a acc i0; simpl.
  - now rewrite app_nil_r.
  - unfold Chunks.chunk_step at 2. simpl. rewrite IH.
    rewrite <- app_assoc. simpl. f_equal.
    destruct k; lia.
Qed.

Lemma concat_chunks (k a : nat) :
  concat (chunk node_splits <$> seq a k)
  = seq (node_splits * a) (node_splits * k).
Proof.
  revert a. induction k as [|k IH]; intros a; simpl.
  - now rewrite Nat.mul_0_r.
  - rewrite IH, chunk_seq.
    replace (node_splits * S k)%nat with (node_splits + node_splits * k)%nat by lia.
    rewrite seq_app. do 2 f_equal. lia.
Qed.

End ChunkFacts.

(** With three workers or more the loop of line 482 runs, [i] ends at
    [num_cores - 2], and the chunks are an exact contiguous partition
    of the node indices whatever [i] held before. *)
Lemma node_chunks_three_or_more (len_nodes num_cores i_in : nat) :
  (3 <= num_cores)%nat ->
  exists indeces,
    Chunks.node_chunks len_nodes num_cores i_in = Some indeces
    /\ length indeces = num_cores
    /\ concat indeces = seq 0 len_nodes.
Proof.
  intros Hn. unfold Chunks.node_chunks.
  destruct (decide (num_cores = 0%nat)) as [->|_]; [lia|].
  cbv zeta. set (ns := (len_nodes / num_cores)%nat).
  change (Py.range 1 (num_cores - 1)) with (seq 1 (num_cores - 1 - 1)).
  rewrite foldl_chunk_step.
  destruct (num_cores - 1 - 1)%nat as [|k] eqn:Hk; [lia|].
  eexists; split; [reflexivity|]. cbn [fst snd].
  split.
  - rewrite !length_app, length_fmap, length_seq. simpl. lia.
  - rewrite <- app_assoc, !concat_app. cbn [concat]. rewrite concat_chunks.
    rewrite !app_nil_r. unfold Py.range.
    assert (Hle : (ns * num_cores <= len_nodes)%nat).
    { unfold ns. rewrite Nat.mul_comm. apply Nat.Div0.mul_div_le. }
    rewrite Nat.sub_0_r.
    replace (ns * (1 + S k - 1 + 1))%nat with (ns + ns * S k)%nat by lia.
    replace (ns * 1)%nat with (0 + ns)%nat by lia.
    rewrite <- seq_app.
    replace (ns + ns * S k)%nat with (0 + (ns + ns * S k))%nat at 1 by lia.
    rewrite <- seq_app. f_equal.
    assert (ns * num_cores = ns + ns * S k + ns)%nat by nia.
    lia.
Qed.

Lemma brightness_chunks_three_or_more (len_nodes num_cores : nat) :
  (3 <= num_cores)%nat ->
  exists chunks,
    Chunks.brightness_chunks len_nodes num_cores = Some chunks
    /\ length chunks = num_cores
    /\ concat chunks = seq 0 len_nodes.
Proof.
  intros Hn.
  destruct (node_chunks_three_or_more len_nodes num_cores (len_nodes - 1) Hn)
    as (indeces & Hc & Hlen & Hcat).
  exists indeces. unfold Chunks.brightness_chunks. rewrite Hc. simpl.
  unfold Chunks.dispatched. rewrite <- Hlen at 1.
  now rewrite mapM_lookup_seq.
Qed.

(** A single worker receives the whole index range. *)
Lemma brightness_chunks_one (len_nodes : nat) :
  Chunks.brightness_chunks len_nodes 1 = Some [seq 0 len_nodes].
Proof.
  unfold Chunks.brightness_chunks, Chunks.node_chunks.
  rewrite decide_False by lia. cbv zeta. rewrite Nat.div_1_r.
  unfold Py.range. cbn. now rewrite Nat.sub_0_r.
Qed.

(** With two workers the loop of line 482 is empty, [i] still holds
    [len(nodes) - 1], and line 484 builds the empty range
    [range(node_splits * len(nodes), len(nodes))]. *)
Lemma brightness_chunks_two (len_nodes : nat) :
  (2 <= len_nodes)%nat ->
  Chunks.brightness_chunks len_nodes 2 = Some [seq 0 (len_nodes / 2); []].
Proof.
  intros Hn. unfold Chunks.brightness_chunks, Chunks.node_chunks.
  rewrite decide_False by lia. cbv zeta.
  assert (H1 : (1 <= len_nodes / 2)%nat) by (apply Nat.div_le_lower_bound; lia).
  set (ns := (len_nodes / 2)%nat) in *.
  unfold Py.range. cbn [seq foldl fst snd app Nat.sub].
  replace (len_nodes - ns * (len_nodes - 1 + 1))%nat with 0%nat by nia.
  rewrite Nat.sub_0_r. reflexivity.
Qed.

(** C4 (code defect).  The claim asks the chunks handed to the workers
    to partition the node indices [0..N-1] for every worker count.  For
    four nodes and two workers [brightness] hands out [0, 1] and an empty
    chunk: nodes 2 and 3 are in no chunk, and the worker given the empty
    chunk raises on [node_lis[0]], so the reduction yields no result
    whatever the scratch area holds. *)
Theorem C4_two_workers_omit_nodes :
  Chunks.brightness_chunks 4 2 = Some [[0; 1]; []]%nat
  /\ (forall fs, Reduce.brightness_out_of_core 4 2 fs = None).
Proof.
  split; [reflexivity|]. intros fs.
  unfold Reduce.brightness_out_of_core.
  change (Chunks.brightness_chunks 4 2) with (Some [[0; 1]; []]%nat).
  unfold Reduce.out_of_core. cbn [mbind option_bind Reduce.run_workers].
  destruct (Reduce._cum_net_resp [0%nat; 1%nat] fs) as [r|]; reflexivity.
Qed.

(** ** Reduction *)

(** [np.argmax] returns a position holding a value no other entry
    exceeds, and every earlier entry is strictly smaller: ties go to
    the lowest index. *)
Lemma argmax_from_spec (l : list Q) (best_i i : nat) (best : Q) (pre : list Q) :
  pre !! best_i = Some best ->
  length pre = i ->
  (forall j x, pre !! j = Some x -> x <= best) ->
  (forall j x, (j < best_i)%nat -> pre !! j = Some x -> x < best) ->
  let r := Py.argmax_from best_i best i l in
  exists m, (pre ++ l) !! r = Some m
    /\ (forall j x, (pre ++ l) !! j = Some x -> x <= m)
    /\ (forall j x, (j < r)%nat -> (pre ++ l) !! j = Some x -> x < m).
Proof.
  revert pre best_i i best.
  induction l as [|x l IH]; intros pre best_i i best Hb Hlen Hmax Hfirst; simpl.
  - rewrite app_nil_r. eauto.
  - replace (pre ++ x :: l) with ((pre ++ [x]) ++ l) by now rewrite <- app_assoc.
    unfold Py.Qltb. destruct (Qle_bool x best) eqn:Hle; simpl.
    + apply Qle_bool_iff in Hle.
      apply IH.
      * rewrite lookup_app_l; [done|]. now apply lookup_lt_Some in Hb.
      * rewrite length_app. simpl. lia.
      * intros j y Hj. apply lookup_app_Some in Hj as [Hj|[_ Hj]]; [eauto|].
        apply list_lookup_singleton_Some in Hj as [_ <-]. done.
      * intros j y Hlt Hj. apply (Hfirst j); [done|].
        apply lookup_lt_Some in Hb.
        rewrite lookup_app_l in Hj by lia. done.
    + assert (Hlt : best < x).
      { apply Qnot_le_lt. intros H. apply Qle_bool_iff in H. congruence. }
      apply IH.
      * rewrite lookup_app_r by lia. now rewrite Hlen, Nat.sub_diag.
      * rewrite length_app. simpl. lia.
      * intros j y Hj. apply lookup_app_Some in Hj as [Hj|[_ Hj]].
        -- apply Qle_trans with best; [apply (Hmax j); done|]. now apply Qlt_le_weak.
        -- apply list_lookup_singleton_Some in Hj as [_ <-]. apply Qle_refl.
      * intros j y Hji Hj. rewrite lookup_app_l in Hj by lia.
        apply Qle_lt_trans with best; [apply (Hmax j); done|done].
Qed.

Lemma argmax_spec (l : list Q) (r : nat) :
  Py.argmax l = Some r ->
  exists m, l !! r = Some m
    /\ (forall j x, l !! j = Some x -> x <= m)
    /\ (forall j x, (j < r)%nat -> l !! j = Some x -> x < m).
Proof.
  destruct l as [|x l]; [done|]. intros [= <-].
  apply (argmax_from_spec l 0 1 x [x]); try done.
  - intros j y Hj. apply list_lookup_singleton_Some in Hj as [_ <-]. apply Qle_refl.
  - intros j y Hj. lia.
Qed.

(** The in-memory reduction does what the specification asks: at every
    sample it reports the maximum over the nodes and the lowest node
    index that reaches it. *)
Lemma in_memory_owner_lowest (energy : list (list Q)) (vals : list Q)
    (owners : list nat) (t o : nat) :
  Reduce.in_memory energy = Some (vals, owners) ->
  owners !! t = Some o ->
  exists col m,
    Py.column energy t = Some col
    /\ col !! o = Some m
    /\ vals !! t = Some m
    /\ (forall j x, col !! j = Some x -> x <= m)
    /\ (forall j x, (j < o)%nat -> col !! j = Some x -> x < m).
Proof.
  unfold Reduce.in_memory, Py.argmax_axis0.
  destruct (head energy) as [r0|]; [|done]. cbn [mbind option_bind].
  destruct (mapM _ (seq 0 (length r0))) as [indeces|] eqn:Hidx; [|done].
  cbn [mbind option_bind].
  destruct (head indeces); [|done]. cbn [mbind option_bind].
  destruct (mapM _ (seq 0 (length indeces))) as [cum|] eqn:Hcum; [|done].
  cbn [mbind option_bind]. intros [= <- <-] Ho.
  apply mapM_Some in Hidx, Hcum.
  destruct (Forall2_lookup_r _ _ _ _ _ Hidx Ho) as (t' & Ht' & Harg).
  apply lookup_seq in Ht' as [-> _]. cbn in Harg.
  destruct (Py.column energy t) as [col|] eqn:Hcol; [|done]. cbn in Harg.
  destruct (argmax_spec col o Harg) as (m & Hm & Hmax & Hfirst).
  exists col, m. repeat split; try done.
  assert (Ht : (t < length indeces)%nat) by (now apply lookup_lt_Some in Ho).
  destruct (Forall2_lookup_l _ _ _ _ _ Hcum (lookup_seq_lt 0 _ t Ht))
    as (v & Hv & Hval).
  rewrite Hv. cbn in Hval. rewrite Ho in Hval. cbn in Hval.
  destruct (energy !! o) as [row|] eqn:Hrow; [|done]. cbn in Hval.
  apply mapM_Some in Hcol.
  destruct (Forall2_lookup_l _ _ _ _ _ Hcol Hrow) as (x & Hx & Hrt).
  congruence.
Qed.

(** What one step of the worker's loop leaves in its two arrays: the
    elementwise maximum, the running value winning ties, and an index
    array that holds [i] where the new trace won and [0] everywhere
    else, whatever the index array held before. *)
Lemma fold_node_indeces (i : nat) (cum : list Q) (idx : list nat)
    (node_energy cum' : list Q) (idx' : list nat) :
  Reduce.fold_node i (cum, idx) node_energy = Some (cum', idx') ->
  idx' = zip_with (fun c e => if Py.Qltb c e then i else 0%nat) cum node_energy.
Proof.
  unfold Reduce.fold_node. cbn [fst].
  destruct (decide _) as [Hlen|]; [|done].
  destruct (mapM _ _) as [c|]; [|done]. cbn. intros [= _ <-].
  clear. revert node_energy.
  induction cum as [|c cum IH]; intros [|e es]; cbn; try done.
  rewrite IH. destruct (Py.Qltb c e); cbn; [|done].
  now rewrite decide_True.
Qed.

Lemma fold_node_values (i : nat) (cum : list Q) (idx : list nat)
    (node_energy cum' : list Q) (idx' : list nat) :
  Reduce.fold_node i (cum, idx) node_energy = Some (cum', idx') ->
  cum' = zip_with (fun c e => if Py.Qltb c e then e else c) cum node_energy.
Proof.
  unfold Reduce.fold_node. cbn [fst].
  destruct (decide _) as [Hlen|]; [|done].
  destruct (mapM _ _) as [c|] eqn:Hm; [|done]. cbn. intros [= <- _].
  apply mapM_Some in Hm.
  apply list_eq_same_length with (length cum).
  - rewrite length_zip_with. lia.
  - apply Forall2_length in Hm. rewrite length_seq, length_zip_with in Hm. lia.
  - intros j x y Hj Hx Hy.
    eapply Forall2_lookup_r in Hm as (k & Hk & Hf); [|exact Hx].
    apply lookup_seq in Hk as [-> _]. cbn in Hf.
    apply lookup_zip_with_Some in Hy as (c0 & e0 & -> & Hc0 & He0).
    rewrite (proj2 (lookup_zip_with_Some _ _ _ _ _)
               (ex_intro _ c0 (ex_intro _ e0 (conj eq_refl (conj Hc0 He0)))))
      in Hf.
    cbn in Hf. destruct (Py.Qltb c0 e0); cbn in Hf; congruence.
Qed.

(** After a worker has folded a chunk of two nodes or more, its index
    array names only the last node of the chunk or node 0. *)
Lemma fold_nodes_indeces (rest : list nat) (acc acc' : Reduce.partial)
    (fs fs' : Reduce.scratch) (l : nat) :
  Reduce.fold_nodes rest acc fs = Some (acc', fs') ->
  last rest = Some l ->
  Forall (fun o => o = l \/ o = 0%nat) acc'.2.
Proof.
  revert acc fs. induction rest as [|i rest IH]; intros acc fs; [done|].
  cbn [Reduce.fold_nodes].
  destruct (fs !! i) as [e|]; [|done]. cbn [mbind option_bind].
  destruct (Reduce.fold_node i acc e) as [acc1|] eqn:Hf; [|done].
  cbn [mbind option_bind]. intros Hrest Hlast.
  destruct rest as [|i' rest'].
  - cbn in Hrest, Hlast. injection Hlast as <-. injection Hrest as <- _.
    destruct acc as [cum idx], acc1 as [cum1 idx1].
    rewrite (fold_node_indeces _ _ _ _ _ _ Hf). cbn.
    clear. revert e. induction cum as [|c cum IH]; intros [|x e]; cbn;
      try constructor; [destruct (Py.Qltb c x); auto|apply IH].
  - rewrite last_cons in Hlast. apply (IH _ _ Hrest).
    destruct (last (i' :: rest')) eqn:E; [done|].
    now apply last_None in E.
Qed.

Lemma cum_net_resp_indeces (n0 : nat) (rest : list nat) (l : nat)
    (fs fs' : Reduce.scratch) (r : Reduce.partial) :
  Reduce._cum_net_resp (n0 :: rest) fs = Some (r, fs') ->
  last rest = Some l ->
  Forall (fun o => o = l \/ o = 0%nat) r.2.
Proof.
  unfold Reduce._cum_net_resp. cbn [head tail mbind option_bind].
  destruct (fs !! n0) as [c|]; [|done]. cbn [mbind option_bind].
  apply fold_nodes_indeces.
Qed.

(** C1 (code defect).  The claim asks the out-of-core reduction to
    report, like the in-memory one, the lowest node index that reaches
    the maximum.  For three one-sample traces of values 1, 5 and 2 and
    a single worker, both reductions report the value 5; the in-memory
    one names node 1 as its owner, the out-of-core one names node 0.
    Likewise for six nodes and three workers when node 2 alone holds
    the maximum. *)
Theorem C1_out_of_core_owner_differs :
  Reduce.in_memory [[1]; [5]; [2]] = Some ([5], [1%nat])
  /\ Reduce.brightness_out_of_core 3 1 (Reduce.scratch_of [[1]; [5]; [2]])
     = Some ([5], [0%nat])
  /\ Reduce.in_memory [[1]; [1]; [5]; [1]; [1]; [1]] = Some ([5], [2%nat])
  /\ Chunks.brightness_chunks 6 3 = Some [[0; 1]; [2; 3]; [4; 5]]%nat
  /\ Reduce.brightness_out_of_core 6 3
       (Reduce.scratch_of [[1]; [1]; [5]; [1]; [1]; [1]])
     = Some ([5], [0%nat]).
Proof. repeat split; vm_compute; reflexivity. Qed.

(** ** Grid: selections of nodes *)

Lemma mapM_snoc {A B} (f : A -> option B) (l : list A) (x : A)
    (k : list B) (y : B) :
  mapM f l = Some k -> f x = Some y -> mapM f (l ++ [x]) = Some (k ++ [y]).
Proof.
  intros Hl Hx. apply mapM_Some, Forall2_app.
  - now apply mapM_Some.
  - now repeat constructor.
Qed.

Lemma column_length (a : list (list Q)) (j : nat) (c : list Q) :
  Py.column a j = Some c -> length c = length a.
Proof. intros H. symmetry. exact (length_mapM _ _ _ H). Qed.

Lemma column_is_Some (a : list (list Q)) (j n : nat) :
  Forall (fun r => length r = n) a -> (j < n)%nat -> is_Some (Py.column a j).
Proof.
  intros Ha Hj. apply mapM_is_Some. eapply Forall_impl; [exact Ha|].
  intros r Hr. simpl in *. apply lookup_lt_is_Some. lia.
Qed.

(** Transposing the columns picked at [idx] gives, station by station,
    the entries of the station's row at [idx]. *)
Lemma columns_transposed (lags cols : list (list Q)) (idx : list nat) :
  mapM (Py.column lags) idx = Some cols ->
  exists lags',
    mapM (Py.column cols) (seq 0 (length lags)) = Some lags'
    /\ Forall2 (fun row row' : list Q => mapM (fun i => row !! i) idx = Some row')
               lags lags'.
Proof.
  intros Hcols. apply mapM_Some in Hcols.
  assert (Hlen : Forall (fun c => length c = length lags) cols).
  { apply Forall_forall. intros c Hc.
    apply list_elem_of_lookup in Hc as [m Hm].
    destruct (Forall2_lookup_r _ _ _ _ _ Hcols Hm) as (i & _ & Hi).
    now apply column_length in Hi. }
  assert (Hsome : is_Some (mapM (Py.column cols) (seq 0 (length lags)))).
  { apply mapM_is_Some, Forall_forall. intros s Hs.
    apply elem_of_seq in Hs. simpl. apply column_is_Some with (length lags); [done|lia]. }
  destruct Hsome as [lags' Hl']. exists lags'. split; [done|].
  apply mapM_Some in Hl'.
  apply Forall2_same_length_lookup_2.
  { apply Forall2_length in Hl'. now rewrite length_seq in Hl'. }
  intros s row row' Hrow Hrow'.
  destruct (Forall2_lookup_r _ _ _ _ _ Hl' Hrow') as (s' & Hs' & Hcol).
  apply lookup_seq in Hs' as [-> _]. simpl in Hcol.
  apply mapM_Some in Hcol.
  apply mapM_Some, Forall2_same_length_lookup_2.
  { rewrite (Forall2_length _ _ _ Hcols). exact (Forall2_length _ _ _ Hcol). }
  intros m i x Hi Hx.
  destruct (Forall2_lookup_l _ _ _ _ _ Hcols Hi) as (c & Hc & Hci).
  apply mapM_Some in Hci.
  destruct (Forall2_lookup_l _ _ _ _ _ Hcol Hc) as (x' & Hx' & Hcs).
  assert (x' = x) as -> by congruence.
  destruct (Forall2_lookup_l _ _ _ _ _ Hci Hrow) as (y & Hy & Hri).
  congruence.
Qed.

Lemma selects_aligned (idx : list nat) nodes nodes' lags lags' :
  selects idx nodes nodes' lags lags' -> node_aligned nodes' lags'.
Proof.
  intros [Hn Hl]. apply Forall_forall. intros row' Hr.
  apply list_elem_of_lookup in Hr as [s Hs].
  destruct (Forall2_lookup_r _ _ _ _ _ Hl Hs) as (row & _ & Hrow).
  rewrite <- (length_mapM _ _ _ Hrow). exact (length_mapM _ _ _ Hn).
Qed.

(** *** [_resample_grid] *)

Section ResampleFacts.

Variable pyfloat : string -> option Q.
Variable contains_point : string * string -> bool.
Variables (nodes : list Grid.Node) (lags : Grid.Lags) (mindepth maxdepth : Q).

Lemma cut_volume_selects (todo idx : list nat) rn rl rn' rl' :
  Grid.cut_volume pyfloat contains_point nodes lags mindepth maxdepth
                  todo rn rl = Some (rn', rl') ->
  mapM (fun i => nodes !! i) idx = Some rn ->
  mapM (Py.column lags) idx = Some rl ->
  exists kept,
    kept `sublist_of` todo
    /\ mapM (fun i => nodes !! i) (idx ++ kept) = Some rn'
    /\ mapM (Py.column lags) (idx ++ kept) = Some rl'.
Proof.
  revert idx rn rl.
  induction todo as [|i todo IH]; intros idx rn rl; simpl.
  - intros [= <- <-] Hn Hl. exists []. rewrite app_nil_r. done.
  - destruct (nodes !! i) as [node|] eqn:Hnode; [|done]. simpl.
    destruct (pyfloat node.2) as [depth|]; [|done]. simpl.
    destruct (_ && _).
    + unfold Grid.col. destruct (Py.column lags i) as [c|] eqn:Hc; [|done]. simpl.
      intros Hcut Hn Hl.
      destruct (IH (idx ++ [i]) _ _ Hcut) as (kept & Hsub & Hn' & Hl').
      * now apply mapM_snoc.
      * now apply mapM_snoc.
      * exists (i :: kept). rewrite <- app_assoc in Hn', Hl'.
        split; [now constructor|done].
    + intros Hcut Hn Hl.
      destruct (IH idx _ _ Hcut Hn Hl) as (kept & Hsub & Hn' & Hl').
      exists kept. split; [now constructor|done].
Qed.

Lemma cut_volume_total (todo : list nat) rn rl :
  node_aligned nodes lags ->
  Forall (fun node : Grid.Node => is_Some (pyfloat node.2)) nodes ->
  Forall (fun i => i < length nodes)%nat todo ->
  is_Some (Grid.cut_volume pyfloat contains_point nodes lags mindepth maxdepth
                           todo rn rl).
Proof.
  intros Hal Hfl. revert rn rl.
  induction todo as [|i todo IH]; intros rn rl Htodo; simpl; [done|].
  apply Forall_cons in Htodo as [Hi Htodo].
  destruct (lookup_lt_is_Some_2 nodes i Hi) as [node Hnode].
  rewrite Hnode. simpl.
  destruct (Forall_lookup_1 _ _ _ _ Hfl Hnode) as [depth ->]. simpl.
  destruct (_ && _); [|now apply IH].
  destruct (column_is_Some lags i (length nodes) Hal Hi) as [c Hc].
  unfold Grid.col. rewrite Hc. simpl. now apply IH.
Qed.

(** On a grid whose lag rows are as long as the node list, with one
    row per station and depths that parse, [_resample_grid] returns,
    and what it returns is the selection of nodes and lag columns at
    one increasing list of node indices. *)
Lemma resample_grid_selects (stations : list string) (resolution : Q) :
  node_aligned nodes lags ->
  length lags = length stations ->
  Forall (fun node : Grid.Node => is_Some (pyfloat node.2)) nodes ->
  exists idx nodes' lags',
    Grid._resample_grid pyfloat contains_point stations nodes lags
                        mindepth maxdepth resolution
      = Some (stations, nodes', lags')
    /\ idx `sublist_of` seq 0 (length nodes)
    /\ selects idx nodes nodes' lags lags'.
Proof.
  intros Hal Hst Hfl. unfold Grid._resample_grid.
  destruct (cut_volume_total (seq 0 (length nodes)) [] [] Hal Hfl) as [[rn rl] Hcut].
  { apply Forall_forall. intros i Hi. apply elem_of_seq in Hi. lia. }
  rewrite Hcut. simpl.
  destruct (cut_volume_selects _ [] _ _ _ _ Hcut eq_refl eq_refl)
    as (idx & Hsub & Hn & Hl).
  simpl in Hn, Hl.
  destruct (columns_transposed lags rl idx Hl) as (lags' & Ht & Hsel).
  exists idx, rn, lags'. split; [|split; [done|split; done]].
  unfold Grid.reshape_T. rewrite decide_True.
  - rewrite <- Hst, Ht. done.
  - apply mapM_Some in Hl. apply Forall_forall. intros c Hc.
    apply list_elem_of_lookup in Hc as [m Hm].
    destruct (Forall2_lookup_r _ _ _ _ _ Hl Hm) as (i & _ & Hi).
    apply column_length in Hi. lia.
Qed.

End ResampleFacts.

(** *** [_rm_similarlags] *)

Lemma transpose_lookup (lags lagsT : Grid.Lags) (k : nat) (c : list Q) :
  Grid.transpose lags = Some lagsT ->
  lagsT !! k = Some c -> Py.column lags k = Some c.
Proof.
  unfold Grid.transpose. intros Ht Hk. apply mapM_Some in Ht.
  destruct (Forall2_lookup_r _ _ _ _ _ Ht Hk) as (k' & Hk' & Hc).
  now apply lookup_seq in Hk' as [-> _].
Qed.

Lemma transpose_length (nodes : list Grid.Node) (lags lagsT : Grid.Lags) :
  node_aligned nodes lags -> lags <> [] ->
  Grid.transpose lags = Some lagsT -> length lagsT = length nodes.
Proof.
  unfold Grid.transpose. intros Hal Hne Ht.
  apply length_mapM in Ht. rewrite length_seq in Ht. rewrite <- Ht.
  destruct lags as [|row lags]; [done|]. simpl.
  now apply Forall_cons in Hal as [? _].
Qed.

Lemma transpose_total (nodes : list Grid.Node) (lags : Grid.Lags) :
  node_aligned nodes lags -> is_Some (Grid.transpose lags).
Proof.
  intros Hal. unfold Grid.transpose. apply mapM_is_Some, Forall_forall.
  intros j Hj. apply elem_of_seq in Hj. simpl.
  apply column_is_Some with (length nodes); [done|].
  destruct lags as [|row lags]; simpl in *; [lia|].
  apply Forall_cons in Hal as [? _]. lia.
Qed.

(** The rows of [netdif] are shifted by one: row [i + 1] is the row
    computed for node [i]. *)
Lemma netdif_shifted (lagsT : list (list Q)) (n : nat) (threshold : Q)
    (nd : list (list bool)) (i : nat) :
  Grid.netdif lagsT n threshold = Some nd -> (i < n)%nat ->
  nd !! 0%nat = Grid.netdif_row lagsT n threshold 0
  /\ nd !! S i = Grid.netdif_row lagsT n threshold i.
Proof.
  unfold Grid.netdif. intros H Hi.
  destruct (Grid.netdif_row lagsT n threshold 0) as [r0|] eqn:H0; [|done].
  simpl in H. destruct (mapM _ _) as [rs|] eqn:Hrs; [|done].
  simpl in H. injection H as <-. split; [done|]. simpl.
  apply mapM_Some in Hrs.
  destruct (Forall2_lookup_l _ _ _ _ _ Hrs (lookup_seq_lt 0 n i Hi))
    as (r & Hr & Hrow).
  simpl in Hrow. congruence.
Qed.

Lemma netdif_total (lagsT : list (list Q)) (n : nat) (threshold : Q) :
  length lagsT = n -> (0 < n)%nat ->
  exists nd, Grid.netdif lagsT n threshold = Some nd
    /\ length nd = S n
    /\ Forall (fun row => length row = n) nd.
Proof.
  intros Hlen Hn.
  assert (Hrow : forall i, (i < n)%nat ->
            exists r, Grid.netdif_row lagsT n threshold i = Some r /\ length r = n).
  { intros i Hi. unfold Grid.netdif_row.
    destruct (lookup_lt_is_Some_2 lagsT i) as [li ->]; [lia|]. simpl.
    rewrite decide_True by done. eexists; split; [done|].
    now rewrite length_fmap. }
  unfold Grid.netdif.
  destruct (Hrow 0%nat Hn) as (r0 & -> & Hr0). simpl.
  destruct (mapM (Grid.netdif_row lagsT n threshold) (seq 0 n)) as [rs|] eqn:Hrs.
  - simpl. eexists; split; [done|].
    apply mapM_Some in Hrs. split.
    + simpl. apply Forall2_length in Hrs. rewrite length_seq in Hrs. lia.
    + constructor; [done|]. apply Forall_forall. intros r Hr.
      apply list_elem_of_lookup in Hr as [m Hm].
      destruct (Forall2_lookup_r _ _ _ _ _ Hrs Hm) as (i & Hi & Hri).
      apply lookup_seq in Hi as [-> Hi].
      destruct (Hrow m Hi) as (r' & Hr' & Hlen'). simpl in Hri. congruence.
  - apply mapM_None, Exists_exists in Hrs as (i & Hi & Hnone).
    apply elem_of_seq in Hi. destruct (Hrow i) as (r & Hr & _); [lia|]. congruence.
Qed.

Section SelectFacts.

Variables (nodes : list Grid.Node) (nd : list (list bool)).

Lemma select_nodes_selects (todo idx : list nat) out idx' out' :
  Grid.select_nodes nodes nd todo idx out = Some (idx', out') ->
  mapM (fun i => nodes !! i) idx = Some out ->
  exists kept,
    kept `sublist_of` todo /\ idx' = idx ++ kept
    /\ mapM (fun i => nodes !! i) idx' = Some out'.
Proof.
  revert idx out.
  induction todo as [|i todo IH]; intros idx out; simpl.
  - intros [= <- <-] Hn. exists []. now rewrite app_nil_r.
  - destruct (nd !! i) as [row|]; [|done]. simpl.
    destruct (mapM _ idx) as [picked|]; [|done]. simpl.
    destruct (forallb id picked).
    + destruct (nodes !! i) as [node|] eqn:Hnode; [|done]. simpl.
      intros Hsel Hn.
      destruct (IH _ _ Hsel) as (kept & Hsub & -> & Hn').
      * now apply mapM_snoc.
      * exists (i :: kept). rewrite <- app_assoc in *.
        split; [now constructor|done].
    + intros Hsel Hn.
      destruct (IH _ _ Hsel Hn) as (kept & Hsub & -> & Hn').
      exists kept. split; [now constructor|done].
Qed.

Lemma select_nodes_total (todo idx : list nat) out :
  Forall (fun row => length row = length nodes) nd ->
  Forall (fun i => i < length nodes /\ i < length nd)%nat todo ->
  Forall (fun k => k < length nodes)%nat idx ->
  is_Some (Grid.select_nodes nodes nd todo idx out).
Proof.
  intros Hnd. revert idx out.
  induction todo as [|i todo IH]; intros idx out Htodo Hidx; simpl; [done|].
  apply Forall_cons in Htodo as [[Hi Hi'] Htodo].
  destruct (lookup_lt_is_Some_2 nd i Hi') as [row Hrow]. rewrite Hrow. simpl.
  assert (Hlen : length row = length nodes).
  { exact (Forall_lookup_1 _ _ _ _ Hnd Hrow). }
  destruct (mapM (fun k => row !! k) idx) as [picked|] eqn:Hp.
  - simpl. destruct (forallb id picked); [|now apply IH].
    destruct (lookup_lt_is_Some_2 nodes i Hi) as [node ->]. simpl.
    apply IH; [done|]. apply Forall_app. split; [done|]. now repeat constructor.
  - apply mapM_None, Exists_exists in Hp as (k & Hk & Hnone).
    rewrite Forall_forall in Hidx. specialize (Hidx k Hk).
    apply lookup_ge_None in Hnone. lia.
Qed.

End SelectFacts.

(** Whenever [_rm_similarlags] returns, node 0 heads the retained
    indices, the retained indices are in increasing order, and the
    nodes and lags returned are the selection at those indices. *)
Lemma rm_similarlags_selects (stations : list string) (nodes : list Grid.Node)
    (lags : Grid.Lags) (threshold : Q) stations' nodes' lags' idx :
  Grid.rm_similarlags_idx stations nodes lags threshold
    = Some (stations', nodes', lags', idx) ->
  stations' = stations
  /\ (exists kept, idx = 0%nat :: kept
                   /\ kept `sublist_of` seq 1 (length nodes - 1))
  /\ selects idx nodes nodes' lags lags'.
Proof.
  unfold Grid.rm_similarlags_idx.
  destruct (Grid.transpose lags) as [lagsT|] eqn:Ht; [|done]. simpl.
  destruct (Grid.netdif _ _ _) as [nd|]; [|done]. simpl.
  destruct (nodes !! 0%nat) as [n0|] eqn:Hn0; [|done]. simpl.
  destruct (Grid.select_nodes _ _ _ _ _) as [[idx' out']|] eqn:Hsel; [|done].
  simpl.
  destruct (mapM _ idx') as [sel|] eqn:Hs; [|done]. simpl.
  destruct (Grid.transpose sel) as [lo|] eqn:Hlo; [|done]. simpl.
  intros [= <- <- <- <-].
  destruct (select_nodes_selects nodes nd _ [0%nat] [n0] _ _ Hsel)
    as (kept & Hsub & -> & Hn).
  { simpl. now rewrite Hn0. }
  split; [done|]. split; [now exists kept|]. split; [done|].
  assert (Hcols : mapM (Py.column lags) ([0%nat] ++ kept) = Some sel).
  { apply mapM_Some. apply mapM_Some in Hs.
    eapply Forall2_impl; [exact Hs|]. intros k c Hk.
    now apply transpose_lookup with lagsT. }
  destruct (columns_transposed lags sel _ Hcols) as (lags' & Hl' & HF).
  replace lo with lags'; [done|].
  unfold Grid.transpose in Hlo.
  destruct sel as [|c sel]; [apply length_mapM in Hcols; done|].
  simpl in Hlo.
  assert (length c = length lags) as Hc.
  { apply mapM_Some in Hcols. simpl in Hcols. inversion Hcols; subst.
    now apply column_length with 0%nat. }
  rewrite Hc in Hlo. congruence.
Qed.

(** It does return on a grid with at least one node and one station
    whose lag rows are as long as the node list. *)
Lemma rm_similarlags_total (stations : list string) (nodes : list Grid.Node)
    (lags : Grid.Lags) (threshold : Q) :
  node_aligned nodes lags -> nodes <> [] -> lags <> [] ->
  is_Some (Grid.rm_similarlags_idx stations nodes lags threshold).
Proof.
  intros Hal Hnodes Hlags. unfold Grid.rm_similarlags_idx.
  destruct (transpose_total nodes lags Hal) as [lagsT Ht]. rewrite Ht. simpl.
  pose proof (transpose_length nodes lags lagsT Hal Hlags Ht) as Hlen.
  assert (Hn : (0 < length nodes)%nat) by (destruct nodes; simpl; [done|lia]).
  destruct (netdif_total lagsT (length nodes) threshold Hlen Hn)
    as (nd & -> & Hndlen & Hnd). simpl.
  destruct (lookup_lt_is_Some_2 nodes 0 Hn) as [n0 Hn0]. rewrite Hn0. simpl.
  destruct (select_nodes_total nodes nd (Py.range 1 (length nodes)) [0%nat] [n0])
    as [[idx out] Hsel]; [done| |by repeat constructor|].
  { apply Forall_forall. intros i Hi. unfold Py.range in Hi.
    apply elem_of_seq in Hi. lia. }
  rewrite Hsel. simpl.
  destruct (select_nodes_selects nodes nd _ [0%nat] [n0] _ _ Hsel)
    as (kept & Hsub & -> & Hout).
  { simpl. now rewrite Hn0. }
  assert (Hidx : Forall (fun k => k < length nodes)%nat ([0%nat] ++ kept)).
  { apply Forall_app. split; [by repeat constructor|].
    apply Forall_forall. intros k Hk.
    apply (sublist_subseteq _ _ Hsub) in Hk. unfold Py.range in Hk.
    apply elem_of_seq in Hk. lia. }
  destruct (mapM (fun k => lagsT !! k) ([0%nat] ++ kept)) as [sel|] eqn:Hs.
  2:{ apply mapM_None, Exists_exists in Hs as (k & Hk & Hnone).
      rewrite Forall_forall in Hidx. specialize (Hidx k Hk).
      apply lookup_ge_None in Hnone. lia. }
  simpl.
  assert (Hcols : mapM (Py.column lags) ([0%nat] ++ kept) = Some sel).
  { apply mapM_Some. apply mapM_Some in Hs.
    eapply Forall2_impl; [exact Hs|]. intros k c Hk.
    now apply transpose_lookup with lagsT. }
  destruct (columns_transposed lags sel _ Hcols) as (lags' & Hl' & HF).
  unfold Grid.transpose.
  destruct sel as [|c sel]; [apply length_mapM in Hcols; done|].
  simpl.
  assert (length c = length lags) as ->.
  { apply mapM_Some in Hcols. simpl in Hcols. inversion Hcols; subst.
    now apply column_length with 0%nat. }
  rewrite Hl'. done.
Qed.

(** *** [_read_tt] *)

Lemma convert_length (phase phaseout : string) (tt : list Q) :
  length (Grid.convert phase phaseout tt) = length tt.
Proof.
  unfold Grid.convert. repeat destruct (decide _); now rewrite ?length_fmap.
Qed.

Lemma read_files_aligned (d : Grid.TTDir) (phase phaseout : string)
    (gridfiles : list string) allnodes alllags nodes' al' :
  Grid.read_files d phase phaseout gridfiles allnodes alllags
    = Some (nodes', Some al') ->
  (forall al, alllags = Some al -> node_aligned allnodes al) ->
  node_aligned nodes' al'.
Proof.
  revert allnodes alllags.
  induction gridfiles as [|f rest IH]; intros allnodes alllags; simpl.
  - intros [= <- ->] Hinv. now apply Hinv.
  - destruct (Grid.read_csv d f) as [grid|]; [|done]. simpl.
    destruct (Grid.py_min _) as [m|]; [|done]. simpl.
    destruct (Grid.add_lags _ _) as [al|] eqn:Hadd; [|done]. simpl.
    intros Hread _. apply (IH _ _ Hread). intros al0 [= <-].
    assert (Hlen : length ((fun t => t - m) <$>
                     Grid.convert phase phaseout (grid.*2))
                   = length (grid.*1)).
    { now rewrite !length_fmap, convert_length, length_fmap. }
    unfold node_aligned. rewrite <- Hlen.
    unfold Grid.add_lags in Hadd. destruct alllags as [al0|].
    + destruct (decide _) as [Hall|]; [|done]. injection Hadd as <-.
      apply Forall_app. split; [done|]. now repeat constructor.
    + injection Hadd as <-. now repeat constructor.
Qed.

Lemma read_tt_aligned (d : Grid.TTDir) (path : string) (stations : list string)
    (phase phaseout : string) (ps_ratio : Q) stations' nodes lags :
  Grid._read_tt d path stations phase phaseout ps_ratio
    = Some (stations', nodes, lags) ->
  node_aligned nodes lags.
Proof.
  unfold Grid._read_tt. destruct (decide _); [done|].
  destruct (Grid.read_files _ _ _ _ _ _) as [[ns [al|]]|] eqn:Hr; try done.
  simpl. intros [= _ <- <-].
  apply (read_files_aligned _ _ _ _ _ _ _ _ Hr). done.
Qed.

Example read_tt_example :
  Grid._read_tt Examples.dir "grid/" ["FOZ"; "WVZ"]%string "S" "S" 1.68
  = Some (["FOZ"; "WVZ"]%string, Examples.nodes3, Examples.lags_two_stations).
Proof. vm_compute. reflexivity. Qed.

(** C8.  The node list and every station's lag sequence have the same
    length in what [_read_tt] returns; on such a grid [_resample_grid]
    and [_rm_similarlags] return a grid of the same shape, whose nodes
    and whose lag rows are the entries of the input at one common,
    increasing list of node indices, so that column [i] of the output
    lags still belongs to output node [i]. *)
Theorem C8_node_alignment :
  (forall d path stations phase phaseout ps_ratio stations' nodes lags,
      Grid._read_tt d path stations phase phaseout ps_ratio
        = Some (stations', nodes, lags) ->
      node_aligned nodes lags)
  /\ (forall pyfloat contains_point stations nodes lags mindepth maxdepth
             resolution,
        node_aligned nodes lags -> lags <> [] ->
        length lags = length stations ->
        Forall (fun node : Grid.Node => is_Some (pyfloat node.2)) nodes ->
        exists idx nodes' lags',
          Grid._resample_grid pyfloat contains_point stations nodes lags
                              mindepth maxdepth resolution
            = Some (stations, nodes', lags')
          /\ idx `sublist_of` seq 0 (length nodes)
          /\ selects idx nodes nodes' lags lags'
          /\ node_aligned nodes' lags')
  /\ (forall stations nodes lags threshold,
        node_aligned nodes lags -> nodes <> [] -> lags <> [] ->
        exists idx nodes' lags',
          Grid._rm_similarlags stations nodes lags threshold
            = Some (stations, nodes', lags')
          /\ idx `sublist_of` seq 0 (length nodes)
          /\ selects idx nodes nodes' lags lags'
          /\ node_aligned nodes' lags').
Proof.
  split; [|split].
  - intros. eapply read_tt_aligned; eassumption.
  - intros pyfloat contains_point stations nodes lags mindepth maxdepth
           resolution Hal _ Hst Hfl.
    destruct (resample_grid_selects pyfloat contains_point nodes lags
                mindepth maxdepth stations resolution Hal Hst Hfl)
      as (idx & nodes' & lags' & Hr & Hsub & Hsel).
    exists idx, nodes', lags'. repeat split; try done; try apply Hsel.
    now apply selects_aligned with idx nodes lags.
  - intros stations nodes lags threshold Hal Hn Hl.
    destruct (rm_similarlags_total stations nodes lags threshold Hal Hn Hl)
      as [[[[st' nodes'] lags'] idx] Hr].
    destruct (rm_similarlags_selects _ _ _ _ _ _ _ _ Hr)
      as (-> & (kept & -> & Hsub) & Hsel).
    exists (0%nat :: kept), nodes', lags'.
    split; [unfold Grid._rm_similarlags; now rewrite Hr|].
    split; [|split; [done|now apply selects_aligned with (0%nat :: kept) nodes lags]].
    destruct nodes as [|n0 nodes]; [done|]. simpl in *.
    rewrite Nat.sub_0_r in Hsub. now constructor.
Qed.

Lemma C8_node_alignment_witness :
  node_aligned Examples.nodes3 Examples.lags_two_stations
  /\ (exists idx nodes' lags',
        Grid._resample_grid Examples.pyfloat Examples.inside
          ["FOZ"; "WVZ"]%string Examples.nodes3 Examples.lags_two_stations
          0 10 1
          = Some (["FOZ"; "WVZ"]%string, nodes', lags')
        /\ idx `sublist_of` seq 0 (length Examples.nodes3)
        /\ selects idx Examples.nodes3 nodes' Examples.lags_two_stations lags'
        /\ node_aligned nodes' lags')
  /\ (exists idx nodes' lags',
        Grid._rm_similarlags ["FOZ"; "WVZ"]%string Examples.nodes3
          Examples.lags_two_stations 1
          = Some (["FOZ"; "WVZ"]%string, nodes', lags')
        /\ idx `sublist_of` seq 0 (length Examples.nodes3)
        /\ selects idx Examples.nodes3 nodes' Examples.lags_two_stations lags'
        /\ node_aligned nodes' lags').
Proof.
  assert (Hal : node_aligned Examples.nodes3 Examples.lags_two_stations).
  { apply (proj1 C8_node_alignment Examples.dir "grid/"%string
             ["FOZ"; "WVZ"]%string "S"%string "S"%string 1.68
             ["FOZ"; "WVZ"]%string).
    vm_compute. reflexivity. }
  split; [exact Hal|]. split.
  - apply (proj1 (proj2 C8_node_alignment));
      [exact Hal|discriminate|reflexivity|].
    repeat constructor; vm_compute; eauto.
  - apply (proj2 (proj2 C8_node_alignment)); [exact Hal|discriminate|discriminate].
Defined.

(** C2 (code defect).  The claim asks every two retained nodes to be
    more than the threshold apart.  For one station with lags 0, 5, 0
    and threshold 1, [_rm_similarlags] retains nodes 0 and 2, whose L1
    moveout distance is 0. *)
Theorem C2_similar_nodes_both_retained :
  Grid._rm_similarlags ["FOZ"%string] Examples.nodes3
                       Examples.lags_one_station 1
  = Some (["FOZ"%string],
          [("-43.0", "170.0", "5.0"); ("-43.0", "170.2", "5.0")]%string,
          [[0; 0]])
  /\ snd <$> Grid.rm_similarlags_idx ["FOZ"%string] Examples.nodes3
                                     Examples.lags_one_station 1
     = Some [0; 2]%nat
  /\ (exists d, Grid.l1_distance Examples.lags_one_station 0 2 = Some d
                 /\ ~ 1 < d).
Proof.
  split; [vm_compute; reflexivity|]. split; [vm_compute; reflexivity|].
  exists 0. split; [vm_compute; reflexivity|]. intros H; discriminate H.
Qed.


(** ** Energy stacking *)

(** *** The lag shift *)

Lemma square_zero : Stack.square 0 = 0.
Proof. reflexivity. Qed.

Lemma lagged_eq (tr_data : list Q) (lag rate : Q) :
  (0 <= Stack.py_round (lag * rate))%Z ->
  let k := Z.to_nat (Stack.py_round (lag * rate)) in
  Stack.lagged tr_data lag rate
  = Some (drop k (Stack.square <$> tr_data)
          ++ replicate (k `min` length tr_data) 0).
Proof.
  intros Hk k. unfold Stack.lagged, Stack.zeros.
  rewrite decide_False by lia. simpl. fold k.
  rewrite length_replicate, fmap_app, fmap_replicate, square_zero.
  rewrite drop_app, length_fmap, drop_replicate.
  do 3 f_equal. lia.
Qed.

Lemma lagged_negative (tr_data : list Q) (lag rate : Q) :
  (Stack.py_round (lag * rate) < 0)%Z -> Stack.lagged tr_data lag rate = None.
Proof.
  intros Hk. unfold Stack.lagged, Stack.zeros. now rewrite decide_True.
Qed.

(** C3 (amended).  For a lag of [k = round(L * r) >= 0] samples the
    lagged envelope is the squared series with its first [k] samples
    dropped and zeros appended at the end, of the original length: the
    value at sample [t] is the squared amplitude of sample [t + k],
    the arrival [L] seconds after [t], and zero once [t + k] is past
    the end. *)
Theorem C3_lagged_energy_advances (tr_data : list Q) (lag rate : Q) :
  (0 <= Stack.py_round (lag * rate))%Z ->
  let k := Z.to_nat (Stack.py_round (lag * rate)) in
  exists le,
    Stack.lagged tr_data lag rate = Some le
    /\ le = drop k (Stack.square <$> tr_data)
            ++ replicate (k `min` length tr_data) 0
    /\ length le = length tr_data
    /\ (forall t, (t < length tr_data)%nat ->
          le !! t = Some (from_option Stack.square 0 (tr_data !! (t + k)%nat))).
Proof.
  intros Hk k. eexists. split; [now apply lagged_eq|]. fold k.
  split; [done|]. split.
  - rewrite length_app, length_drop, length_fmap, length_replicate. lia.
  - intros t Ht. destruct (decide (t + k < length tr_data)%nat) as [Hin|Hout].
    + rewrite lookup_app_l by (rewrite length_drop, length_fmap; lia).
      rewrite lookup_drop, list_lookup_fmap, (Nat.add_comm k t).
      destruct (lookup_lt_is_Some_2 tr_data (t + k) Hin) as [x ->]. done.
    + rewrite lookup_app_r by (rewrite length_drop, length_fmap; lia).
      rewrite length_drop, length_fmap.
      rewrite (lookup_ge_None_2 tr_data (t + k)) by lia. simpl.
      apply lookup_replicate_2. lia.
Qed.

Lemma C3_lagged_energy_advances_witness :
  exists le,
    Stack.lagged [1; 2; 3] 1 1 = Some le
    /\ le = [4; 9; 0]
    /\ length le = 3%nat
    /\ (forall t, (t < 3)%nat ->
          le !! t = Some (from_option Stack.square 0 ([1; 2; 3] !! (t + 1)%nat))).
Proof.
  apply (C3_lagged_energy_advances [1; 2; 3] 1 1). vm_compute. discriminate.
Defined.

(** C3 as stated fails: with a lag of one sample the series 1, 2, 3
    gives the envelope 4, 9, 0, not the squared series padded at the
    start, 0, 1, 4. *)
Lemma C3_counterexample :
  Stack.lagged [1; 2; 3] 1 1 = Some [4; 9; 0]
  /\ Stack.padded_at_start [1; 2; 3] (Z.to_nat (Stack.py_round (1 * 1)))
     = [0; 1; 4]
  /\ Stack.lagged [1; 2; 3] 1 1
     <> Some (Stack.padded_at_start [1; 2; 3]
                (Z.to_nat (Stack.py_round (1 * 1)))).
Proof. repeat split; vm_compute; congruence. Qed.

(** *** Matching traces to stations *)

Lemma filter_fmap_S (P : nat -> Prop) `{!forall k, Decision (P k)} (l : list nat) :
  filter P (S <$> l) = S <$> filter (fun k => P (S k)) l.
Proof.
  induction l as [|k l IH]; [done|]. rewrite fmap_cons, !filter_cons, IH.
  now destruct (decide (P (S k))).
Qed.

Lemma matches_cons (s : string) (stations : list string) (tr : Stack.Trace) :
  Stack.matches (s :: stations) tr
  = (if decide (s = Stack.station tr) then [0%nat] else [])
    ++ (S <$> Stack.matches stations tr).
Proof.
  unfold Stack.matches. cbn [length seq]. rewrite filter_cons.
  rewrite <- fmap_S_seq, filter_fmap_S. cbn [lookup list_lookup].
  destruct (decide (s = Stack.station tr)) as [->|Hne].
  - now rewrite decide_True.
  - rewrite decide_False by congruence. done.
Qed.

Lemma matches_head (stations : list string) (tr : Stack.Trace) :
  head (Stack.matches stations tr) = first_match stations tr.
Proof.
  unfold first_match.
  induction stations as [|s stations IH]; [done|].
  rewrite matches_cons. cbn [list_find].
  destruct (decide (s = Stack.station tr)); [done|].
  cbn [app]. rewrite <- option_fmap_compose.
  destruct (Stack.matches stations tr) as [|j js]; cbn in *.
  - destruct (list_find _ stations); [done|done].
  - destruct (list_find _ stations) as [[k x]|]; cbn in *; congruence.
Qed.

Lemma matches_length (stations : list string) (tr : Stack.Trace) :
  length (Stack.matches stations tr) = occurrences stations tr.
Proof.
  unfold occurrences.
  induction stations as [|s stations IH]; [done|].
  rewrite matches_cons, filter_cons, length_app, length_fmap, IH.
  destruct (decide (s = Stack.station tr)); done.
Qed.

Lemma occurrences_zero (stations : list string) (tr : Stack.Trace) :
  occurrences stations tr = 0%nat <-> Stack.station tr ∉ stations.
Proof.
  unfold occurrences. rewrite length_zero_iff_nil. split.
  - intros Hnil Hin.
    assert (Stack.station tr ∈ filter (fun s => s = Stack.station tr) stations)
      as Hf by (apply list_elem_of_filter; done).
    rewrite Hnil in Hf. now apply not_elem_of_nil in Hf.
  - intros Hnot. induction stations as [|s stations IH]; [done|].
    rewrite filter_cons. apply not_elem_of_cons in Hnot as [Hne Hnot].
    rewrite decide_False by congruence. now apply IH.
Qed.

Lemma first_match_None (stations : list string) (tr : Stack.Trace) :
  first_match stations tr = None <-> Stack.station tr ∉ stations.
Proof.
  rewrite <- matches_head, <- occurrences_zero, <- matches_length.
  destruct (Stack.matches stations tr); cbn; split; congruence.
Qed.

Section StackFacts.

Variable sqrt : Q -> Q.
Variable clip_level : Q.
Variables (stations : list string) (lags : list Q).

(** What one iteration of the loop does to the local variables. *)
Lemma body_spec (st : Stack.Locals) (tr : Stack.Trace) :
  Stack.body sqrt clip_level stations lags st tr
  = match first_match stations tr with
    | None =>
        Some {| Stack.energy := Stack.energy st;
                Stack.lagged_energy := Stack.lagged_energy st;
                Stack.warned := Stack.warned st ++ trace_warnings stations tr |}
    | Some _ =>
        c ← clipped_envelope clip_level stations lags tr;
        e ← Stack.stack_row (Stack.energy st) (normalise sqrt c);
        Some {| Stack.energy := Some e;
                Stack.lagged_energy := Some c;
                Stack.warned := Stack.warned st ++ trace_warnings stations tr |}
    end.
Proof.
  unfold Stack.body, clipped_envelope, trace_warnings.
  rewrite <- matches_head, <- matches_length.
  destruct (Stack.matches stations tr) as [|j0 [|j1 js]]; cbn [length head].
  - rewrite decide_False by lia. done.
  - rewrite decide_False by lia. cbn [mbind option_bind].
    destruct (lags !! j0) as [lag|]; [|done]. cbn.
    destruct (Stack.lagged _ _ _) as [le|]; [|done]. cbn.
    now rewrite !app_nil_r.
  - rewrite decide_True by lia. cbn [take mbind option_bind].
    destruct (lags !! j0) as [lag|]; [|done]. cbn.
    destruct (Stack.lagged _ _ _) as [le|]; [|done]. done.
Qed.

Lemma matched_cons (tr : Stack.Trace) (stream : Stack.Stream) :
  matched stations (tr :: stream)
  = if first_match stations tr is Some _
    then tr :: matched stations stream else matched stations stream.
Proof.
  unfold matched. rewrite filter_cons.
  destruct (first_match stations tr) eqn:Hf.
  - rewrite decide_True; [done|].
    destruct (decide (Stack.station tr ∈ stations)) as [|Hn]; [done|].
    apply first_match_None in Hn. congruence.
  - apply first_match_None in Hf. now rewrite decide_False.
Qed.

(** The loop as a whole: the clipped envelopes of the matched traces,
    normalised and stacked in stream order; every trace leaves its
    warnings. *)
Lemma loop_spec (stream : Stack.Stream) (st : Stack.Locals) :
  Stack.loop sqrt clip_level stations lags stream st
  = (cs ← mapM (clipped_envelope clip_level stations lags)
               (matched stations stream);
     e ← stack_rows (Stack.energy st) (normalise sqrt <$> cs);
     Some {| Stack.energy := e;
             Stack.lagged_energy :=
               from_option Some (Stack.lagged_energy st) (last cs);
             Stack.warned :=
               Stack.warned st ++ (stream ≫= trace_warnings stations) |}).
Proof.
  revert st. induction stream as [|tr stream IH]; intros st.
  - cbn. rewrite app_nil_r. now destruct st.
  - cbn [Stack.loop]. rewrite body_spec, matched_cons.
    destruct (first_match stations tr) as [j0|].
    + cbn [mapM]. 
      destruct (clipped_envelope clip_level stations lags tr) as [c|]; [|done].
      cbn [mbind option_bind].
      destruct (Stack.stack_row (Stack.energy st) (normalise sqrt c))
        as [e|] eqn:He.
      * cbn [mbind option_bind]. rewrite IH.
        cbn [Stack.energy Stack.lagged_energy Stack.warned].
        destruct (mapM _ (matched stations stream)) as [cs|]; [|done].
        cbn [mbind option_bind mret option_ret fmap list_fmap stack_rows].
        rewrite He. cbn [mbind option_bind].
        destruct (stack_rows (Some e) _) as [e'|]; [|done].
        cbn. rewrite <- app_assoc. do 2 f_equal.
        rewrite last_cons. now destruct (last cs).
      * cbn [mbind option_bind].
        destruct (mapM _ (matched stations stream)) as [cs|]; [|done].
        cbn [mbind option_bind mret option_ret fmap list_fmap stack_rows].
        now rewrite He.
    + cbn [mbind option_bind]. rewrite IH.
      cbn [Stack.energy Stack.lagged_energy Stack.warned].
      destruct (mapM _ (matched stations stream)) as [cs|]; [|done].
      cbn [mbind option_bind].
      destruct (stack_rows _ _) as [e'|]; [|done].
      cbn. now rewrite <- app_assoc.
Qed.

End StackFacts.

(** *** Stacking and summing rows *)

Lemma stack_rows_Some (e rows : list (list Q)) (n : nat) :
  e <> [] -> Forall (fun r => length r = n) e ->
  stack_rows (Some e) rows
  = if decide (Forall (fun r => length r = n) rows)
    then Some (Some (e ++ rows)) else None.
Proof.
  revert e. induction rows as [|r rows IH]; intros e Hne He; cbn.
  - rewrite decide_True by constructor. now rewrite app_nil_r.
  - destruct (decide (length r = n)) as [Hr|Hr].
    + rewrite decide_True by (now rewrite Hr). cbn.
      rewrite IH.
      * destruct (decide (Forall _ rows)) as [Hrows|Hrows].
        -- rewrite decide_True by (now constructor). now rewrite <- app_assoc.
        -- rewrite decide_False; [done|]. intros H. now apply Forall_cons in H as [_ ?].
      * now destruct e.
      * apply Forall_app. split; [done|]. now repeat constructor.
    + rewrite decide_False.
      * cbn. rewrite decide_False; [done|]. intros H. now apply Forall_cons in H as [? _].
      * intros H. destruct e as [|x e]; [done|].
        apply Forall_cons in H as [Hx _]. apply Forall_cons in He as [Hx' _]. lia.
Qed.

Lemma stack_rows_None (rows : list (list Q)) :
  stack_rows None rows
  = match rows with
    | [] => Some None
    | r :: rows' =>
        if decide (Forall (fun x => length x = length r) rows')
        then Some (Some (r :: rows')) else None
    end.
Proof.
  destruct rows as [|r rows]; [done|]. cbn.
  rewrite (stack_rows_Some [r] rows (length r)); [done|done|].
  now repeat constructor.
Qed.

Lemma sum_axis0_acc (rows : list (list Q)) (acc : list Q) (n : nat) :
  length acc = n -> Forall (fun r => length r = n) rows ->
  mapM (fun j => a ← acc !! j; c ← Py.column rows j; Some (foldl Qplus a c))
       (seq 0 n)
  = Some (foldl (zip_with Qplus) acc rows).
Proof.
  revert acc. induction rows as [|r rows IH]; intros acc Hacc Hrows.
  - cbn [foldl]. rewrite <- (mapM_lookup_seq acc), Hacc.
    apply Forall_mapM_ext, Forall_forall. intros j _. cbn.
    now destruct (acc !! j).
  - apply Forall_cons in Hrows as [Hr Hrows]. cbn [foldl].
    rewrite <- (IH (zip_with Qplus acc r));
      [|rewrite length_zip_with; lia|done].
    apply Forall_mapM_ext, Forall_forall. intros j Hj.
    apply elem_of_seq in Hj.
    destruct (lookup_lt_is_Some_2 acc j) as [a Ha]; [lia|].
    destruct (lookup_lt_is_Some_2 r j) as [x Hx]; [lia|].
    rewrite (proj2 (lookup_zip_with_Some Qplus acc r j (a + x)))
      by (exists a, x; done).
    rewrite Ha. unfold Py.column. cbn [mapM mbind option_bind].
    rewrite Hx. cbn [mbind option_bind].
    now destruct (mapM _ rows).
Qed.

Lemma sum_axis0_elementwise (rows : list (list Q)) (n : nat) :
  Forall (fun r => length r = n) rows ->
  Stack.sum_axis0 rows n = Some (elementwise_sum rows n).
Proof.
  intros Hrows. unfold Stack.sum_axis0, elementwise_sum.
  rewrite <- (sum_axis0_acc rows (replicate n 0) n);
    [|now rewrite length_replicate|done].
  apply Forall_mapM_ext, Forall_forall. intros j Hj.
  apply elem_of_seq in Hj.
  rewrite lookup_replicate_2 by lia. cbn.
  now destruct (Py.column rows j).
Qed.

Section NodeLoopFacts.

Variable sqrt : Q -> Q.
Variable clip_level : Q.
Variables (stations : list string) (lags : list Q).

Lemma mapM_envelope (stream : Stack.Stream) :
  mapM (envelope sqrt clip_level stations lags) stream
  = fmap (normalise sqrt)
      <$> mapM (clipped_envelope clip_level stations lags) stream.
Proof.
  induction stream as [|tr stream IH]; [done|]. cbn [mapM].
  rewrite IH. unfold envelope at 1.
  destruct (clipped_envelope clip_level stations lags tr) as [c|]; [|done].
  clear IH.
  destruct (mapM (clipped_envelope clip_level stations lags) stream) as [cs|];
    reflexivity.
Qed.

Lemma last_row_length (c : list Q) (cs : list (list Q)) (cl : list Q) :
  Forall (fun x => length x = length (normalise sqrt c))
         (normalise sqrt <$> cs) ->
  last (c :: cs) = Some cl -> length cl = length (normalise sqrt c).
Proof.
  intros Hall Hlast. unfold normalise at 1. rewrite length_fmap.
  rewrite last_cons in Hlast. destruct (last cs) as [x|] eqn:Hx.
  - injection Hlast as ->. apply last_Some_elem_of in Hx.
    rewrite Forall_fmap, Forall_forall in Hall. specialize (Hall cl Hx).
    cbn in Hall. unfold normalise in Hall. now rewrite !length_fmap in Hall.
  - now injection Hlast as ->.
Qed.

(** [_node_loop] in terms of the envelopes of the matched traces. *)
Lemma node_loop_eq (stream : Stack.Stream) (i : nat) :
  Stack._node_loop sqrt clip_level stations lags stream i
  = (rows ← mapM (envelope sqrt clip_level stations lags)
                 (matched stations stream);
     match rows with
     | [] => None
     | r :: rows' =>
         if decide (Forall (fun x => length x = length r) rows')
         then Some (i, elementwise_sum rows (length r),
                    stream ≫= trace_warnings stations)
         else None
     end).
Proof.
  unfold Stack._node_loop. rewrite loop_spec, mapM_envelope.
  cbn [Stack.energy Stack.lagged_energy Stack.warned].
  destruct (mapM _ (matched stations stream)) as [cs|]; [|done].
  cbn [mbind option_bind fmap option_fmap option_map].
  rewrite stack_rows_None.
  destruct cs as [|c cs]; [done|].
  rewrite !fmap_cons. cbn beta iota.
  fold (normalise sqrt). fold (normalise sqrt c).
  destruct (decide (Forall _ (normalise sqrt <$> cs))) as [Hall|]; [|done].
  cbn [mbind option_bind Stack.energy Stack.lagged_energy Stack.warned].
  destruct (last (c :: cs)) as [cl|] eqn:Hlast.
  2:{ rewrite last_cons in Hlast. now destruct (last cs). }
  cbn [from_option mbind option_bind].
  rewrite (last_row_length _ _ _ Hall Hlast).
  rewrite sum_axis0_elementwise; [done|].
  constructor; done.
Qed.

Lemma matched_idemp (stream : Stack.Stream) :
  matched stations (matched stations stream) = matched stations stream.
Proof.
  unfold matched. induction stream as [|tr stream IH]; [done|].
  rewrite filter_cons. destruct (decide _) as [Hin|]; [|done].
  rewrite filter_cons, decide_True by done. now rewrite IH.
Qed.

End NodeLoopFacts.

(** [np.clip] keeps a value that lies between the bounds and moves any
    other value onto the nearer bound. *)
Lemma clip_spec (l : list Q) (lo hi : Q) :
  lo <= hi ->
  Forall2 (fun x y => lo <= y <= hi
                      /\ (lo <= x <= hi -> y == x)
                      /\ (x < lo -> y == lo) /\ (hi < x -> y == hi))
          l (Stack.clip l lo hi).
Proof.
  intros Hlh. unfold Stack.clip. apply Forall2_fmap_r, Forall_Forall2_diag.
  apply Forall_forall. intros x _. unfold compose.
  pose proof (Q.max_spec x lo) as Hmax.
  pose proof (Q.min_spec hi (Qmax x lo)) as Hmin.
  set (m := Qmax x lo) in *. set (y := Qmin hi m) in *. clearbody y m.
  destruct Hmax as [[? ?]|[? ?]], Hmin as [[? ?]|[? ?]];
    repeat split; intros; lra.
Qed.

(** C6 (amended).  The loop runs over the traces of the waveform set.
    A trace whose station is not in the station list is skipped with
    the warning "No station match", and the loop goes on.  A trace
    whose station is listed is stacked with the lag of the first entry
    that names it, with the warning "Too many stations" when several
    entries name it.  So the warnings of a run are those of its traces
    in order, and the energy is that of the listed traces alone, every
    channel of a listed station included. *)
Theorem C6_trace_matching (sqrt : Q -> Q) (clip_level : Q)
    (stations : list string) (lags : list Q) :
  (forall st tr,
      Stack.body sqrt clip_level stations lags st tr
      = match first_match stations tr with
        | None =>
            Some {| Stack.energy := Stack.energy st;
                    Stack.lagged_energy := Stack.lagged_energy st;
                    Stack.warned :=
                      Stack.warned st ++ ["No station match"%string] |}
        | Some j0 =>
            lag ← lags !! j0;
            le ← Stack.lagged (Stack.data tr) lag (Stack.sampling_rate tr);
            let c := Stack.clipped clip_level le in
            e ← Stack.stack_row (Stack.energy st) (Stack.normalised sqrt c);
            Some {| Stack.energy := Some e;
                    Stack.lagged_energy := Some c;
                    Stack.warned :=
                      Stack.warned st ++
                      (if decide (1 < occurrences stations tr)%nat
                       then ["Too many stations"%string] else []) |}
        end)
  /\ (forall stream i r,
        Stack._node_loop sqrt clip_level stations lags stream i = Some r ->
        r.2 = stream ≫= trace_warnings stations)
  /\ (forall stream i,
        fst <$> Stack._node_loop sqrt clip_level stations lags stream i
        = fst <$> Stack._node_loop sqrt clip_level stations lags
                    (matched stations stream) i).
Proof.
  split; [|split].
  - intros st tr. rewrite body_spec. unfold trace_warnings, clipped_envelope.
    destruct (first_match stations tr) as [j0|] eqn:Hf.
    + assert (occurrences stations tr <> 0%nat) as Hocc.
      { rewrite occurrences_zero. intros Hn.
        apply first_match_None in Hn. congruence. }
      cbn [mbind option_bind].
      destruct (lags !! j0) as [lag|]; [|done]. cbn [mbind option_bind].
      destruct (Stack.lagged _ _ _) as [le|]; [|done]. cbn [mbind option_bind].
      destruct (occurrences stations tr) as [|[|n]]; [done| |].
      * rewrite decide_False by lia. done.
      * rewrite decide_True by lia. done.
    + apply first_match_None, occurrences_zero in Hf. now rewrite Hf.
  - intros stream i r. rewrite node_loop_eq.
    destruct (mapM _ _) as [[|row rows]|]; try done. cbn.
    destruct (decide _); [|done]. now intros [= <-].
  - intros stream i. rewrite !node_loop_eq, matched_idemp.
    destruct (mapM _ _) as [[|row rows]|]; try done. cbn.
    destruct (decide _); done.
Qed.

Lemma C6_trace_matching_witness :
  Stack._node_loop Examples.sqrt_exact 100 ["FOZ"; "WVZ"; "FOZ"]%string [1; 1; 2]
    [Examples.foz_z; Examples.foz_n; Examples.xyz_z] 7
  = Some (7%nat, [0 # 64; 128 # 64; 128 # 64; 0 # 64],
          ["Too many stations"; "Too many stations"; "No station match"]%string)
  /\ ["Too many stations"; "Too many stations"; "No station match"]%string
     = [Examples.foz_z; Examples.foz_n; Examples.xyz_z]
         ≫= trace_warnings ["FOZ"; "WVZ"; "FOZ"]%string.
Proof.
  assert (H : Stack._node_loop Examples.sqrt_exact 100
                ["FOZ"; "WVZ"; "FOZ"]%string [1; 1; 2]
                [Examples.foz_z; Examples.foz_n; Examples.xyz_z] 7
              = Some (7%nat, [0 # 64; 128 # 64; 128 # 64; 0 # 64],
                      ["Too many stations"; "Too many stations";
                       "No station match"]%string))
    by (vm_compute; reflexivity).
  split; [exact H|].
  exact (proj1 (proj2 (C6_trace_matching Examples.sqrt_exact 100
                         ["FOZ"; "WVZ"; "FOZ"]%string [1; 1; 2])) _ _ _ H).
Defined.

(** C6 as stated fails.  With stations FOZ and WVZ listed and two
    channels of FOZ in the waveform set, no warning is emitted, neither
    for the two channels of FOZ nor for the absence of WVZ, and the
    second channel of FOZ contributes: the energy differs from that of
    the first channel alone. *)
Lemma C6_counterexample :
  Stack._node_loop Examples.sqrt_exact 100 ["FOZ"; "WVZ"]%string [1; 1]
    [Examples.foz_z; Examples.foz_n] 0
  = Some (0%nat, [0 # 64; 128 # 64; 128 # 64; 0 # 64], [])
  /\ Stack._node_loop Examples.sqrt_exact 100 ["FOZ"; "WVZ"]%string [1; 1]
       [Examples.foz_z] 0
     = Some (0%nat, [0 # 4; 8 # 4; 0 # 4; 0 # 4], [])
  /\ ~ (128 # 64) == (0 # 4).
Proof. repeat split; vm_compute; congruence. Qed.

Lemma sum_nonneg (l : list Q) (c : Q) :
  0 <= c -> Forall (fun x => 0 <= x) l -> 0 <= foldl Qplus c l.
Proof.
  revert c. induction l as [|x l IH]; intros c Hc Hl; [done|].
  apply Forall_cons in Hl as [Hx Hl]. cbn. apply IH; [|done].
  apply Qle_trans with (0 + 0); [apply Qle_refl|now apply Qplus_le_compat].
Qed.

Lemma lagged_Some (tr_data : list Q) (lag rate : Q) (le : list Q) :
  Stack.lagged tr_data lag rate = Some le ->
  (0 <= Stack.py_round (lag * rate))%Z
  /\ le = drop (Z.to_nat (Stack.py_round (lag * rate)))
               (Stack.square <$> tr_data)
          ++ replicate (Z.to_nat (Stack.py_round (lag * rate))
                        `min` length tr_data) 0.
Proof.
  intros H. destruct (Z_lt_le_dec (Stack.py_round (lag * rate)) 0) as [Hn|Hp].
  - now rewrite lagged_negative in H.
  - split; [done|]. rewrite lagged_eq in H by done. now injection H.
Qed.

Lemma lagged_length (tr_data : list Q) (lag rate : Q) (le : list Q) :
  Stack.lagged tr_data lag rate = Some le -> length le = length tr_data.
Proof.
  intros H. apply lagged_Some in H as [_ ->].
  rewrite length_app, length_drop, length_fmap, length_replicate. lia.
Qed.

Lemma square_nonneg (x : Q) : 0 <= Stack.square x.
Proof. unfold Stack.square. nra. Qed.

Lemma lagged_nonneg (tr_data : list Q) (lag rate : Q) (le : list Q) :
  Stack.lagged tr_data lag rate = Some le -> Forall (fun y => 0 <= y) le.
Proof.
  intros H. apply lagged_Some in H as [_ ->]. apply Forall_app. split.
  - apply Forall_drop. rewrite Forall_fmap. apply Forall_forall.
    intros x _. apply square_nonneg.
  - apply Forall_replicate. apply Qle_refl.
Qed.

Lemma elementwise_sum_length (rows : list (list Q)) (n : nat) :
  Forall (fun r => length r = n) rows -> length (elementwise_sum rows n) = n.
Proof.
  unfold elementwise_sum. intros H.
  assert (Hg : forall acc, length acc = n ->
            length (foldl (zip_with Qplus) acc rows) = n).
  { induction H as [|r rows Hr _ IH]; intros acc Hacc; [done|].
    cbn. apply IH. rewrite length_zip_with. lia. }
  apply Hg. apply length_replicate.
Qed.

Lemma mean_nonneg (l : list Q) :
  Forall (fun y => 0 <= y) l -> 0 <= Stack.mean l.
Proof.
  intros Hl. unfold Stack.mean, Grid.sum.
  assert (Hs : 0 <= foldl Qplus 0 l) by (apply sum_nonneg; [apply Qle_refl|done]).
  unfold Qdiv. apply Qmult_le_0_compat; [done|].
  apply Qinv_le_0_compat. change 0 with (inject_Z 0).
  rewrite <- Zle_Qle. lia.
Qed.

(** For a ceiling that is not negative, [np.clip] with floor 0 is the
    specification's clip. *)
Lemma clipped_above_spec (le : list Q) (hi : Q) :
  0 <= hi ->
  Forall2 (fun x y => y == clipped_above hi x) le (Stack.clip le 0 hi).
Proof.
  intros Hhi. eapply Forall2_impl; [apply clip_spec; exact Hhi|].
  intros x y (_ & Hin & Hlo & Hup). unfold clipped_above.
  destruct (Qlt_le_dec x 0) as [Hx|Hx]; [now apply Hlo|].
  destruct (Qlt_le_dec hi x) as [Hx'|Hx']; [now apply Hup|].
  apply Hin. now split.
Qed.

Lemma mapM_fmap_inner {A B C : Type} (f : A -> option B) (g : B -> C)
    (l : list A) :
  mapM (fun x => y ← f x; Some (g y)) l = fmap g <$> mapM f l.
Proof.
  induction l as [|x l IH]; [done|]. cbn [mapM]. rewrite IH.
  destruct (f x) as [y|]; [|done]. cbn.
  destruct (mapM f l); reflexivity.
Qed.

Lemma clipped_envelope_eq (clip_level : Q) (stations : list string)
    (lags : list Q) (tr : Stack.Trace) :
  clipped_envelope clip_level stations lags tr
  = (le ← lagged_envelope stations lags tr;
     Some (Stack.clipped clip_level le)).
Proof.
  unfold clipped_envelope, lagged_envelope, Stack.clipped.
  destruct (first_match stations tr) as [j0|]; [|done]. cbn.
  destruct (lags !! j0) as [lag|]; [|done]. reflexivity.
Qed.

Lemma lagged_envelope_nonneg (stations : list string) (lags : list Q)
    (tr : Stack.Trace) (le : list Q) :
  lagged_envelope stations lags tr = Some le -> Forall (fun y => 0 <= y) le.
Proof.
  unfold lagged_envelope. intros H.
  apply bind_Some in H as (j0 & _ & H). apply bind_Some in H as (lag & _ & H).
  now apply lagged_nonneg in H.
Qed.

(** C7 (amended).  The energy [_node_loop] returns is a sum over the
    matched traces, one envelope for every channel of a listed station.
    For a clip level that is not negative, the envelope of a trace is
    its lagged energy clipped above at [clip_level * mean], with floor
    0, and divided by the root of the mean square of the clipped
    values, and the energy is the elementwise sum of these envelopes.
    The division is that of the program when no clipped envelope has a
    zero root mean square, which is assumed. *)
Theorem C7_energy_is_sum_over_matched_traces (sqrt : Q -> Q)
    (clip_level : Q) (stations : list string) (lags : list Q)
    (stream : Stack.Stream) (i i' : nat) (total : list Q) (ws : list string) :
  0 <= clip_level ->
  (forall tr le,
     tr ∈ matched stations stream ->
     lagged_envelope stations lags tr = Some le ->
     ~ Stack.rms sqrt (Stack.clipped clip_level le) == 0) ->
  Stack._node_loop sqrt clip_level stations lags stream i
    = Some (i', total, ws) ->
  exists les cs : list (list Q),
    mapM (lagged_envelope stations lags) (matched stations stream) = Some les
    /\ les <> []
    /\ Forall2 (fun le c =>
                  Forall2 (fun x y =>
                             y == clipped_above (clip_level * Stack.mean le) x)
                          le c)
               les cs
    /\ Forall (fun c => length c = length total
                        /\ ~ sqrt (Stack.mean (Stack.square <$> c)) == 0) cs
    /\ total = elementwise_sum (normalise sqrt <$> cs) (length total).
Proof.
  intros Hclip Hrms H. rewrite node_loop_eq in H.
  apply bind_Some in H as (rows & Hrows & H).
  rewrite mapM_envelope in Hrows. apply fmap_Some in Hrows as (cs & Hcs & ->).
  erewrite mapM_ext in Hcs by (intros tr; apply clipped_envelope_eq).
  rewrite mapM_fmap_inner in Hcs. apply fmap_Some in Hcs as (les & Hles & ->).
  destruct les as [|le0 les'] eqn:Hl; [done|]. rewrite <- Hl in *.
  assert (Hrow : forall le, le ∈ les ->
            exists tr, tr ∈ matched stations stream
                       /\ lagged_envelope stations lags tr = Some le).
  { intros le Hle. apply list_elem_of_lookup in Hle as [k Hk].
    apply mapM_Some in Hles.
    destruct (Forall2_lookup_r _ _ _ _ _ Hles Hk) as (tr & Htr & Hle).
    exists tr. split; [|done]. apply list_elem_of_lookup. by eexists. }
  set (rows := normalise sqrt <$> (Stack.clipped clip_level <$> les)) in *.
  assert (Hrows : exists r rows', rows = r :: rows').
  { unfold rows. rewrite Hl. cbn. by eexists _, _. }
  destruct Hrows as (r & rows' & Hr). rewrite Hr in H.
  cbn -[elementwise_sum] in H.
  destruct (decide _) as [Hall|]; [|done]. injection H as _ Htot _.
  rewrite <- Hr in Htot.
  assert (Hlen : length total = length r).
  { rewrite <- Htot. apply elementwise_sum_length. rewrite Hr.
    constructor; done. }
  exists les, (Stack.clipped clip_level <$> les).
  split; [done|]. split; [by rewrite Hl|]. split; [|split].
  - apply Forall2_fmap_r, Forall_Forall2_diag, Forall_forall.
    intros le Hle. destruct (Hrow le Hle) as (tr & _ & Htr).
    apply clipped_above_spec. apply Qmult_le_0_compat; [done|].
    apply mean_nonneg. now apply lagged_envelope_nonneg in Htr.
  - rewrite Forall_fmap. apply Forall_forall. intros le Hle.
    unfold compose. cbv beta.
    destruct (Hrow le Hle) as (tr & Htr & Hle'). split.
    + rewrite Hlen.
      assert (Hin : normalise sqrt (Stack.clipped clip_level le) ∈ rows).
      { unfold rows. apply list_elem_of_fmap. eexists. split; [done|].
        apply list_elem_of_fmap. by eexists. }
      rewrite Hr in Hin. apply elem_of_cons in Hin as [Heq|Hin].
      * rewrite <- Heq. unfold normalise. now rewrite length_fmap.
      * rewrite Forall_forall in Hall. rewrite <- (Hall _ Hin).
        unfold normalise. now rewrite length_fmap.
    + exact (Hrms tr le Htr Hle').
  - rewrite Hlen. now symmetry.
Qed.

Lemma C7_energy_is_sum_over_matched_traces_witness :
  exists les cs : list (list Q),
    mapM (lagged_envelope ["FOZ"; "WVZ"]%string [1; 1])
         (matched ["FOZ"; "WVZ"]%string
                  [Examples.foz_z; Examples.xyz_z; Examples.foz_n]) = Some les
    /\ les <> []
    /\ Forall2 (fun le c =>
                  Forall2 (fun x y =>
                             y == clipped_above ((1 # 2) * Stack.mean le) x)
                          le c)
               les cs
    /\ Forall (fun c =>
                 length c = length [0 # 64; 1024 # 512; 1024 # 512; 0 # 64]
                 /\ ~ Examples.sqrt_exact (Stack.mean (Stack.square <$> c)) == 0)
              cs
    /\ [0 # 64; 1024 # 512; 1024 # 512; 0 # 64]
       = elementwise_sum (normalise Examples.sqrt_exact <$> cs)
           (length [0 # 64; 1024 # 512; 1024 # 512; 0 # 64]).
Proof.
  apply (C7_energy_is_sum_over_matched_traces Examples.sqrt_exact (1 # 2)
           ["FOZ"; "WVZ"]%string [1; 1]
           [Examples.foz_z; Examples.xyz_z; Examples.foz_n] 7 7
           [0 # 64; 1024 # 512; 1024 # 512; 0 # 64]
           ["No station match"%string]).
  - vm_compute. discriminate.
  - intros tr le Htr Hle. unfold matched in Htr.
    apply list_elem_of_filter in Htr as [_ Htr].
    repeat (apply elem_of_cons in Htr as [->|Htr]);
      [..|by apply elem_of_nil in Htr];
      vm_compute in Hle; try discriminate Hle;
      injection Hle as <-; vm_compute; discriminate.
  - vm_compute. reflexivity.
Defined.

(** C7 as stated fails.  With station FOZ listed and two channels of
    FOZ in the waveform set, the sum over the matched stations holds
    one envelope, that of the first channel of FOZ, while the energy
    [_node_loop] returns is the sum of the envelopes of both
    channels. *)
Lemma C7_counterexample :
  Stack._node_loop Examples.sqrt_exact 100 ["FOZ"]%string [0]
    [Examples.foz_z; Examples.foz_n] 0
  = Some (0%nat, [0 # 64; 0 # 64; 128 # 64; 128 # 64], [])
  /\ first_channels ["FOZ"]%string [Examples.foz_z; Examples.foz_n]
     = [Examples.foz_z]
  /\ sum_over_stations Examples.sqrt_exact 100 ["FOZ"]%string [0]
       [Examples.foz_z; Examples.foz_n]
     = Some [0 # 4; 0 # 4; 8 # 4; 0 # 4]
  /\ ~ (128 # 64) == (0 # 4).
Proof. repeat split; vm_compute; congruence. Qed.


(** ** Picking detections *)

Lemma nan_to_num_finite (fmax : Q) (x : Detect.float) :
  Detect.isfinite (Detect.nan_to_num fmax x) = true.
Proof. now destruct x. Qed.

Lemma nan_to_num_idemp (fmax : Q) (x : Detect.float) :
  Detect.nan_to_num fmax (Detect.nan_to_num fmax x) = Detect.nan_to_num fmax x.
Proof. now destruct x. Qed.

Lemma no_nan_after_nan_to_num (fmax : Q) (cnr : list Detect.float) :
  existsb Detect.isnan (Detect.nan_to_num fmax <$> cnr) = false.
Proof.
  induction cnr as [|x cnr IH]; [done|]. cbn. rewrite IH. now destruct x.
Qed.

Lemma force_no_nans_eq (fmax : Q) (cnr : list Detect.float) :
  Detect.force_no_nans fmax cnr = Some (Detect.nan_to_num fmax <$> cnr).
Proof.
  unfold Detect.force_no_nans. now rewrite no_nan_after_nan_to_num.
Qed.

(** C5 (amended).  Line 307 replaces every NaN of the response with
    zero and every infinity with the largest finite value of its sign,
    and leaves finite values alone; all values are finite afterwards,
    so the check of line 308 never raises; and the thresholds and the
    peaks are computed from the replaced values only. *)
Theorem C5_non_finite_values_replaced (fmax : Q) (cum_net_resp : list Detect.float) :
  exists clean,
    Detect.force_no_nans fmax cum_net_resp = Some clean
    /\ Forall (fun x => Detect.isfinite x = true) clean
    /\ Forall2 (fun x y =>
                  match x with
                  | Detect.NaN => y = Detect.Finite 0
                  | Detect.PosInf => y = Detect.Finite fmax
                  | Detect.NegInf => y = Detect.Finite (- fmax)
                  | Detect.Finite q => y = Detect.Finite q
                  end) cum_net_resp clean
    /\ (forall sqrt median find_peaks2 length_par nodes threshold thresh_type
               samp_rate realstations,
          Detect._find_detections fmax sqrt median find_peaks2 length_par
            cum_net_resp nodes threshold thresh_type samp_rate realstations
          = Detect._find_detections fmax sqrt median find_peaks2 length_par
              clean nodes threshold thresh_type samp_rate realstations).
Proof.
  exists (Detect.nan_to_num fmax <$> cum_net_resp).
  split; [apply force_no_nans_eq|]. split; [|split].
  - rewrite Forall_fmap. apply Forall_forall. intros x _.
    apply nan_to_num_finite.
  - apply Forall2_fmap_r, Forall_Forall2_diag, Forall_forall.
    intros x _. now destruct x.
  - intros. unfold Detect._find_detections. rewrite !force_no_nans_eq.
    rewrite <- list_fmap_compose.
    erewrite (list_fmap_ext (Detect.nan_to_num fmax ∘ Detect.nan_to_num fmax));
      [reflexivity|].
    intros j x _. apply nan_to_num_idemp.
Qed.

(** C5 as stated fails: an infinite value of the response is replaced
    with the largest finite double, which is not zero. *)
Lemma C5_counterexample :
  Detect.force_no_nans Examples.float64_max [Detect.PosInf]
  = Some [Detect.Finite Examples.float64_max]
  /\ ~ Examples.float64_max == 0.
Proof. split; [reflexivity|]. vm_compute. discriminate. Qed.

(** ** Coherence *)

Lemma filter_lt_seq_all (i a n : nat) :
  (i < a)%nat -> filter (fun j => i < j)%nat (seq a n) = seq a n.
Proof.
  revert a. induction n as [|n IH]; intros a Ha; [done|].
  cbn [seq]. rewrite filter_cons, decide_True by lia. f_equal.
  apply IH. lia.
Qed.

Lemma filter_lt_seq (i a n : nat) :
  (a <= i + 1)%nat ->
  filter (fun j => i < j)%nat (seq a n) = seq (i + 1) (a + n - (i + 1)).
Proof.
  revert a. induction n as [|n IH]; intros a Ha.
  - cbn. replace (a + 0 - (i + 1))%nat with 0%nat by lia. done.
  - destruct (decide (i < a)%nat) as [Hlt|Hge].
    + rewrite filter_lt_seq_all by done.
      assert (a = i + 1)%nat as -> by lia. f_equal. lia.
    + cbn [seq]. rewrite filter_cons, decide_False by done.
      rewrite IH by lia. f_equal. lia.
Qed.

Lemma pairs_above (n : nat) (l : list nat) :
  filter (fun p : nat * nat => p.1 < p.2)%nat
         (i ← l; j ← seq 0 n; [(i, j)])
  = i ← l; (fun j => (i, j)) <$> seq (i + 1) (n - (i + 1)).
Proof.
  induction l as [|i l IH]; [done|].
  rewrite !bind_cons, filter_app, IH. f_equal.
  pose proof (filter_lt_seq i 0 n) as Hf. rewrite Nat.add_0_l in Hf.
  rewrite <- Hf by lia. clear.
  generalize (seq 0 n) as js.
  induction js as [|j js IH]; [done|].
  rewrite bind_cons. cbn [app]. rewrite !filter_cons. cbn [fst snd].
  destruct (decide (i < j)%nat); rewrite IH; done.
Qed.

Lemma unordered_pairs_eq (n : nat) :
  Coherence.unordered_pairs n
  = i ← seq 0 n; (fun j => (i, j)) <$> seq (i + 1) (n - (i + 1)).
Proof. apply pairs_above. Qed.

Section CoheranceFacts.

Variable normxcorr2 : list Q -> list Q -> Q.
Variable stream : Stack.Stream.

Lemma pair_score_nonneg (p : nat * nat) :
  0 <= Coherence.pair_score normxcorr2 stream p.
Proof.
  unfold Coherence.pair_score.
  destruct (stream !! p.1), (stream !! p.2);
    try apply Qabs_nonneg; apply Qle_refl.
Qed.

Lemma inner_loop_eq (i : nat) (js : list nat) (c : Q) :
  (i < length stream)%nat ->
  Forall (fun j => j < length stream)%nat js ->
  foldl (fun acc j =>
           c ← acc; a ← stream !! i; b ← stream !! j;
           Some (c + Qabs (normxcorr2 (Stack.data a) (Stack.data b))))
        (Some c) js
  = Some (foldl Qplus c
            (Coherence.pair_score normxcorr2 stream
               <$> ((fun j => (i, j)) <$> js))).
Proof.
  intros Hi.
  set (f := fun (acc : option Q) (j : nat) =>
              c ← acc; a ← stream !! i; b ← stream !! j;
              Some (c + Qabs (normxcorr2 (Stack.data a) (Stack.data b)))).
  revert c. induction js as [|j js IH]; intros c Hjs; [done|].
  apply Forall_cons in Hjs as [Hj Hjs]. cbn [foldl fmap list_fmap].
  assert (Hf : f (Some c) j
               = Some (c + Coherence.pair_score normxcorr2 stream (i, j))).
  { destruct (lookup_lt_is_Some_2 stream i Hi) as [a Ha].
    destruct (lookup_lt_is_Some_2 stream j Hj) as [b Hb].
    unfold f, Coherence.pair_score. cbn. now rewrite Ha, Hb. }
  rewrite Hf. now apply IH.
Qed.

Lemma outer_loop_eq (todo : list nat) (c : Q) :
  Forall (fun i => i < length stream)%nat todo ->
  foldl (fun acc i => Coherence.inner normxcorr2 stream i acc) (Some c) todo
  = Some (foldl Qplus c
            (Coherence.pair_score normxcorr2 stream <$> (i ← todo;
                        (fun j => (i, j)) <$>
                          seq (i + 1) (length stream - (i + 1))))).
Proof.
  revert c. induction todo as [|i todo IH]; intros c Htodo; [done|].
  apply Forall_cons in Htodo as [Hi Htodo]. cbn [foldl].
  unfold Coherence.inner at 2, Py.range.
  rewrite inner_loop_eq; [|done|].
  - rewrite IH by done. rewrite bind_cons, fmap_app, foldl_app. done.
  - apply Forall_forall. intros j Hj. apply elem_of_seq in Hj. lia.
Qed.

Lemma common_length_is_max (m : nat) (ls : list nat) :
  Forall (fun l => l = m) ls -> foldl Nat.max m ls = m.
Proof.
  induction 1 as [|l ls -> _ IH]; [done|]. cbn. now rewrite Nat.max_id.
Qed.

End CoheranceFacts.

Lemma pairs_count_even (n : nat) : (n * (n - 1) = 2 * (n * (n - 1) / 2))%nat.
Proof.
  destruct (Nat.Even_or_Odd n) as [[k ->]|[k ->]].
  - replace (2 * k * (2 * k - 1))%nat with (k * (2 * k - 1) * 2)%nat by lia.
    rewrite Nat.div_mul by lia. lia.
  - replace ((2 * k + 1) * (2 * k + 1 - 1))%nat with ((2 * k + 1) * k * 2)%nat by lia.
    rewrite Nat.div_mul by lia. lia.
Qed.

(** C9.  For a stream of at least two channels of one length,
    [coherance] returns the sum over the unordered pairs of channels
    of the magnitude of their zero-lag normalised cross-correlation,
    divided by the number [n(n-1)/2] of pairs; the score is not
    negative. *)
Theorem C9_coherance_is_mean_pair_score
    (normxcorr2 : list Q -> list Q -> Q) (stream : Stack.Stream) (m : nat) :
  (2 <= length stream)%nat ->
  Forall (fun tr => length (Stack.data tr) = m) stream ->
  exists c,
    Coherence.coherance normxcorr2 stream = Some c
    /\ c == Coherence.mean_pair_score normxcorr2 stream
    /\ 0 <= c.
Proof.
  intros Hn Hlen. unfold Coherence.coherance.
  destruct stream as [|tr0 rest] eqn:Hs; [cbn in Hn; lia|]. rewrite <- Hs in *.
  assert (Hmax : match length <$> (Stack.data <$> stream) with
                 | [] => None
                 | l :: ls => Some (foldl Nat.max l ls)
                 end = Some m).
  { rewrite Hs in *. cbn. apply Forall_cons in Hlen as [-> Hrest].
    f_equal. apply common_length_is_max.
    rewrite !Forall_fmap. eapply Forall_impl; [exact Hrest|]. done. }
  rewrite Hmax. cbn [mbind option_bind]. rewrite decide_True by done.
  unfold Py.range. rewrite Nat.sub_0_r.
  rewrite outer_loop_eq
    by (apply Forall_forall; intros i Hi; apply elem_of_seq in Hi; lia).
  cbn [mbind option_bind]. rewrite <- unordered_pairs_eq.
  set (n := length stream) in *.
  assert (Hk : (1 <= n * (n - 1) / 2)%nat).
  { pose proof (pairs_count_even n). nia. }
  rewrite decide_False by (pose proof (pairs_count_even n); lia).
  eexists. split; [reflexivity|].
  unfold Coherence.mean_pair_score. fold n. unfold Grid.sum.
  set (S := foldl Qplus 0 _).
  assert (HS : 0 <= S).
  { apply sum_nonneg; [apply Qle_refl|]. rewrite Forall_fmap.
    apply Forall_forall. intros p _. apply pair_score_nonneg. }
  assert (Hq : inject_Z (Z.of_nat (n * (n - 1)))
               == 2 * inject_Z (Z.of_nat (n * (n - 1) / 2))).
  { rewrite (pairs_count_even n) at 1. rewrite Nat2Z.inj_mul, inject_Z_mult.
    reflexivity. }
  assert (Hpos : 0 < inject_Z (Z.of_nat (n * (n - 1) / 2))).
  { change 0 with (inject_Z 0). rewrite <- Zlt_Qlt. lia. }
  split.
  - rewrite Hq. field. lra.
  - rewrite Hq. apply Qle_shift_div_l; [lra|]. lra.
Qed.

Lemma C9_coherance_is_mean_pair_score_witness :
  exists c,
    Coherence.coherance Examples.xcorr
      [Examples.foz_z; Examples.foz_n; Examples.xyz_z] = Some c
    /\ c == Coherence.mean_pair_score Examples.xcorr
              [Examples.foz_z; Examples.foz_n; Examples.xyz_z]
    /\ 0 <= c.
Proof.
  apply (C9_coherance_is_mean_pair_score Examples.xcorr
           [Examples.foz_z; Examples.foz_n; Examples.xyz_z] 4).
  - cbn. lia.
  - repeat constructor.
Defined.


(** * Further properties of the code *)

(** ** Reduction: what the workers and the driver compute *)

Lemma running_max_spec (c e : Q) :
  (running_max c e = c \/ running_max c e = e)
  /\ c <= running_max c e /\ e <= running_max c e.
Proof.
  unfold running_max, Py.Qltb. destruct (Qle_bool e c) eqn:H; cbn.
  - apply Qle_bool_iff in H. repeat split; auto; apply Qle_refl.
  - assert (c < e).
    { apply Qnot_le_lt. intros Hle. apply Qle_bool_iff in Hle. congruence. }
    repeat split; auto; [now apply Qlt_le_weak|apply Qle_refl].
Qed.

Lemma lookup_removed (done : list nat) (fs : Reduce.scratch) (j : nat)
    (x : list Q) :
  removed done fs !! j = Some x <-> (j ∉ done) /\ fs !! j = Some x.
Proof.
  unfold removed. revert fs. induction done as [|i done IH]; intros fs; cbn.
  - split; [intros H; split; [apply not_elem_of_nil|done]|].
    now intros [_ ?].
  - rewrite IH, lookup_delete_Some, not_elem_of_cons.
    split; [intros (? & ? & ?)|intros ((? & ?) & ?)]; repeat split; auto.
Qed.

Lemma lookup_removed_None (done : list nat) (fs : Reduce.scratch) (j : nat) :
  j ∈ done -> removed done fs !! j = None.
Proof.
  intros Hj. destruct (removed done fs !! j) as [x|] eqn:H; [|done].
  apply lookup_removed in H as [Hn _]. done.
Qed.

(** The loop of a worker: it reads each node of the rest of its chunk
    once, from the scratch area as it was, removes what it read, and
    folds the traces into the running maximum. *)
Lemma fold_nodes_spec (rest : list nat) (acc acc' : Reduce.partial)
    (fs fs' : Reduce.scratch) :
  Reduce.fold_nodes rest acc fs = Some (acc', fs') ->
  exists traces,
    mapM (fun i => fs !! i) rest = Some traces
    /\ NoDup rest
    /\ fs' = removed rest fs
    /\ Forall (fun e => length e = length acc.1) traces
    /\ acc'.1 = foldl (zip_with running_max) acc.1 traces.
Proof.
  revert acc fs. induction rest as [|i rest IH]; intros acc fs; cbn.
  - intros [= <- <-]. exists []. repeat split; try done; constructor.
  - destruct (fs !! i) as [e|] eqn:He; [|done]. cbn.
    destruct (Reduce.fold_node i acc e) as [acc1|] eqn:Hf; [|done]. cbn.
    intros Hrest.
    destruct (IH _ _ Hrest) as (traces & Hm & Hnd & -> & Hlen & Hv).
    destruct acc as [cum idx], acc1 as [cum1 idx1].
    pose proof (fold_node_values _ _ _ _ _ _ Hf) as Hc1.
    assert (Hle : length e = length cum).
    { unfold Reduce.fold_node in Hf. cbn in Hf.
      destruct (decide (length cum = length e)); [done|done]. }
    assert (Hl1 : length cum1 = length cum).
    { rewrite Hc1, length_zip_with. lia. }
    assert (Hin : forall j x, (delete i fs) !! j = Some x ->
                              j <> i /\ fs !! j = Some x).
    { intros j x Hj. apply lookup_delete_Some in Hj as [? ?]. split; auto. }
    assert (Hm' : mapM (fun j => fs !! j) rest = Some traces).
    { apply mapM_Some. apply mapM_Some in Hm.
      eapply Forall2_impl; [exact Hm|]. intros j x Hj. now apply Hin in Hj. }
    exists (e :: traces). cbn. rewrite Hm'. cbn.
    repeat split; try done.
    + constructor; [|done]. intros Hi.
      apply mapM_Some in Hm. apply list_elem_of_lookup in Hi as [k Hk].
      destruct (Forall2_lookup_l _ _ _ _ _ Hm Hk) as (x & _ & Hx).
      apply Hin in Hx as [? _]. done.
    + constructor; [done|]. cbn in *. now rewrite <- Hl1.
    + cbn in *. now rewrite Hv, Hc1.
Qed.

(** The fold of [running_max] over traces of one length is their
    maximum at every sample. *)
Lemma foldl_running_max (traces : list (list Q)) (c : list Q) (t : nat) (v : Q) :
  Forall (fun e => length e = length c) traces ->
  foldl (zip_with running_max) c traces !! t = Some v ->
  max_at (c :: traces) t v.
Proof.
  revert c v. induction traces as [|e traces IH]; intros c v Hlen Hv; cbn in Hv.
  - split.
    + exists c. split; [apply list_elem_of_here|done].
    + intros e x He Hx. apply list_elem_of_singleton in He as ->.
      assert (x = v) as -> by congruence. apply Qle_refl.
  - apply Forall_cons in Hlen as [Hle Hlen].
    destruct (IH (zip_with running_max c e) v) as [(w & Hw & Hwt) Hub].
    { eapply Forall_impl; [exact Hlen|]. intros x Hx. cbn in *.
      rewrite length_zip_with. lia. }
    { done. }
    assert (Hz : forall x, zip_with running_max c e !! t = Some x ->
              exists a b, c !! t = Some a /\ e !! t = Some b
                          /\ x = running_max a b).
    { intros x Hx. apply lookup_zip_with_Some in Hx as (a & b & -> & ? & ?).
      now exists a, b. }
    split.
    + apply elem_of_cons in Hw as [->|Hw].
      * destruct (Hz _ Hwt) as (a & b & Ha & Hb & ->).
        destruct (running_max_spec a b) as [[->| ->] _].
        -- exists c. split; [apply list_elem_of_here|done].
        -- exists e. split; [apply list_elem_of_further, list_elem_of_here|done].
      * exists w. split; [now do 2 apply list_elem_of_further|done].
    + intros e' x He' Hx.
      assert (Hzt : is_Some (zip_with running_max c e !! t)).
      { apply lookup_lt_is_Some. rewrite length_zip_with.
        apply elem_of_cons in He' as [->|He'].
        - apply lookup_lt_Some in Hx. lia.
        - apply elem_of_cons in He' as [->|He'].
          + apply lookup_lt_Some in Hx. lia.
          + rewrite Forall_forall in Hlen. specialize (Hlen _ He').
            cbn in Hlen. apply lookup_lt_Some in Hx. lia. }
      destruct Hzt as [z Hzt].
      destruct (Hz _ Hzt) as (a & b & Ha & Hb & ->).
      destruct (running_max_spec a b) as (_ & Hma & Hmb).
      pose proof (Hub _ _ (list_elem_of_here _ _) Hzt) as Hzv.
      apply elem_of_cons in He' as [->|He'].
      * assert (x = a) as -> by congruence. now apply Qle_trans with (running_max a b).
      * apply elem_of_cons in He' as [->|He'].
        -- assert (x = b) as -> by congruence.
           now apply Qle_trans with (running_max a b).
        -- apply (Hub e'); [now apply list_elem_of_further|done].
Qed.

Lemma cum_net_resp_spec (node_lis : list nat) (fs fs' : Reduce.scratch)
    (r : Reduce.partial) :
  Reduce._cum_net_resp node_lis fs = Some (r, fs') ->
  exists traces,
    mapM (fun i => fs !! i) node_lis = Some traces
    /\ node_lis <> [] /\ NoDup node_lis
    /\ fs' = removed node_lis fs
    /\ Forall (fun e => length e = length r.1) traces
    /\ (forall t v, r.1 !! t = Some v -> max_at traces t v).
Proof.
  unfold Reduce._cum_net_resp.
  destruct node_lis as [|n0 rest]; [done|]. cbn [head tail mbind option_bind].
  destruct (fs !! n0) as [c|] eqn:Hc; [|done]. cbn [mbind option_bind].
  intros Hfold.
  destruct (fold_nodes_spec _ _ _ _ _ Hfold) as (traces & Hm & Hnd & -> & Hlen & Hv).
  cbn [fst] in *.
  assert (Hm' : mapM (fun j => fs !! j) rest = Some traces
                /\ n0 ∉ rest).
  { apply mapM_Some in Hm. split.
    - apply mapM_Some. eapply Forall2_impl; [exact Hm|]. intros j x Hj.
      now apply lookup_delete_Some in Hj as [_ ?].
    - intros Hi. apply list_elem_of_lookup in Hi as [k Hk].
      destruct (Forall2_lookup_l _ _ _ _ _ Hm Hk) as (x & _ & Hx).
      apply lookup_delete_Some in Hx as [? _]. done. }
  destruct Hm' as [Hm' Hn0].
  assert (Hlr : length r.1 = length c).
  { rewrite Hv. clear -Hlen. revert c Hlen.
    induction traces as [|e traces IH]; intros c Hlen; [done|].
    apply Forall_cons in Hlen as [He Hlen]. cbn. rewrite IH.
    - rewrite length_zip_with. lia.
    - eapply Forall_impl; [exact Hlen|]. intros x Hx. cbn in *.
      rewrite length_zip_with. lia. }
  exists (c :: traces). cbn. rewrite Hc. cbn. rewrite Hm'. cbn.
  split; [done|]. split; [done|]. split; [now constructor|].
  split; [done|]. split.
  - constructor; [done|]. eapply Forall_impl; [exact Hlen|].
    intros x Hx. cbn in *. lia.
  - intros t v Ht. rewrite Hv in Ht.
    exact (foldl_running_max traces c t v Hlen Ht).
Qed.

Lemma elem_of_concat {A} (x : A) (ls : list (list A)) :
  x ∈ concat ls <-> exists l, x ∈ l /\ l ∈ ls.
Proof.
  induction ls as [|l ls IH]; cbn.
  - split; [intros H; now apply not_elem_of_nil in H|].
    intros (l & _ & H). now apply not_elem_of_nil in H.
  - rewrite elem_of_app, IH. split.
    + intros [H|(l' & ? & ?)].
      * exists l. split; [done|apply list_elem_of_here].
      * exists l'. split; [done|now apply list_elem_of_further].
    + intros (l' & Hx & Hl). apply elem_of_cons in Hl as [->|Hl]; [now left|].
      right. now exists l'.
Qed.

Lemma removed_app (l k : list nat) (fs : Reduce.scratch) :
  removed (l ++ k) fs = removed k (removed l fs).
Proof. unfold removed. apply foldl_app. Qed.

(** The workers one after the other: every chunk is read from the
    scratch area as it was before the first worker ran, no node is read
    twice, and every partial result holds the maximum of its chunk. *)
Lemma run_workers_spec (chunks : list (list nat)) (fs fs' : Reduce.scratch)
    (rs : list Reduce.partial) :
  Reduce.run_workers chunks fs = Some (rs, fs') ->
  fs' = removed (concat chunks) fs
  /\ NoDup (concat chunks)
  /\ Forall2 (fun chunk (r : Reduce.partial) =>
                chunk <> []
                /\ exists traces,
                     mapM (fun i => fs !! i) chunk = Some traces
                     /\ Forall (fun e => length e = length r.1) traces
                     /\ (forall t v, r.1 !! t = Some v -> max_at traces t v))
             chunks rs.
Proof.
  revert fs rs. induction chunks as [|c chunks IH]; intros fs rs; cbn.
  - intros [= <- <-]. repeat split; constructor.
  - destruct (Reduce._cum_net_resp c fs) as [[r fs1]|] eqn:Hc; [|done]. cbn.
    destruct (Reduce.run_workers chunks fs1) as [[rs' fs2]|] eqn:Hrs; [|done].
    cbn. intros [= <- <-].
    destruct (cum_net_resp_spec _ _ _ _ Hc)
      as (traces & Hm & Hne & Hnd & -> & Hlen & Hmax).
    destruct (IH _ _ Hrs) as (-> & Hnd' & HF).
    assert (Hold : forall j x, removed c fs !! j = Some x ->
                               (j ∉ c) /\ fs !! j = Some x).
    { intros j x. apply lookup_removed. }
    split; [unfold removed; now rewrite foldl_app|]. split.
    + apply NoDup_app. split; [done|]. split; [|done].
      intros i Hi Hin. apply elem_of_concat in Hin as (c' & Hic' & Hc').
      apply list_elem_of_lookup in Hc' as [k Hk].
      destruct (Forall2_lookup_l _ _ _ _ _ HF Hk) as (r' & _ & _ & tr' & Hm' & _).
      apply mapM_Some in Hm'. apply list_elem_of_lookup in Hic' as [k' Hk'].
      destruct (Forall2_lookup_l _ _ _ _ _ Hm' Hk') as (x & _ & Hx).
      apply Hold in Hx as [Hn _]. done.
    + constructor.
      * split; [done|]. now exists traces.
      * eapply Forall2_impl; [exact HF|].
        intros c' r' (Hne' & tr' & Hm' & Hlen' & Hmax').
        split; [done|]. exists tr'. split; [|done].
        apply mapM_Some. apply mapM_Some in Hm'.
        eapply Forall2_impl; [exact Hm'|]. intros j x Hj.
        now apply Hold in Hj as [_ ?].
Qed.

(** [np.argmax] along the node axis followed by the gather of lines
    472-475 (and 498-499): the result has the length of the first row
    and holds the maximum of the rows at every sample. *)
Lemma axis0_gather_max (rows : list (list Q)) (indeces : list nat)
    (vals : list Q) :
  Py.argmax_axis0 rows = Some indeces ->
  mapM (fun j => c ← indeces !! j; row ← rows !! c; row !! j)
       (seq 0 (length indeces)) = Some vals ->
  length vals = length (default [] (head rows))
  /\ (forall t v, vals !! t = Some v -> max_at rows t v).
Proof.
  unfold Py.argmax_axis0. intros Hidx Hvals.
  destruct (head rows) as [r0|]; [|done]. cbn in Hidx |- *.
  apply mapM_Some in Hidx, Hvals.
  pose proof (Forall2_length _ _ _ Hidx) as Hl1.
  pose proof (Forall2_length _ _ _ Hvals) as Hl2.
  rewrite length_seq in Hl1, Hl2. split; [lia|].
  intros t v Hv.
  destruct (Forall2_lookup_r _ _ _ _ _ Hvals Hv) as (t' & Ht' & Hg).
  apply lookup_seq in Ht' as [-> Ht]. cbn in Hg.
  destruct (indeces !! t) as [o|] eqn:Ho; [|done]. cbn in Hg.
  destruct (rows !! o) as [row|] eqn:Hrow; [|done]. cbn in Hg.
  destruct (Forall2_lookup_r _ _ _ _ _ Hidx Ho) as (t' & Ht' & Harg).
  apply lookup_seq in Ht' as [-> _]. cbn in Harg.
  destruct (Py.column rows t) as [col|] eqn:Hcol; [|done]. cbn in Harg.
  destruct (argmax_spec col o Harg) as (m & Hm & Hub & _).
  apply mapM_Some in Hcol.
  destruct (Forall2_lookup_l _ _ _ _ _ Hcol Hrow) as (x & Hx & Hrt).
  assert (m = v) as -> by congruence.
  split.
  - exists row. split; [|done]. apply list_elem_of_lookup. now exists o.
  - intros e x' He Hx'. apply list_elem_of_lookup in He as [k Hk].
    destruct (Forall2_lookup_l _ _ _ _ _ Hcol Hk) as (y & Hy & Hey).
    assert (y = x') as -> by congruence. now apply (Hub k).
Qed.

Lemma lookup_zip_seq_map (a : nat) (l : list (list Q)) (i : nat) :
  (list_to_map (zip (seq a (length l)) l) : Reduce.scratch) !! i
  = if decide (a <= i)%nat then l !! (i - a)%nat else None.
Proof.
  revert a. induction l as [|x l IH]; intros a; cbn [length seq zip zip_with].
  - rewrite list_to_map_nil, lookup_empty. now destruct (decide _).
  - rewrite list_to_map_cons. destruct (decide (a = i)) as [->|Hne].
    + rewrite lookup_insert_eq, decide_True, Nat.sub_diag by lia. done.
    + rewrite lookup_insert_ne by done. rewrite IH.
      destruct (decide (S a <= i)%nat), (decide (a <= i)%nat); try lia; [|done].
      replace (i - a)%nat with (S (i - S a)) by lia. done.
Qed.

Lemma lookup_scratch_of (energy : list (list Q)) (i : nat) :
  Reduce.scratch_of energy !! i = energy !! i.
Proof.
  unfold Reduce.scratch_of. rewrite lookup_zip_seq_map.
  rewrite decide_True by lia. now rewrite Nat.sub_0_r.
Qed.

Lemma max_at_unique (rows : list (list Q)) (t : nat) (v w : Q) :
  max_at rows t v -> max_at rows t w -> v == w.
Proof.
  intros [(e & He & Hev) Hv] [(e' & He' & Hew) Hw].
  apply Qle_antisym; [apply (Hw e)|apply (Hv e')]; done.
Qed.

(** The maximum over the partial results of chunks that cover the
    nodes is the maximum over the nodes. *)
Lemma partial_max_is_global (energy : list (list Q)) (chunks : list (list nat))
    (rs : list Reduce.partial) (t : nat) (v : Q) :
  concat chunks = seq 0 (length energy) ->
  Forall2 (fun chunk (r : Reduce.partial) =>
             chunk <> []
             /\ exists traces,
                  mapM (fun i => Reduce.scratch_of energy !! i) chunk
                    = Some traces
                  /\ Forall (fun e => length e = length r.1) traces
                  /\ (forall t v, r.1 !! t = Some v -> max_at traces t v))
          chunks rs ->
  max_at (fst <$> rs) t v -> max_at energy t v.
Proof.
  intros Hpart HF [(e & He & Hev) Hub]. split.
  - apply list_elem_of_fmap in He as (r & -> & Hr).
    apply list_elem_of_lookup in Hr as [k Hk].
    destruct (Forall2_lookup_r _ _ _ _ _ HF Hk)
      as (c & Hc & _ & traces & Hm & _ & Hmax).
    destruct (Hmax t v Hev) as [(e' & He' & He't) _].
    exists e'. split; [|done].
    apply mapM_Some in Hm. apply list_elem_of_lookup in He' as [j Hj].
    destruct (Forall2_lookup_r _ _ _ _ _ Hm Hj) as (i & _ & Hi).
    rewrite lookup_scratch_of in Hi. apply list_elem_of_lookup. now exists i.
  - intros e' x He' Hx. apply list_elem_of_lookup in He' as [i Hi].
    assert (Hin : i ∈ concat chunks).
    { rewrite Hpart. apply elem_of_seq. apply lookup_lt_Some in Hi. lia. }
    apply elem_of_concat in Hin as (c & Hic & Hc).
    apply list_elem_of_lookup in Hc as [k Hk].
    destruct (Forall2_lookup_l _ _ _ _ _ HF Hk)
      as (r & Hr & _ & traces & Hm & Hlen & Hmax).
    apply mapM_Some in Hm. apply list_elem_of_lookup in Hic as [j Hj].
    destruct (Forall2_lookup_l _ _ _ _ _ Hm Hj) as (e'' & He'' & Hl).
    rewrite lookup_scratch_of in Hl.
    assert (e'' = e') as -> by congruence.
    assert (Hin' : e' ∈ traces) by (apply list_elem_of_lookup; now exists j).
    rewrite Forall_forall in Hlen. specialize (Hlen _ Hin'). cbn in Hlen.
    destruct (lookup_lt_is_Some_2 r.1 t) as [y Hy].
    { rewrite <- Hlen. now apply lookup_lt_Some in Hx. }
    apply Qle_trans with y.
    + destruct (Hmax t y Hy) as [_ Hub']. now apply (Hub' e').
    + apply (Hub r.1); [|done]. apply list_elem_of_fmap. exists r.
      split; [done|]. apply list_elem_of_lookup. now exists k.
Qed.

(** X1.  Whatever contiguous partition of the node indices the chunks
    form, the value series of the out-of-core reduction is that of the
    in-memory reduction: at every sample the maximum over all nodes. *)
Theorem out_of_core_values_agree (energy : list (list Q))
    (chunks : list (list nat)) (v1 v2 : list Q) (o1 o2 : list nat) :
  concat chunks = seq 0 (length energy) ->
  Reduce.in_memory energy = Some (v1, o1) ->
  Reduce.out_of_core chunks (Reduce.scratch_of energy) = Some (v2, o2) ->
  Forall2 Qeq v1 v2.
Proof.
  intros Hpart Hin Hout.
  unfold Reduce.in_memory in Hin.
  destruct (Py.argmax_axis0 energy) as [ind|] eqn:Hi; [|done]. cbn in Hin.
  destruct (head ind); [|done]. cbn in Hin.
  destruct (mapM _ (seq 0 (length ind))) as [g|] eqn:Hg; [|done].
  cbn in Hin. injection Hin as -> ->.
  destruct (axis0_gather_max _ _ _ Hi Hg) as [Hlen1 Hmax1].
  unfold Reduce.out_of_core in Hout.
  destruct (Reduce.run_workers _ _) as [[rs fs']|] eqn:Hrw; [|done].
  cbn in Hout. unfold Reduce.fold_partials in Hout.
  destruct (Py.argmax_axis0 (fst <$> rs)) as [ind2|] eqn:Hi2; [|done].
  cbn in Hout.
  apply bind_Some in Hout as (g2 & Hg2 & Hout).
  apply bind_Some in Hout as (ow & _ & Hout).
  injection Hout as -> ->.
  destruct (axis0_gather_max _ _ _ Hi2 Hg2) as [Hlen2 Hmax2].
  destruct (run_workers_spec _ _ _ _ Hrw) as (_ & _ & HF).
  apply Forall2_same_length_lookup_2.
  - rewrite Hlen1, Hlen2.
    destruct rs as [|r rs]; [done|].
    destruct chunks as [|c chunks]; [now apply Forall2_nil_cons_inv in HF|].
    apply Forall2_cons in HF as [(Hne & traces & Hm & Hlen & _) _].
    destruct c as [|i0 c]; [done|].
    destruct energy as [|r0 energy]; [done|].
    cbn in Hpart. injection Hpart as -> _.
    apply mapM_Some in Hm.
    apply Forall2_cons_inv_l in Hm as (e0 & tr & He0 & _ & ->).
    rewrite lookup_scratch_of in He0. cbn in He0. injection He0 as <-.
    apply Forall_cons in Hlen as [Hl _]. cbn. done.
  - intros t x y Hx Hy.
    apply (max_at_unique energy t); [now apply Hmax1|].
    apply (partial_max_is_global energy chunks rs); [done|done|].
    now apply Hmax2.
Qed.

Lemma out_of_core_values_agree_witness :
  Forall2 Qeq [5; 4] [5; 4].
Proof.
  apply (out_of_core_values_agree [[1; 4]; [5; 2]; [5; 3]]
           [[0; 1]; [2]]%nat [5; 4] [5; 4] [1; 0]%nat [1; 0]%nat).
  - reflexivity.
  - vm_compute. reflexivity.
  - vm_compute. reflexivity.
Defined.

(** X2.  When a worker returns, its value series is the elementwise
    maximum of the traces of its chunk, all of which have the length of
    the result. *)
Theorem cum_net_resp_is_chunk_max (node_lis : list nat)
    (fs fs' : Reduce.scratch) (r : Reduce.partial) :
  Reduce._cum_net_resp node_lis fs = Some (r, fs') ->
  exists traces,
    mapM (fun i => fs !! i) node_lis = Some traces
    /\ Forall (fun e => length e = length r.1) traces
    /\ (forall t v, r.1 !! t = Some v -> max_at traces t v).
Proof.
  intros H.
  destruct (cum_net_resp_spec _ _ _ _ H) as (traces & ? & _ & _ & _ & ? & ?).
  now exists traces.
Qed.

Lemma cum_net_resp_is_chunk_max_witness :
  exists traces,
    mapM (fun i => Reduce.scratch_of [[1; 4]; [5; 2]; [5; 3]] !! i)
         [1; 2]%nat = Some traces
    /\ Forall (fun e => length e = 2%nat) traces
    /\ (forall t v, [5; 3] !! t = Some v -> max_at traces t v).
Proof.
  apply (cum_net_resp_is_chunk_max [1; 2]%nat
           (Reduce.scratch_of [[1; 4]; [5; 2]; [5; 3]])
           (removed [1; 2]%nat (Reduce.scratch_of [[1; 4]; [5; 2]; [5; 3]]))
           ([5; 3], [0; 2]%nat)).
  vm_compute. reflexivity.
Defined.

(** X3.  When a worker returns, the scratch files of the nodes of its
    chunk are gone and every other scratch file is as it was. *)
Theorem cum_net_resp_removes_its_files (node_lis : list nat)
    (fs fs' : Reduce.scratch) (r : Reduce.partial) :
  Reduce._cum_net_resp node_lis fs = Some (r, fs') ->
  (forall i, i ∈ node_lis -> fs' !! i = None)
  /\ (forall j, j ∉ node_lis -> fs' !! j = fs !! j).
Proof.
  intros H.
  destruct (cum_net_resp_spec _ _ _ _ H) as (_ & _ & _ & _ & -> & _).
  split.
  - intros i Hi. now apply lookup_removed_None.
  - intros j Hj. apply option_eq. intros x. rewrite lookup_removed.
    split; [now intros [_ ?]|done].
Qed.

Lemma cum_net_resp_removes_its_files_witness :
  (forall i, i ∈ [1; 2]%nat ->
     removed [1; 2]%nat (Reduce.scratch_of [[1; 4]; [5; 2]; [5; 3]]) !! i = None)
  /\ (forall j, j ∉ [1; 2]%nat ->
        removed [1; 2]%nat (Reduce.scratch_of [[1; 4]; [5; 2]; [5; 3]]) !! j
        = Reduce.scratch_of [[1; 4]; [5; 2]; [5; 3]] !! j).
Proof.
  apply (cum_net_resp_removes_its_files [1; 2]%nat
           (Reduce.scratch_of [[1; 4]; [5; 2]; [5; 3]])
           (removed [1; 2]%nat (Reduce.scratch_of [[1; 4]; [5; 2]; [5; 3]]))
           ([5; 3], [0; 2]%nat)).
  vm_compute. reflexivity.
Defined.

(** X4.  A worker raises on an empty chunk, on a node that has no
    scratch file, and on a chunk that names a node twice (its file is
    gone at the second read). *)
Theorem cum_net_resp_raises (node_lis : list nat) (fs : Reduce.scratch) :
  node_lis = [] \/ (exists i, i ∈ node_lis /\ fs !! i = None)
  \/ ~ NoDup node_lis ->
  Reduce._cum_net_resp node_lis fs = None.
Proof.
  intros H.
  destruct (Reduce._cum_net_resp node_lis fs) as [[r fs']|] eqn:Hr; [|done].
  destruct (cum_net_resp_spec _ _ _ _ Hr) as (traces & Hm & Hne & Hnd & _).
  destruct H as [->|[(i & Hi & Hnone)|Hdup]]; [done| |done].
  apply mapM_Some in Hm. apply list_elem_of_lookup in Hi as [k Hk].
  destruct (Forall2_lookup_l _ _ _ _ _ Hm Hk) as (x & _ & Hx). congruence.
Qed.

Lemma cum_net_resp_raises_witness :
  Reduce._cum_net_resp [0; 1; 0]%nat
    (Reduce.scratch_of [[1; 4]; [5; 2]; [5; 3]]) = None.
Proof.
  apply cum_net_resp_raises. right. right.
  intros H. apply NoDup_cons in H as [H _]. apply H.
  apply list_elem_of_further, list_elem_of_here.
Defined.

(** A pool with one node per worker. *)
Lemma run_workers_singletons (l : list nat) (fs : Reduce.scratch)
    (traces : list (list Q)) :
  NoDup l ->
  mapM (fun i => fs !! i) l = Some traces ->
  Reduce.run_workers ((fun i => [i]) <$> l) fs
  = Some (zip_with (fun i e => (e, replicate (length e) i)) l traces,
          removed l fs).
Proof.
  revert fs traces. induction l as [|i l IH]; intros fs traces Hnd Hm.
  - cbn in Hm. injection Hm as <-. done.
  - apply NoDup_cons in Hnd as [Hi Hnd].
    apply mapM_Some in Hm.
    apply Forall2_cons_inv_l in Hm as (e & tr & He & Hm & ->).
    cbn [fmap list_fmap Reduce.run_workers].
    unfold Reduce._cum_net_resp. cbn [head tail mbind option_bind].
    rewrite He. cbn [mbind option_bind Reduce.fold_nodes fst snd].
    rewrite (IH (delete i fs) tr Hnd).
    + done.
    + apply mapM_Some, Forall2_same_length_lookup_2;
        [exact (Forall2_length _ _ _ Hm)|].
      intros k j x Hj Hx.
      rewrite lookup_delete_ne.
      * exact (Forall2_lookup_lr _ _ _ _ _ _ Hm Hj Hx).
      * intros ->. apply Hi. apply list_elem_of_lookup. now exists k.
Qed.

Lemma brightness_chunks_singletons (n : nat) :
  (3 <= n)%nat ->
  Chunks.brightness_chunks n n = Some ((fun i => [i]) <$> seq 0 n).
Proof.
  intros Hn. unfold Chunks.brightness_chunks, Chunks.node_chunks.
  rewrite decide_False by lia. cbv zeta.
  rewrite Nat.div_same by lia.
  change (Py.range 1 (n - 1)) with (seq 1 (n - 1 - 1)).
  rewrite foldl_chunk_step.
  destruct (n - 1 - 1)%nat as [|k] eqn:Hk; [lia|]. cbn [fst snd mbind option_bind].
  assert (Hc : forall i, chunk 1 i = [i]).
  { intros i. unfold chunk, Py.range.
    replace (1 * (i + 1) - 1 * i)%nat with 1%nat by lia. cbn. f_equal. lia. }
  assert (Hseq : seq 0 n = [0%nat] ++ seq 1 (S k) ++ [S (S k)]).
  { replace n with (1 + (S k + 1))%nat by lia.
    rewrite (seq_app 1 (S k + 1) 0), (seq_app (S k) 1 (0 + 1)).
    replace (0 + 1 + S k)%nat with (S (S k)) by lia. reflexivity. }
  assert (Hl : [Py.range 0 1] ++ (chunk 1 <$> seq 1 (S k))
               ++ [Py.range (1 * (1 + S k - 1 + 1)) n]
               = (fun i => [i]) <$> seq 0 n).
  { rewrite Hseq, !fmap_app. f_equal. f_equal.
    - apply list_fmap_ext. intros ? i _. apply Hc.
    - unfold Py.range.
      replace (n - 1 * (1 + S k - 1 + 1))%nat with 1%nat by lia.
      replace (1 * (1 + S k - 1 + 1))%nat with (S (S k)) by lia.
      reflexivity. }
  rewrite <- app_assoc, Hl. unfold Chunks.dispatched.
  replace n with (length ((fun i : nat => [i]) <$> seq 0 n)) at 1
    by now rewrite length_fmap, length_seq.
  apply mapM_lookup_seq.
Qed.

Lemma singleton_partials_responses (energy : list (list Q)) (a : nat) :
  (zip_with (fun i (e : list Q) => (e, replicate (length e) i))
            (seq a (length energy)) energy).*1 = energy.
Proof.
  revert a. induction energy as [|e en IH]; intros a; [done|].
  cbn. f_equal. apply IH.
Qed.

(** X5.  With one node per chunk the out-of-core mode cannot name the
    peak nodes: a worker that reads a single node returns its index
    array as floats, and the lookup [nodes[...]] of line 500 raises on
    the first sample.  So on energies for which the in-memory mode
    returns, the out-of-core mode raises with the chunks [brightness]
    builds when the pool has as many workers as there are nodes (three
    or more). *)
Theorem singleton_chunks_raise {A : Type} (nodes : list A)
    (energy : list (list Q)) (r : Reduce.partial) :
  Reduce.in_memory energy = Some r ->
  Reduce.out_of_core_peak_nodes nodes
    ((fun i => [i]) <$> seq 0 (length energy)) (Reduce.scratch_of energy)
  = None
  /\ (length nodes = length energy -> (3 <= length energy)%nat ->
      Reduce.brightness_peak_nodes nodes (length energy)
        (Reduce.scratch_of energy) = None).
Proof.
  intros Hin.
  assert (Hout : Reduce.out_of_core_peak_nodes nodes
                   ((fun i => [i]) <$> seq 0 (length energy))
                   (Reduce.scratch_of energy) = None).
  { unfold Reduce.out_of_core_peak_nodes.
    rewrite (run_workers_singletons _ _ energy).
    2:{ apply NoDup_seq. }
    2:{ etrans; [|apply mapM_lookup_seq].
        apply mapM_ext. intros i. apply lookup_scratch_of. }
    cbn [mbind option_bind fst].
    destruct (Reduce.fold_partials _) as [r'|]; [|done].
    cbn [mbind option_bind].
    assert (Hpk : Reduce.peak_nodes nodes
                    ((fun i => [i]) <$> seq 0 (length energy))
                    (zip_with (fun i (e : list Q) =>
                                 (e, replicate (length e) i))
                              (seq 0 (length energy)) energy) = None);
      [|now rewrite Hpk].
    unfold Reduce.peak_nodes. rewrite singleton_partials_responses.
    unfold Reduce.in_memory in Hin.
    destruct (Py.argmax_axis0 energy) as [ind|]; [|done].
    cbn [mbind option_bind] in Hin |- *.
    destruct ind as [|c0 ind]; [done|]. clear Hin.
    cbn [length seq mapM lookup list_lookup mbind option_bind].
    destruct (_.*2 !! c0) as [row|]; cbn [mbind option_bind]; [|reflexivity].
    destruct (row !! 0%nat) as [owner|]; cbn [mbind option_bind];
      [|reflexivity].
    rewrite list_lookup_fmap.
    destruct (seq 0 (length energy) !! c0) as [c|]; reflexivity. }
  split; [exact Hout|]. intros Hlen Hn.
  unfold Reduce.brightness_peak_nodes.
  rewrite Hlen, brightness_chunks_singletons by done. exact Hout.
Qed.

Lemma singleton_chunks_raise_witness :
  Reduce.out_of_core_peak_nodes Examples.nodes3
    ((fun i => [i]) <$> seq 0 3) (Reduce.scratch_of [[1; 4]; [5; 2]; [5; 3]])
  = None
  /\ (length Examples.nodes3 = 3%nat -> (3 <= 3)%nat ->
      Reduce.brightness_peak_nodes Examples.nodes3 3
        (Reduce.scratch_of [[1; 4]; [5; 2]; [5; 3]]) = None).
Proof.
  apply (singleton_chunks_raise Examples.nodes3 [[1; 4]; [5; 2]; [5; 3]]
           ([5; 4], [1; 0]%nat)).
  vm_compute. reflexivity.
Defined.

Lemma mapM_Forall2_eq {A B C : Type} (f : A -> option C) (g : B -> option C)
    (l : list A) (k : list B) :
  Forall2 (fun x y => f x = g y) l k -> mapM f l = mapM g k.
Proof.
  induction 1 as [|x y l k Hxy _ IH]; [done|]. cbn [mapM]. now rewrite Hxy, IH.
Qed.

(** X28.  When every chunk holds two nodes or more, the index arrays
    of the workers are integers and the peak nodes of the out-of-core
    mode are the nodes at the owner indices of its reduction: the
    lookup of line 500 raises only for an owner index that is not an
    index of the node list. *)
Theorem peak_nodes_are_owner_nodes {A : Type} (nodes : list A)
    (chunks : list (list nat)) (fs : Reduce.scratch) :
  Forall (fun chunk => (2 <= length chunk)%nat) chunks ->
  Reduce.out_of_core_peak_nodes nodes chunks fs
  = (r ← Reduce.out_of_core chunks fs;
     peak ← mapM (fun owner => nodes !! owner) r.2;
     Some (r.1, peak)).
Proof.
  intros Hsize. unfold Reduce.out_of_core_peak_nodes, Reduce.out_of_core.
  destruct (Reduce.run_workers chunks fs) as [[rs fs']|] eqn:Hrw; [|done].
  cbn [mbind option_bind fst].
  assert (Hlen : length chunks = length rs).
  { destruct (run_workers_spec _ _ _ _ Hrw) as (_ & _ & HF).
    exact (Forall2_length _ _ _ HF). }
  destruct (Reduce.fold_partials rs) as [[v owners]|] eqn:Hfold; [|done].
  cbn [mbind option_bind fst snd].
  assert (Hpk : Reduce.peak_nodes nodes chunks rs
                = mapM (fun owner => nodes !! owner) owners);
    [|now rewrite Hpk].
  unfold Reduce.fold_partials in Hfold. unfold Reduce.peak_nodes.
  destruct (Py.argmax_axis0 rs.*1) as [ind|]; [|done].
  cbn [mbind option_bind] in Hfold |- *.
  apply bind_Some in Hfold as (v' & _ & Hfold).
  apply bind_Some in Hfold as (owners' & Hown & Hfold).
  injection Hfold as _ ->. apply mapM_Some in Hown.
  apply mapM_Forall2_eq.
  eapply Forall2_impl; [exact Hown|]. intros t owner Ht. cbv beta in Ht |- *.
  destruct (ind !! t) as [c|]; [|done]. cbn [mbind option_bind] in Ht |- *.
  destruct (rs.*2 !! c) as [row|] eqn:Hrow; [|done].
  cbn [mbind option_bind] in Ht |- *. rewrite Ht. cbn [mbind option_bind].
  apply lookup_lt_Some in Hrow. rewrite length_fmap, <- Hlen in Hrow.
  destruct (lookup_lt_is_Some_2 chunks c Hrow) as [chunk Hchunk].
  rewrite Hchunk. cbn [mbind option_bind].
  rewrite Forall_forall in Hsize.
  assert (Hc : (2 <= length chunk)%nat).
  { apply Hsize. apply list_elem_of_lookup. by eexists. }
  destruct chunk as [|n0 [|n1 chunk]]; cbn in Hc; try lia. reflexivity.
Qed.

Lemma peak_nodes_are_owner_nodes_witness :
  Reduce.out_of_core_peak_nodes Examples.nodes3 [[0; 1; 2]%nat]
    (Reduce.scratch_of [[1; 4]; [5; 2]; [5; 3]])
  = (r ← Reduce.out_of_core [[0; 1; 2]%nat]
           (Reduce.scratch_of [[1; 4]; [5; 2]; [5; 3]]);
     peak ← mapM (fun owner => Examples.nodes3 !! owner) r.2;
     Some (r.1, peak)).
Proof.
  apply (peak_nodes_are_owner_nodes Examples.nodes3 [[0; 1; 2]%nat]).
  repeat constructor.
Defined.

(** X6.  In the out-of-core mode the stacker saves the energy row of
    node [i] in the scratch slot of [i] and touches no other slot; a
    worker given the chunk [[i]] reads that row back with [i] as owner
    of every sample and leaves the scratch area as it was before the
    save, less the slot of [i]. *)
Theorem saved_energy_is_read_back (sqrt : Q -> Q) (clip_level : Q)
    (stations : list string) (lags : list Q) (stream : Stack.Stream)
    (i i' : nat) (fs fs' : Reduce.scratch) (ws : list string) :
  Stack._node_loop_saved sqrt clip_level stations lags stream i fs
    = Some (i', fs', ws) ->
  exists row,
    Stack._node_loop sqrt clip_level stations lags stream i = Some (i, row, ws)
    /\ i' = i
    /\ fs' !! i = Some row
    /\ (forall j, j <> i -> fs' !! j = fs !! j)
    /\ Reduce._cum_net_resp [i] fs'
       = Some ((row, replicate (length row) i), delete i fs).
Proof.
  unfold Stack._node_loop_saved. intros H.
  apply bind_Some in H as ([[k row] ws'] & Hr & H). cbn in H.
  injection H as <- <- <-.
  assert (k = i) as ->.
  { unfold Stack._node_loop in Hr.
    apply bind_Some in Hr as (st & _ & Hr).
    apply bind_Some in Hr as (e & _ & Hr).
    apply bind_Some in Hr as (le & _ & Hr).
    apply bind_Some in Hr as (total & _ & Hr). now injection Hr as <- _ _. }
  exists row. split; [done|]. split; [done|].
  split; [apply lookup_insert_eq|]. split.
  - intros j Hj. now apply lookup_insert_ne.
  - unfold Reduce._cum_net_resp. cbn [head tail mbind option_bind].
    rewrite lookup_insert_eq. cbn. now rewrite delete_insert_eq.
Qed.

Lemma saved_energy_is_read_back_witness :
  exists row,
    Stack._node_loop Examples.sqrt_exact 100 ["FOZ"; "WVZ"]%string [1; 1]
      [Examples.foz_z; Examples.foz_n] 7
    = Some (7%nat, row, [])
    /\ 7%nat = 7%nat
    /\ (<[7%nat := [0 # 64; 128 # 64; 128 # 64; 0 # 64]]> ∅ : Reduce.scratch)
         !! 7%nat = Some row
    /\ (forall j, j <> 7%nat ->
          (<[7%nat := [0 # 64; 128 # 64; 128 # 64; 0 # 64]]> ∅ : Reduce.scratch)
            !! j = (∅ : Reduce.scratch) !! j)
    /\ Reduce._cum_net_resp [7%nat]
         (<[7%nat := [0 # 64; 128 # 64; 128 # 64; 0 # 64]]> ∅)
       = Some ((row, replicate (length row) 7%nat), delete 7%nat ∅).
Proof.
  apply (saved_energy_is_read_back Examples.sqrt_exact 100
           ["FOZ"; "WVZ"]%string [1; 1] [Examples.foz_z; Examples.foz_n]
           7 7 ∅ _ []).
  vm_compute. reflexivity.
Defined.

(** ** Chunking: the sizes of the chunks *)

Lemma node_chunks_explicit (len_nodes num_cores i_in : nat) :
  (3 <= num_cores)%nat ->
  Chunks.node_chunks len_nodes num_cores i_in
  = Some ((chunk (len_nodes / num_cores) <$> seq 0 (num_cores - 1))
          ++ [Py.range (len_nodes / num_cores * (num_cores - 1)) len_nodes]).
Proof.
  intros Hn. unfold Chunks.node_chunks.
  rewrite decide_False by lia. cbv zeta.
  set (ns := (len_nodes / num_cores)%nat).
  change (Py.range 1 (num_cores - 1)) with (seq 1 (num_cores - 1 - 1)).
  rewrite foldl_chunk_step.
  destruct (num_cores - 1 - 1)%nat as [|k] eqn:Hk; [lia|]. cbn [fst snd].
  replace (num_cores - 1)%nat with (S (S k)) by lia.
  cbn [seq fmap list_fmap]. rewrite !chunk_seq.
  unfold Py.range at 1. rewrite Nat.sub_0_r, Nat.mul_0_r.
  cbn [app]. replace (1 + S k - 1 + 1)%nat with (S (S k)) by lia.
  reflexivity.
Qed.

(** X7.  With a pool of three workers or more, sized as lines 447-451
    size it, the chunks handed out are a contiguous partition of the
    node indices: each of the first [num_cores - 1] chunks holds
    [len(nodes) / num_cores] nodes, at least one, and the last chunk
    holds all the remaining nodes. *)
Theorem brightness_chunks_sizes (cores len_nodes cpu_count : nat) :
  let num_cores := Driver.num_cores cores len_nodes cpu_count in
  let node_splits := (len_nodes / num_cores)%nat in
  (3 <= num_cores)%nat ->
  exists chunks,
    Chunks.brightness_chunks len_nodes num_cores = Some chunks
    /\ length chunks = num_cores
    /\ concat chunks = seq 0 len_nodes
    /\ (1 <= node_splits)%nat
    /\ (forall k, (k < num_cores - 1)%nat ->
          chunks !! k = Some (seq (node_splits * k) node_splits))
    /\ chunks !! (num_cores - 1)%nat
       = Some (seq (node_splits * (num_cores - 1))
                   (len_nodes - node_splits * (num_cores - 1))).
Proof.
  intros nc ns Hn.
  assert (Hle : (nc <= len_nodes)%nat).
  { unfold nc, Driver.num_cores in *. cbv zeta in *.
    repeat destruct (decide _); lia. }
  destruct (brightness_chunks_three_or_more len_nodes nc Hn)
    as (chunks & Hc & Hlen & Hcat).
  exists chunks. split; [done|]. split; [done|]. split; [done|].
  split; [apply Nat.div_le_lower_bound; lia|].
  unfold Chunks.brightness_chunks in Hc.
  rewrite node_chunks_explicit in Hc by done. cbn [mbind option_bind] in Hc.
  unfold Chunks.dispatched in Hc.
  assert (Hl : length ((chunk ns <$> seq 0 (nc - 1))
                       ++ [Py.range (ns * (nc - 1)) len_nodes]) = nc).
  { rewrite length_app, length_fmap, length_seq. cbn. lia. }
  rewrite <- Hl in Hc at 1. rewrite mapM_lookup_seq in Hc.
  injection Hc as <-. split.
  - intros k Hk. rewrite lookup_app_l by (rewrite length_fmap, length_seq; lia).
    rewrite list_lookup_fmap, lookup_seq_lt by lia. cbn.
    now rewrite chunk_seq.
  - rewrite lookup_app_r by (rewrite length_fmap, length_seq; lia).
    rewrite length_fmap, length_seq, Nat.sub_diag. reflexivity.
Qed.

Lemma brightness_chunks_sizes_witness :
  exists chunks,
    Chunks.brightness_chunks 11 4 = Some chunks
    /\ length chunks = 4%nat
    /\ concat chunks = seq 0 11
    /\ (1 <= 2)%nat
    /\ (forall k, (k < 3)%nat -> chunks !! k = Some (seq (2 * k) 2))
    /\ chunks !! 3%nat = Some (seq 6 5).
Proof.
  apply (brightness_chunks_sizes 4 11 8). vm_compute. lia.
Defined.

(** ** Grid: what resampling keeps *)

Lemma Qltb_lt (x y : Q) : Py.Qltb x y = true <-> x < y.
Proof.
  unfold Py.Qltb. rewrite negb_true_iff. split.
  - intros H. apply Qnot_le_lt. intros Hle. apply Qle_bool_iff in Hle. congruence.
  - intros H. destruct (Qle_bool y x) eqn:E; [|done].
    apply Qle_bool_iff in E. now apply Qle_not_lt in E.
Qed.

Section ResampleFilter.

Variable pyfloat : string -> option Q.
Variable contains_point : string * string -> bool.
Variables (nodes : list Grid.Node) (lags : Grid.Lags) (mindepth maxdepth : Q).

Lemma cut_volume_filter (todo : list nat) (ns : list Grid.Node) rn rl rn' rl' :
  mapM (fun i => nodes !! i) todo = Some ns ->
  Grid.cut_volume pyfloat contains_point nodes lags mindepth maxdepth
                  todo rn rl = Some (rn', rl') ->
  rn' = rn ++ filter (in_volume pyfloat contains_point mindepth maxdepth) ns.
Proof.
  revert ns rn rl. induction todo as [|i todo IH]; intros ns rn rl Hns.
  - cbn in Hns. injection Hns as <-. cbn. intros [= <- _].
    now rewrite app_nil_r.
  - apply mapM_Some in Hns.
    apply Forall2_cons_inv_l in Hns as (node & ns' & Hnode & Hns & ->).
    apply mapM_Some in Hns. cbn [Grid.cut_volume]. rewrite Hnode.
    cbn [mbind option_bind].
    destruct (pyfloat node.2) as [depth|] eqn:Hd; [|done].
    cbn [mbind option_bind]. rewrite filter_cons.
    destruct (Py.Qltb mindepth depth && Py.Qltb depth maxdepth
              && contains_point (node.1.1, node.1.2)) eqn:Hkeep.
    + apply andb_true_iff in Hkeep as [Hkeep H3].
      apply andb_true_iff in Hkeep as [H1 H2].
      apply Qltb_lt in H1, H2.
      rewrite decide_True by (now exists depth).
      destruct (Grid.col lags i) as [c|]; [|done]. cbn [mbind option_bind].
      intros Hcut. rewrite (IH _ _ _ Hns Hcut). now rewrite <- app_assoc.
    + rewrite decide_False.
      * intros Hcut. exact (IH _ _ _ Hns Hcut).
      * intros (d & Hd' & H1 & H2 & H3).
        assert (d = depth) as -> by congruence.
        apply Qltb_lt in H1, H2. now rewrite H1, H2, H3 in Hkeep.
Qed.

Lemma cut_volume_parses (todo : list nat) (i : nat) (node : Grid.Node)
    rn rl :
  i ∈ todo -> nodes !! i = Some node -> pyfloat node.2 = None ->
  Grid.cut_volume pyfloat contains_point nodes lags mindepth maxdepth
                  todo rn rl = None.
Proof.
  intros Hi Hnode Hnone. revert rn rl.
  induction todo as [|j todo IH]; intros rn rl;
    [now apply not_elem_of_nil in Hi|].
  cbn [Grid.cut_volume]. destruct (decide (j = i)) as [->|Hne].
  - rewrite Hnode. cbn. now rewrite Hnone.
  - apply elem_of_cons in Hi as [->|Hi]; [done|].
    destruct (nodes !! j) as [nj|]; [|done]. cbn.
    destruct (pyfloat nj.2); [|done]. cbn.
    destruct (_ && _); [|now apply IH].
    destruct (Grid.col lags j); [|done]. cbn. now apply IH.
Qed.

End ResampleFilter.

Lemma resample_grid_nodes (pyfloat : string -> option Q)
    (contains_point : string * string -> bool) (stations : list string)
    (nodes : list Grid.Node) (lags : Grid.Lags) (mindepth maxdepth resolution : Q)
    (stations' : list string) (nodes' : list Grid.Node) (lags' : Grid.Lags) :
  Grid._resample_grid pyfloat contains_point stations nodes lags
                      mindepth maxdepth resolution
    = Some (stations', nodes', lags') ->
  nodes' = filter (in_volume pyfloat contains_point mindepth maxdepth) nodes.
Proof.
  unfold Grid._resample_grid. intros H.
  apply bind_Some in H as ([rn rl] & Hcut & H).
  apply bind_Some in H as (rlT & _ & H). cbn in H. injection H as <- <- <-.
  now rewrite (cut_volume_filter _ _ _ _ _ _ _ nodes [] [] _ _
                 (mapM_lookup_seq nodes) Hcut).
Qed.

(** X8.  When [_resample_grid] returns, the nodes it returns are, in
    their order, exactly the nodes whose depth lies strictly between
    the two bounds and whose latitude and longitude are inside the
    polygon; the station list is returned as given. *)
Theorem resample_grid_keeps_volume (pyfloat : string -> option Q)
    (contains_point : string * string -> bool) (stations : list string)
    (nodes : list Grid.Node) (lags : Grid.Lags) (mindepth maxdepth resolution : Q)
    (stations' : list string) (nodes' : list Grid.Node) (lags' : Grid.Lags) :
  Grid._resample_grid pyfloat contains_point stations nodes lags
                      mindepth maxdepth resolution
    = Some (stations', nodes', lags') ->
  stations' = stations
  /\ nodes' = filter (in_volume pyfloat contains_point mindepth maxdepth) nodes.
Proof.
  intros H. split; [|now apply resample_grid_nodes in H].
  unfold Grid._resample_grid in H.
  apply bind_Some in H as (r & _ & H).
  apply bind_Some in H as (rlT & _ & H). now injection H as <- _ _.
Qed.

Lemma resample_grid_keeps_volume_witness :
  ["FOZ"; "WVZ"]%string = ["FOZ"; "WVZ"]%string
  /\ [("-43.0", "170.0", "5.0"); ("-43.0", "170.2", "5.0")]%string
     = filter (in_volume Examples.pyfloat Examples.inside 0 10) Examples.nodes3.
Proof.
  apply (resample_grid_keeps_volume Examples.pyfloat Examples.inside
           ["FOZ"; "WVZ"]%string Examples.nodes3 Examples.lags_two_stations
           0 10 1 _ _ [[0; 0]; [1; 3]]).
  vm_compute. reflexivity.
Defined.

(** X9.  [_resample_grid] raises as soon as the depth of one node does
    not parse as a number, whether or not the node is in the volume. *)
Theorem resample_grid_raises_on_bad_depth (pyfloat : string -> option Q)
    (contains_point : string * string -> bool) (stations : list string)
    (nodes : list Grid.Node) (lags : Grid.Lags)
    (mindepth maxdepth resolution : Q) (node : Grid.Node) :
  node ∈ nodes -> pyfloat node.2 = None ->
  Grid._resample_grid pyfloat contains_point stations nodes lags
                      mindepth maxdepth resolution = None.
Proof.
  intros Hin Hnone. unfold Grid._resample_grid.
  apply list_elem_of_lookup in Hin as [i Hi].
  rewrite (cut_volume_parses pyfloat contains_point nodes lags mindepth maxdepth
             (seq 0 (length nodes)) i node [] []); try done.
  apply elem_of_seq. apply lookup_lt_Some in Hi. lia.
Qed.

Lemma resample_grid_raises_on_bad_depth_witness :
  Grid._resample_grid Examples.pyfloat Examples.inside ["FOZ"]%string
    [("-43.0", "170.0", "5.0"); ("-43.0", "170.1", "deep")]%string
    [[0; 5]] 0 10 1 = None.
Proof.
  apply (resample_grid_raises_on_bad_depth Examples.pyfloat Examples.inside
           ["FOZ"]%string _ [[0; 5]] 0 10 1 ("-43.0", "170.1", "deep")%string).
  - apply list_elem_of_further, list_elem_of_here.
  - reflexivity.
Defined.

(** X10.  An empty depth window is no error: on a well-shaped grid
    whose depths parse, [_resample_grid] with [maxdepth <= mindepth]
    returns no node and one empty lag row per station. *)
Theorem resample_grid_empty_window (pyfloat : string -> option Q)
    (contains_point : string * string -> bool) (stations : list string)
    (nodes : list Grid.Node) (lags : Grid.Lags)
    (mindepth maxdepth resolution : Q) :
  maxdepth <= mindepth ->
  node_aligned nodes lags ->
  length lags = length stations ->
  Forall (fun node : Grid.Node => is_Some (pyfloat node.2)) nodes ->
  Grid._resample_grid pyfloat contains_point stations nodes lags
                      mindepth maxdepth resolution
  = Some (stations, [], replicate (length stations) []).
Proof.
  intros Hwin Hal Hst Hfl.
  destruct (resample_grid_selects pyfloat contains_point nodes lags
              mindepth maxdepth stations resolution Hal Hst Hfl)
    as (idx & nodes' & lags' & Hr & _ & Hn & Hl).
  rewrite Hr.
  assert (nodes' = []) as ->.
  { rewrite (resample_grid_nodes _ _ _ _ _ _ _ _ _ _ _ Hr).
    destruct (filter _ nodes) as [|node l] eqn:E; [done|].
    assert (Hin : node ∈ filter
                    (in_volume pyfloat contains_point mindepth maxdepth) nodes)
      by (rewrite E; apply list_elem_of_here).
    apply list_elem_of_filter in Hin as [(d & _ & H1 & H2 & _) _].
    exfalso. apply (Qlt_irrefl d). apply Qlt_trans with maxdepth; [done|].
    now apply Qle_lt_trans with mindepth. }
  assert (Hidx : idx = []).
  { apply length_mapM in Hn. now destruct idx. }
  subst idx. do 3 f_equal. rewrite <- Hst. clear -Hl.
  induction Hl as [|row row' lags lags' Hrow _ IH]; [done|].
  apply length_mapM in Hrow. destruct row'; [|cbn in Hrow; lia].
  cbn. now rewrite IH.
Qed.

Lemma resample_grid_empty_window_witness :
  Grid._resample_grid Examples.pyfloat Examples.inside ["FOZ"; "WVZ"]%string
    Examples.nodes3 Examples.lags_two_stations 10 10 1
  = Some (["FOZ"; "WVZ"]%string, [], replicate 2 []).
Proof.
  apply (resample_grid_empty_window Examples.pyfloat Examples.inside
           ["FOZ"; "WVZ"]%string Examples.nodes3 Examples.lags_two_stations
           10 10 1).
  - apply Qle_refl.
  - repeat constructor.
  - reflexivity.
  - repeat constructor; vm_compute; eauto.
Defined.

(** ** Grid: what removing similar nodes keeps *)

Lemma lookups_sublist {A} (l : list A) (a : nat) (idx : list nat)
    (out : list A) :
  idx `sublist_of` seq a (length l) ->
  mapM (fun i => l !! (i - a)%nat) idx = Some out ->
  out `sublist_of` l.
Proof.
  revert a idx out. induction l as [|x l IH]; intros a idx out Hsub Hm.
  - apply sublist_nil_r in Hsub as ->. cbn in Hm. injection Hm as <-. done.
  - cbn [length seq] in Hsub.
    assert (Hshift : forall idx', idx' `sublist_of` seq (S a) (length l) ->
              mapM (fun i => (x :: l) !! (i - a)%nat) idx'
              = mapM (fun i => l !! (i - S a)%nat) idx').
    { intros idx' Hs. apply Forall_mapM_ext, Forall_forall. intros i Hi.
      apply (sublist_subseteq _ _ Hs) in Hi. apply elem_of_seq in Hi.
      replace (i - a)%nat with (S (i - S a)) by lia. done. }
    apply sublist_cons_r in Hsub as [Hsub|(idx' & -> & Hsub)].
    + rewrite Hshift in Hm by done. apply sublist_cons. now apply (IH (S a) idx).
    + cbn [mapM] in Hm. rewrite Nat.sub_diag in Hm. cbn in Hm.
      rewrite Hshift in Hm by done.
      destruct (mapM _ idx') as [out'|] eqn:Hm'; [|done]. cbn in Hm.
      injection Hm as <-. apply sublist_skip. now apply (IH (S a) idx').
Qed.

Lemma rm_similarlags_shape (stations : list string) (nodes : list Grid.Node)
    (lags : Grid.Lags) (threshold : Q) r :
  Grid.rm_similarlags_idx stations nodes lags threshold = Some r ->
  nodes <> [] /\ length (default [] (head lags)) = length nodes.
Proof.
  unfold Grid.rm_similarlags_idx. intros H.
  apply bind_Some in H as (lagsT & Ht & H).
  apply bind_Some in H as (nd & Hnd & H).
  apply bind_Some in H as (n0 & Hn0 & _).
  split; [now destruct nodes|].
  unfold Grid.netdif in Hnd. apply bind_Some in Hnd as (r0 & Hr0 & _).
  unfold Grid.netdif_row in Hr0. apply bind_Some in Hr0 as (li & _ & Hr0).
  destruct (decide (length lagsT = length nodes)) as [Hl|]; [|done].
  unfold Grid.transpose in Ht. apply length_mapM in Ht.
  rewrite length_seq in Ht. lia.
Qed.

(** X11.  When [_rm_similarlags] returns, the node list was not empty,
    the lag table had one column per node, the stations are returned
    as given, the first node returned is node 0, and the nodes
    returned are a sublist of the nodes given: some nodes are dropped,
    none is moved. *)
Theorem rm_similarlags_keeps_first_and_order (stations : list string)
    (nodes : list Grid.Node) (lags : Grid.Lags) (threshold : Q)
    (stations' : list string) (nodes' : list Grid.Node) (lags' : Grid.Lags) :
  Grid._rm_similarlags stations nodes lags threshold
    = Some (stations', nodes', lags') ->
  stations' = stations
  /\ nodes <> []
  /\ length (default [] (head lags)) = length nodes
  /\ head nodes' = head nodes
  /\ nodes' `sublist_of` nodes.
Proof.
  unfold Grid._rm_similarlags. intros H.
  apply fmap_Some in H as ([[[st ns] ls] idx] & Hr & [= <- <- <-]).
  destruct (rm_similarlags_shape _ _ _ _ _ Hr) as [Hne Hcols].
  destruct (rm_similarlags_selects _ _ _ _ _ _ _ _ Hr)
    as (-> & (kept & -> & Hsub) & Hn & _).
  split; [done|]. split; [done|]. split; [done|].
  destruct nodes as [|n0 nodes]; [done|]. split.
  - cbn in Hn. destruct (mapM _ kept); [|done]. cbn in Hn. now injection Hn as <-.
  - apply (lookups_sublist (n0 :: nodes) 0 (0%nat :: kept)).
    + cbn [length seq]. apply sublist_skip.
      replace (length (n0 :: nodes) - 1)%nat with (length nodes) in Hsub
        by (cbn; lia).
      done.
    + rewrite <- Hn. apply mapM_ext. intros i. now rewrite Nat.sub_0_r.
Qed.

Lemma rm_similarlags_keeps_first_and_order_witness :
  ["FOZ"; "WVZ"]%string = ["FOZ"; "WVZ"]%string
  /\ Examples.nodes3 <> []
  /\ length (default [] (head Examples.lags_two_stations))
     = length Examples.nodes3
  /\ head [("-43.0", "170.0", "5.0"); ("-43.0", "170.2", "5.0")]%string
     = head Examples.nodes3
  /\ [("-43.0", "170.0", "5.0"); ("-43.0", "170.2", "5.0")]%string
       `sublist_of` Examples.nodes3.
Proof.
  apply (rm_similarlags_keeps_first_and_order ["FOZ"; "WVZ"]%string
           Examples.nodes3 Examples.lags_two_stations 1 _ _ [[0; 0]; [1; 3]]).
  vm_compute. reflexivity.
Defined.

Lemma sum_differences_zero (l : list Q) (c : Q) :
  foldl Qplus c (zip_with Qminus l l) == c.
Proof.
  revert c. induction l as [|x l IH]; intros c; cbn; [reflexivity|].
  rewrite IH. ring.
Qed.

Lemma netdif_row_self (lagsT : list (list Q)) (n : nat) (threshold : Q)
    (i : nat) (row : list bool) :
  0 <= threshold ->
  Grid.netdif_row lagsT n threshold i = Some row ->
  row !! i = Some false.
Proof.
  unfold Grid.netdif_row. intros HT H.
  apply bind_Some in H as (li & Hli & H).
  destruct (decide _); [|done]. injection H as <-.
  rewrite list_lookup_fmap, Hli. cbn. f_equal.
  unfold Py.Qltb. apply negb_false_iff, Qle_bool_iff.
  unfold Grid.sum. rewrite sum_differences_zero. done.
Qed.

Lemma netdif_row_negative (lagsT : list (list Q)) (n : nat) (threshold : Q)
    (i k : nat) (row : list bool) :
  threshold < 0 ->
  Grid.netdif_row lagsT n threshold i = Some row ->
  (k < n)%nat -> row !! k = Some true.
Proof.
  unfold Grid.netdif_row. intros HT H Hk.
  apply bind_Some in H as (li & Hli & H).
  destruct (decide _) as [Hlen|]; [|done]. injection H as <-.
  rewrite list_lookup_fmap.
  destruct (lookup_lt_is_Some_2 lagsT k) as [lk ->]; [lia|]. cbn. f_equal.
  apply Qltb_lt. apply Qlt_le_trans with 0; [done|apply Qabs_nonneg].
Qed.

Section SelectMore.

Variables (nodes : list Grid.Node) (nd : list (list bool)).

Lemma select_nodes_indices (todo idx : list nat) out idx' out' :
  Grid.select_nodes nodes nd todo idx out = Some (idx', out') ->
  exists kept, kept `sublist_of` todo /\ idx' = idx ++ kept.
Proof.
  revert idx out. induction todo as [|i todo IH]; intros idx out; cbn.
  - intros [= <- <-]. exists []. now rewrite app_nil_r.
  - destruct (nd !! i) as [row|]; [|done]. cbn.
    destruct (mapM _ idx) as [picked|]; [|done]. cbn.
    destruct (forallb id picked).
    + destruct (nodes !! i) as [node|]; [|done]. cbn. intros H.
      destruct (IH _ _ H) as (kept & Hsub & ->).
      exists (i :: kept). rewrite <- app_assoc. split; [now constructor|done].
    + intros H. destruct (IH _ _ H) as (kept & Hsub & ->).
      exists kept. split; [now constructor|done].
Qed.

(** A node enters the retained indices only if its row of [netdif] is
    true at every index retained before it. *)
Lemma select_nodes_checked (n a : nat) (idx : list nat) out idx' out' :
  Grid.select_nodes nodes nd (seq a n) idx out = Some (idx', out') ->
  Forall (fun k => k < a)%nat idx ->
  forall j, j ∈ idx' -> (a <= j)%nat ->
    exists row, nd !! j = Some row
      /\ forall k, k ∈ idx' -> (k < j)%nat -> row !! k = Some true.
Proof.
  revert a idx out. induction n as [|n IH]; intros a idx out; cbn [seq].
  - cbn. intros [= <- <-] Hidx j Hj Ha.
    rewrite Forall_forall in Hidx. specialize (Hidx j Hj). lia.
  - intros Hsel Hidx.
    destruct (select_nodes_indices _ _ _ _ _ Hsel) as (kept & Hsub & Hidx').
    cbn [Grid.select_nodes] in Hsel.
    destruct (nd !! a) as [row|] eqn:Hrow; [|done]. cbn in Hsel.
    destruct (mapM _ idx) as [picked|] eqn:Hp; [|done]. cbn in Hsel.
    assert (Hlt : forall k, k ∈ idx' -> (k < a)%nat -> k ∈ idx).
    { intros k Hk Hka. rewrite Hidx' in Hk.
      apply elem_of_app in Hk as [Hk|Hk]; [done|].
      apply (sublist_subseteq _ _ Hsub) in Hk.
      apply elem_of_cons in Hk as [->|Hk]; [lia|].
      apply elem_of_seq in Hk. lia. }
    destruct (forallb id picked) eqn:Hall.
    + destruct (nodes !! a) as [node|]; [|done]. cbn in Hsel.
      intros j Hj Ha. destruct (decide (j = a)) as [->|Hne].
      * exists row. split; [done|]. intros k Hk Hka.
        apply Hlt in Hk; [|done].
        apply mapM_Some in Hp. apply list_elem_of_lookup in Hk as [m Hm].
        destruct (Forall2_lookup_l _ _ _ _ _ Hp Hm) as (b & Hb & Hrk).
        rewrite Hrk. f_equal.
        apply (proj1 (forallb_forall id picked) Hall b).
        apply list_elem_of_In, list_elem_of_lookup. now exists m.
      * apply (IH (S a) _ _ Hsel); [|done|lia].
        apply Forall_app. split.
        -- eapply Forall_impl; [exact Hidx|]. intros; cbn in *; lia.
        -- repeat constructor.
    + intros j Hj Ha. destruct (decide (j = a)) as [->|Hne].
      * exfalso. rewrite Hidx' in Hj.
        apply elem_of_app in Hj as [Hj|Hj].
        -- rewrite Forall_forall in Hidx. specialize (Hidx a Hj). lia.
        -- destruct (select_nodes_indices _ _ _ _ _ Hsel) as (kept' & Hs' & He').
           rewrite He' in Hidx'. apply app_inv_head in Hidx'. subst kept'.
           apply (sublist_subseteq _ _ Hs') in Hj.
           apply elem_of_seq in Hj. lia.
      * apply (IH (S a) _ _ Hsel); [|done|lia].
        eapply Forall_impl; [exact Hidx|]. intros; cbn in *; lia.
Qed.

(** When every row of [netdif] is true everywhere, every node is
    retained. *)
Lemma select_nodes_all (todo idx : list nat) out (ns : list Grid.Node) :
  (forall i, i ∈ todo -> exists row, nd !! i = Some row
      /\ forall k, k ∈ idx ++ todo -> row !! k = Some true) ->
  mapM (fun i => nodes !! i) todo = Some ns ->
  Grid.select_nodes nodes nd todo idx out = Some (idx ++ todo, out ++ ns).
Proof.
  revert idx out ns. induction todo as [|i todo IH]; intros idx out ns Hnd Hns.
  - cbn in Hns. injection Hns as <-. cbn. now rewrite !app_nil_r.
  - apply mapM_Some in Hns.
    apply Forall2_cons_inv_l in Hns as (node & ns' & Hnode & Hns & ->).
    apply mapM_Some in Hns. cbn [Grid.select_nodes].
    destruct (Hnd i (list_elem_of_here _ _)) as (row & Hrow & Htrue).
    rewrite Hrow. cbn [mbind option_bind].
    assert (Hp : mapM (fun k => row !! k) idx
                 = Some (replicate (length idx) true)).
    { apply mapM_Some, Forall2_same_length_lookup_2;
        [now rewrite length_replicate|].
      intros m k b Hk Hb. apply lookup_replicate in Hb as [-> _].
      apply Htrue, elem_of_app. left. apply list_elem_of_lookup. now exists m. }
    rewrite Hp. cbn [mbind option_bind].
    assert (forallb id (replicate (length idx) true) = true) as ->.
    { clear. induction (length idx); [done|]. cbn. done. }
    rewrite Hnode. cbn [mbind option_bind].
    rewrite (IH (idx ++ [i]) (out ++ [node]) ns'); [|..|done].
    + now rewrite <- !app_assoc.
    + intros j Hj. destruct (Hnd j (list_elem_of_further _ _ _ Hj))
        as (row' & Hrow' & Htrue').
      exists row'. split; [done|]. intros k Hk. apply Htrue'.
      now rewrite <- app_assoc in Hk.
Qed.

End SelectMore.

Lemma netdif_length (lagsT : list (list Q)) (n : nat) (threshold : Q)
    (nd : list (list bool)) :
  Grid.netdif lagsT n threshold = Some nd -> length nd = S n.
Proof.
  unfold Grid.netdif. intros H.
  apply bind_Some in H as (r0 & _ & H). apply bind_Some in H as (rs & Hrs & H).
  injection H as <-. apply length_mapM in Hrs. rewrite length_seq in Hrs.
  cbn. lia.
Qed.

(** X12.  With a threshold that is not negative, [_rm_similarlags]
    never retains two nodes of consecutive indices; node 1, next to
    the always retained node 0, is never retained. *)
Theorem rm_similarlags_no_neighbours (stations : list string)
    (nodes : list Grid.Node) (lags : Grid.Lags) (threshold : Q)
    (stations' : list string) (nodes' : list Grid.Node) (lags' : Grid.Lags)
    (idx : list nat) :
  0 <= threshold ->
  Grid.rm_similarlags_idx stations nodes lags threshold
    = Some (stations', nodes', lags', idx) ->
  (1%nat ∉ idx) /\ (forall i, i ∈ idx -> S i ∉ idx).
Proof.
  intros HT Hr.
  assert (Hgen : forall i, i ∈ idx -> S i ∉ idx).
  { unfold Grid.rm_similarlags_idx in Hr.
    apply bind_Some in Hr as (lagsT & Ht & Hr).
    apply bind_Some in Hr as (nd & Hnd & Hr).
    apply bind_Some in Hr as (n0 & Hn0 & Hr).
    apply bind_Some in Hr as ([idx0 out] & Hsel & Hr).
    apply bind_Some in Hr as (sel & _ & Hr).
    apply bind_Some in Hr as (lo & _ & Hr).
    cbn in Hr. injection Hr as <- <- <- <-.
    unfold Py.range in Hsel.
    intros i Hi HSi.
    destruct (select_nodes_checked nodes nd _ 1 [0%nat] _ _ _ Hsel)
      with (j := S i) as (row & Hrow & Htrue); [by repeat constructor|done|lia|].
    specialize (Htrue i Hi (Nat.lt_succ_diag_r i)).
    assert (HSn : (S i < S (length nodes))%nat).
    { rewrite <- (netdif_length _ _ _ _ Hnd). now apply lookup_lt_Some in Hrow. }
    destruct (netdif_shifted _ _ _ _ i Hnd) as [_ Hshift]; [lia|].
    rewrite Hrow in Hshift. symmetry in Hshift.
    rewrite (netdif_row_self _ _ _ _ _ HT Hshift) in Htrue. done. }
  split; [|exact Hgen]. apply Hgen.
  destruct (rm_similarlags_selects _ _ _ _ _ _ _ _ Hr)
    as (_ & (kept & -> & _) & _).
  apply list_elem_of_here.
Qed.

Lemma rm_similarlags_no_neighbours_witness :
  (1%nat ∉ [0; 2]%nat)
  /\ (forall i, i ∈ [0; 2]%nat -> S i ∉ [0; 2]%nat).
Proof.
  apply (rm_similarlags_no_neighbours ["FOZ"; "WVZ"]%string Examples.nodes3
           Examples.lags_two_stations 1 ["FOZ"; "WVZ"]%string
           [("-43.0", "170.0", "5.0"); ("-43.0", "170.2", "5.0")]%string
           [[0; 0]; [1; 3]] [0; 2]%nat).
  - discriminate.
  - vm_compute. reflexivity.
Defined.

Lemma mapM_lookup_tail {A} (x : A) (l : list A) :
  mapM (fun i => (x :: l) !! i) (seq 1 (length l)) = Some l.
Proof.
  apply mapM_Some, Forall2_same_length_lookup_2; [now rewrite length_seq|].
  intros i j y Hj Hy. apply lookup_seq in Hj as [-> _]. exact Hy.
Qed.

(** X13.  A negative threshold removes nothing: on a grid with at
    least one node and one station whose lag rows are as long as the
    node list, [_rm_similarlags] returns the grid it was given. *)
Theorem rm_similarlags_negative_threshold (stations : list string)
    (nodes : list Grid.Node) (lags : Grid.Lags) (threshold : Q) :
  threshold < 0 ->
  node_aligned nodes lags -> nodes <> [] -> lags <> [] ->
  Grid._rm_similarlags stations nodes lags threshold
  = Some (stations, nodes, lags).
Proof.
  intros HT Hal Hn Hl.
  destruct (rm_similarlags_total stations nodes lags threshold Hal Hn Hl)
    as [[[[st ns] ls] idx] Hr].
  unfold Grid._rm_similarlags. rewrite Hr. cbn.
  destruct (rm_similarlags_selects _ _ _ _ _ _ _ _ Hr)
    as (-> & _ & [Hns Hls]).
  assert (Hidx : idx = seq 0 (length nodes)).
  { unfold Grid.rm_similarlags_idx in Hr.
    apply bind_Some in Hr as (lagsT & Ht & Hr).
    apply bind_Some in Hr as (nd & Hnd & Hr).
    apply bind_Some in Hr as (n0 & Hn0 & Hr).
    apply bind_Some in Hr as ([idx0 out] & Hsel & Hr).
    apply bind_Some in Hr as (sel & _ & Hr).
    apply bind_Some in Hr as (lo & _ & Hr).
    cbn in Hr. injection Hr as _ _ <-.
    destruct nodes as [|n1 rest]; [done|]. cbn in Hn0. injection Hn0 as ->.
    unfold Py.range in Hsel. cbn [length] in Hsel.
    replace (S (length rest) - 1)%nat with (length rest) in Hsel by lia.
    rewrite (select_nodes_all (n0 :: rest) nd (seq 1 (length rest)) [0%nat]
               [n0] rest) in Hsel.
    - now injection Hsel as <- _.
    - intros i Hi. apply elem_of_seq in Hi.
      destruct i as [|i]; [lia|].
      destruct (netdif_shifted _ _ _ _ i Hnd) as [_ Hshift]; [cbn; lia|].
      destruct (lookup_lt_is_Some_2 nd (S i)) as [row Hrow].
      { rewrite (netdif_length _ _ _ _ Hnd). cbn. lia. }
      exists row. split; [done|]. intros k Hk.
      rewrite Hrow in Hshift. symmetry in Hshift.
      apply (netdif_row_negative _ _ _ _ k _ HT Hshift).
      apply elem_of_app in Hk as [Hk|Hk].
      + apply list_elem_of_singleton in Hk as ->. cbn. lia.
      + apply elem_of_seq in Hk. cbn. lia.
    - apply mapM_lookup_tail. }
  subst idx. do 2 f_equal.
  - rewrite mapM_lookup_seq in Hns. injection Hns as <-. done.
  - clear -Hal Hls. symmetry.
    induction Hls as [|row row' lags lags' Hrow _ IH]; [done|].
    apply Forall_cons in Hal as [Hlen Hal].
    rewrite <- Hlen, mapM_lookup_seq in Hrow. injection Hrow as <-.
    f_equal. now apply IH.
Qed.

Lemma rm_similarlags_negative_threshold_witness :
  Grid._rm_similarlags ["FOZ"; "WVZ"]%string Examples.nodes3
    Examples.lags_two_stations (-1)
  = Some (["FOZ"; "WVZ"]%string, Examples.nodes3, Examples.lags_two_stations).
Proof.
  apply (rm_similarlags_negative_threshold ["FOZ"; "WVZ"]%string
           Examples.nodes3 Examples.lags_two_stations (-1)).
  - reflexivity.
  - repeat constructor.
  - discriminate.
  - discriminate.
Defined.

(** ** Grid: what reading the travel times returns *)

Lemma foldl_min_spec (l : list Q) (x : Q) :
  let m := foldl (fun m y => if Py.Qltb y m then y else m) x l in
  m ∈ x :: l /\ m <= x /\ Forall (fun y => m <= y) l.
Proof.
  revert x. induction l as [|y l IH]; intros x; cbn.
  - split; [apply list_elem_of_here|]. split; [apply Qle_refl|constructor].
  - destruct (IH (if Py.Qltb y x then y else x)) as (Hin & Hle & Hall).
    destruct (Py.Qltb y x) eqn:Hlt.
    + apply Qltb_lt in Hlt. split; [now apply list_elem_of_further|].
      split; [apply Qle_trans with y; [done|now apply Qlt_le_weak]|].
      now constructor.
    + assert (x <= y).
      { apply Qnot_lt_le. intros H. apply Qltb_lt in H. congruence. }
      split.
      * apply elem_of_cons in Hin as [->|Hin]; [apply list_elem_of_here|].
        now do 2 apply list_elem_of_further.
      * split; [done|]. constructor; [|done]. now apply Qle_trans with x.
Qed.

Lemma py_min_spec (l : list Q) (m : Q) :
  Grid.py_min l = Some m -> m ∈ l /\ Forall (fun y => m <= y) l.
Proof.
  destruct l as [|x l]; [done|]. cbn. intros [= <-].
  destruct (foldl_min_spec l x) as (Hin & Hle & Hall).
  split; [done|]. now constructor.
Qed.

(** A row of lags is relative when no lag is negative and one is zero. *)
Lemma relative_lags (tt : list Q) (m : Q) :
  Grid.py_min tt = Some m ->
  Forall (fun t => 0 <= t) ((fun t => t - m) <$> tt)
  /\ Exists (fun t => t == 0) ((fun t => t - m) <$> tt).
Proof.
  intros Hm. destruct (py_min_spec _ _ Hm) as [Hin Hall]. split.
  - rewrite Forall_fmap. eapply Forall_impl; [exact Hall|].
    intros t Ht. cbn in *. lra.
  - apply Exists_exists. exists (m - m). split; [|ring].
    apply list_elem_of_fmap. now exists m.
Qed.

Lemma read_files_rows (d : Grid.TTDir) (phase phaseout : string)
    (P : list Q -> Prop) (gridfiles : list string) allnodes alllags nodes' al' :
  (forall tt m, Grid.py_min tt = Some m -> P ((fun t => t - m) <$> tt)) ->
  Grid.read_files d phase phaseout gridfiles allnodes alllags
    = Some (nodes', Some al') ->
  (forall al, alllags = Some al -> Forall P al) ->
  Forall P al'
  /\ length al' = (length (default [] alllags) + length gridfiles)%nat.
Proof.
  intros HP. revert allnodes alllags.
  induction gridfiles as [|f rest IH]; intros allnodes alllags; cbn.
  - intros [= <- ->] Hinv. split; [now apply Hinv|]. cbn. lia.
  - destruct (Grid.read_csv d f) as [grid|]; [|done]. cbn.
    destruct (Grid.py_min _) as [m|] eqn:Hm; [|done]. cbn.
    destruct (Grid.add_lags _ _) as [al|] eqn:Hadd; [|done]. cbn.
    intros Hread Hinv.
    destruct (IH _ _ Hread) as [HF Hlen].
    + intros al0 [= <-]. unfold Grid.add_lags in Hadd.
      destruct alllags as [al0|].
      * destruct (decide _); [|done]. injection Hadd as <-.
        apply Forall_app. split; [now apply Hinv|].
        constructor; [now apply HP|constructor].
      * injection Hadd as <-. constructor; [now apply HP|constructor].
    + split; [done|]. rewrite Hlen. cbn. unfold Grid.add_lags in Hadd.
      destruct alllags as [al0|].
      * destruct (decide _); [|done]. injection Hadd as <-.
        rewrite length_app. cbn. lia.
      * injection Hadd as <-. cbn. lia.
Qed.

(** X14.  Every lag [_read_tt] returns is relative to its station's
    earliest arrival: no lag is negative and every station's row holds
    a zero. *)
Theorem read_tt_lags_relative (d : Grid.TTDir) (path : string)
    (stations : list string) (phase phaseout : string) (ps_ratio : Q)
    (stations' : list string) (nodes : list Grid.Node) (lags : Grid.Lags) :
  Grid._read_tt d path stations phase phaseout ps_ratio
    = Some (stations', nodes, lags) ->
  Forall (fun row => Forall (fun t => 0 <= t) row
                     /\ Exists (fun t => t == 0) row) lags.
Proof.
  unfold Grid._read_tt. destruct (decide _); [done|].
  destruct (Grid.read_files _ _ _ _ _ _) as [[ns [al|]]|] eqn:Hr; try done.
  cbn. intros [= _ _ <-].
  apply (read_files_rows _ _ _ _ _ _ _ _ _ relative_lags Hr). done.
Qed.

Lemma read_tt_lags_relative_witness :
  Forall (fun row => Forall (fun t => 0 <= t) row
                     /\ Exists (fun t => t == 0) row)
         Examples.lags_two_stations.
Proof.
  apply (read_tt_lags_relative Examples.dir "grid/"%string
           ["FOZ"; "WVZ"]%string "S"%string "S"%string 1.68
           ["FOZ"; "WVZ"]%string Examples.nodes3).
  vm_compute. reflexivity.
Defined.

(** X15.  When [_read_tt] returns, the stations it returns are the
    requested stations that have some file for the phase, at least one,
    while the lag table has one row per grid file found, at least
    one: the two counts come from two different file patterns. *)
Theorem read_tt_counts (d : Grid.TTDir) (path : string)
    (stations : list string) (phase phaseout : string) (ps_ratio : Q)
    (stations' : list string) (nodes : list Grid.Node) (lags : Grid.Lags) :
  Grid._read_tt d path stations phase phaseout ps_ratio
    = Some (stations', nodes, lags) ->
  stations' <> []
  /\ stations' `sublist_of` stations
  /\ lags <> []
  /\ length lags
     = length (stations ≫= fun station =>
         Grid.glob d (path +:+ "*." +:+ phase +:+ "." +:+ station
                      +:+ ".time.csv")).
Proof.
  unfold Grid._read_tt. destruct (decide _) as [|Hne]; [done|].
  destruct (Grid.read_files _ _ _ _ _ _) as [[ns [al|]]|] eqn:Hr; try done.
  cbn. intros [= <- _ <-].
  split; [done|]. split; [apply sublist_filter|].
  destruct (read_files_rows _ _ _ (fun _ => True) _ _ _ _ _
              (fun _ _ _ => I) Hr) as [_ Hlen]; [done|].
  cbn in Hlen. split; [|done].
  intros ->. cbn in Hlen. symmetry in Hlen.
  apply length_zero_iff_nil in Hlen. rewrite Hlen in Hr. done.
Qed.

Lemma read_tt_counts_witness :
  ["FOZ"; "WVZ"]%string <> []
  /\ ["FOZ"; "WVZ"]%string `sublist_of` ["FOZ"; "WVZ"]%string
  /\ Examples.lags_two_stations <> []
  /\ length Examples.lags_two_stations
     = length (["FOZ"; "WVZ"]%string ≫= fun station =>
         Grid.glob Examples.dir
           ("grid/" +:+ "*." +:+ "S" +:+ "." +:+ station +:+ ".time.csv")).
Proof.
  apply (read_tt_counts Examples.dir "grid/"%string ["FOZ"; "WVZ"]%string
           "S"%string "S"%string 1.68 ["FOZ"; "WVZ"]%string Examples.nodes3).
  vm_compute. reflexivity.
Defined.

(** ** Energy stacking: edges and bounds *)

(** X17.  [_node_loop] raises when no trace of the stream belongs to a
    listed station: nothing was stacked, and line 253 reads [energy]
    before it was ever bound. *)
Theorem node_loop_needs_a_match (sqrt : Q -> Q) (clip_level : Q)
    (stations : list string) (lags : list Q) (stream : Stack.Stream) (i : nat) :
  (forall tr, tr ∈ stream -> Stack.station tr ∉ stations) ->
  Stack._node_loop sqrt clip_level stations lags stream i = None.
Proof.
  intros Hno. rewrite node_loop_eq.
  assert (matched stations stream = []) as ->; [|done].
  unfold matched. induction stream as [|tr stream IH]; [done|].
  rewrite filter_cons, decide_False by (apply Hno, list_elem_of_here).
  apply IH. intros tr' Htr'. now apply Hno, list_elem_of_further.
Qed.

Lemma node_loop_needs_a_match_witness :
  Stack._node_loop Examples.sqrt_exact 100 ["FOZ"; "WVZ"]%string [1; 1]
    [Examples.xyz_z] 0 = None.
Proof.
  apply node_loop_needs_a_match. intros tr Htr.
  apply list_elem_of_singleton in Htr as ->. cbn.
  intros H. apply elem_of_cons in H as [H|H]; [discriminate H|].
  apply list_elem_of_singleton in H. discriminate H.
Defined.

(** X18.  The energy row [_node_loop] returns has as many samples as
    every trace that was stacked, and comes with the node number it
    was called with. *)
Theorem node_loop_length (sqrt : Q -> Q) (clip_level : Q)
    (stations : list string) (lags : list Q) (stream : Stack.Stream)
    (i i' : nat) (total : list Q) (ws : list string) :
  Stack._node_loop sqrt clip_level stations lags stream i
    = Some (i', total, ws) ->
  i' = i
  /\ (forall tr, tr ∈ stream -> Stack.station tr ∈ stations ->
        length total = length (Stack.data tr)).
Proof.
  rewrite node_loop_eq. intros H.
  apply bind_Some in H as (rows & Hrows & H).
  destruct rows as [|r rows]; [done|].
  destruct (decide _) as [Hall|]; [|done]. injection H as <- <- _.
  split; [done|]. intros tr Htr Hst.
  rewrite elementwise_sum_length by (constructor; done).
  assert (Hm : tr ∈ matched stations stream).
  { apply list_elem_of_filter. done. }
  apply mapM_Some in Hrows. apply list_elem_of_lookup in Hm as [k Hk].
  destruct (Forall2_lookup_l _ _ _ _ _ Hrows Hk) as (row & Hrow & Henv).
  assert (Hlen : length row = length r).
  { destruct k; [cbn in Hrow; congruence|]. cbn in Hrow.
    exact (Forall_lookup_1 _ _ _ _ Hall Hrow). }
  rewrite <- Hlen. unfold envelope, clipped_envelope in Henv.
  apply bind_Some in Henv as (c & Hc & Henv). injection Henv as <-.
  apply bind_Some in Hc as (j0 & _ & Hc).
  apply bind_Some in Hc as (lag & _ & Hc).
  apply bind_Some in Hc as (le & Hle & Hc). injection Hc as <-.
  unfold normalise, Stack.clip. rewrite !length_fmap.
  now apply lagged_length in Hle.
Qed.

Lemma node_loop_length_witness :
  7%nat = 7%nat
  /\ (forall tr, tr ∈ [Examples.foz_z; Examples.foz_n; Examples.xyz_z] ->
        Stack.station tr ∈ ["FOZ"; "WVZ"]%string ->
        length [0 # 64; 128 # 64; 128 # 64; 0 # 64] = length (Stack.data tr)).
Proof.
  apply (node_loop_length Examples.sqrt_exact 100 ["FOZ"; "WVZ"]%string [1; 1]
           [Examples.foz_z; Examples.foz_n; Examples.xyz_z] 7 7 _
           ["No station match"%string]).
  vm_compute. reflexivity.
Defined.

(** X19.  A lag of as many samples as the trace is long, or more,
    leaves nothing of the trace: the lagged envelope is all zeros. *)
Theorem lagged_beyond_the_trace (tr_data : list Q) (lag rate : Q) :
  (Z.of_nat (length tr_data) <= Stack.py_round (lag * rate))%Z ->
  Stack.lagged tr_data lag rate = Some (replicate (length tr_data) 0).
Proof.
  intros Hk. rewrite lagged_eq by lia.
  rewrite drop_ge by (rewrite length_fmap; lia).
  cbn. f_equal. f_equal. lia.
Qed.

Lemma lagged_beyond_the_trace_witness :
  Stack.lagged [1; 2; 3] 5 1 = Some (replicate 3 0).
Proof.
  apply (lagged_beyond_the_trace [1; 2; 3] 5 1). vm_compute. discriminate.
Defined.

(** X21.  With a clip level that is not negative, every value of a
    clipped envelope lies between zero and the clip level times the
    mean of the lagged energy, and the values of the lagged energy that
    already lie there are kept. *)
Theorem clipped_energy_bounds (clip_level : Q) (tr_data : list Q)
    (lag rate : Q) (le : list Q) :
  0 <= clip_level ->
  Stack.lagged tr_data lag rate = Some le ->
  Forall2 (fun x y => 0 <= y /\ y <= clip_level * Stack.mean le
                      /\ (x <= clip_level * Stack.mean le -> y == x))
          le (Stack.clipped clip_level le).
Proof.
  intros Hc Hle. pose proof (lagged_nonneg _ _ _ _ Hle) as Hpos.
  assert (Hmean : 0 <= Stack.mean le).
  { unfold Stack.mean, Grid.sum.
    assert (Hs : 0 <= foldl Qplus 0 le) by (apply sum_nonneg; [apply Qle_refl|done]).
    unfold Qdiv. apply Qmult_le_0_compat; [done|].
    apply Qinv_le_0_compat. change 0 with (inject_Z 0).
    rewrite <- Zle_Qle. lia. }
  assert (Hhi : 0 <= clip_level * Stack.mean le)
    by now apply Qmult_le_0_compat.
  pose proof (clip_spec le 0 (clip_level * Stack.mean le) Hhi) as Hclip.
  unfold Stack.clipped.
  apply Forall2_same_length_lookup_2; [exact (Forall2_length _ _ _ Hclip)|].
  intros j x y Hx Hy.
  destruct (Forall2_lookup_lr _ _ _ _ _ _ Hclip Hx Hy) as ([H1 H2] & Hin & _).
  split; [done|]. split; [done|]. intros Hxle. apply Hin. split; [|done].
  exact (Forall_lookup_1 _ _ _ _ Hpos Hx).
Qed.

Lemma clipped_energy_bounds_witness :
  Forall2 (fun x y => 0 <= y /\ y <= (1 # 2) * Stack.mean [4; 9; 0]
                      /\ (x <= (1 # 2) * Stack.mean [4; 9; 0] -> y == x))
          [4; 9; 0] (Stack.clipped (1 # 2) [4; 9; 0]).
Proof.
  apply (clipped_energy_bounds (1 # 2) [1; 2; 3] 1 1 [4; 9; 0]).
  - vm_compute. discriminate.
  - vm_compute. reflexivity.
Defined.

(** ** Detections and the nodes they name *)

Lemma finite_values_cleaned (fmax : Q) (cnr : list Detect.float) :
  mapM Detect.finite_value (Detect.nan_to_num fmax <$> cnr)
  = Some (cleaned fmax cnr).
Proof.
  unfold cleaned. induction cnr as [|x cnr IH]; [done|].
  cbn [fmap list_fmap]. cbn [mapM]. rewrite IH. now destruct x.
Qed.

Lemma resolve_thresh_is_Some (sqrt : Q -> Q) (median : list Q -> Q)
    (thresh_type : string) (threshold : Q) (cnr : list Q) :
  is_Some (Detect.resolve_thresh sqrt median thresh_type threshold cnr)
  <-> thresh_type = "MAD"%string \/ thresh_type = "abs"%string
      \/ thresh_type = "RMS"%string.
Proof.
  unfold Detect.resolve_thresh.
  destruct (decide (thresh_type = "MAD"%string)) as [?|H1];
    [split; [now left|by eexists]|].
  destruct (decide (thresh_type = "abs"%string)) as [?|H2];
    [split; [now right; left|by eexists]|].
  destruct (decide (thresh_type = "RMS"%string)) as [?|H3];
    [split; [now right; right|by eexists]|].
  split; [intros [? [=]]|]. intros [?|[?|?]]; done.
Qed.

Lemma find_detections_eq (fmax : Q) (sqrt : Q -> Q) (median : list Q -> Q)
    (find_peaks2 : list Q -> Q -> Q -> list (Q * nat)) (length_par : Q)
    (cum_net_resp : list Detect.float) (nodes : list Grid.Node)
    (threshold : Q) (thresh_type : string) (samp_rate : Q)
    (realstations : list string) (thresh : Q) :
  cum_net_resp <> [] ->
  Detect.resolve_thresh sqrt median thresh_type threshold
    (cleaned fmax cum_net_resp) = Some thresh ->
  Detect._find_detections fmax sqrt median find_peaks2 length_par
    cum_net_resp nodes threshold thresh_type samp_rate realstations
  = mapM (fun peak : Q * nat =>
            node ← nodes !! peak.2;
            Some {| Detect.template_name := node_key node;
                    Detect.detect_time :=
                      inject_Z (Z.of_nat peak.2) / samp_rate;
                    Detect.no_chans := length realstations;
                    Detect.detect_val := peak.1;
                    Detect.threshold := thresh;
                    Detect.typeofdet := "brightness";
                    Detect.chans := realstations |})
         (find_peaks2 (cleaned fmax cum_net_resp) thresh
            (length_par * samp_rate)).
Proof.
  intros Hne Hth. unfold Detect._find_detections.
  rewrite force_no_nans_eq. cbn [mbind option_bind].
  rewrite finite_values_cleaned. cbn [mbind option_bind].
  rewrite Hth. cbn [mbind option_bind].
  destruct cum_net_resp as [|x rest]; [done|]. reflexivity.
Qed.

(** X22.  [_find_detections] returns exactly when the response is not
    empty, the threshold type is one of MAD, abs and RMS, and every peak
    found lies at an index that the node list has; otherwise it
    raises. *)
Theorem find_detections_returns_iff (fmax : Q) (sqrt : Q -> Q)
    (median : list Q -> Q)
    (find_peaks2 : list Q -> Q -> Q -> list (Q * nat)) (length_par : Q)
    (cum_net_resp : list Detect.float) (nodes : list Grid.Node)
    (threshold : Q) (thresh_type : string) (samp_rate : Q)
    (realstations : list string) :
  is_Some (Detect._find_detections fmax sqrt median find_peaks2 length_par
             cum_net_resp nodes threshold thresh_type samp_rate realstations)
  <-> cum_net_resp <> []
      /\ exists thresh,
           Detect.resolve_thresh sqrt median thresh_type threshold
             (cleaned fmax cum_net_resp) = Some thresh
           /\ (thresh_type = "MAD"%string \/ thresh_type = "abs"%string
               \/ thresh_type = "RMS"%string)
           /\ Forall (fun peak : Q * nat => (peak.2 < length nodes)%nat)
                     (find_peaks2 (cleaned fmax cum_net_resp) thresh
                        (length_par * samp_rate)).
Proof.
  split.
  - intros [dets Hd].
    assert (Hne : cum_net_resp <> []).
    { intros ->. unfold Detect._find_detections in Hd.
      rewrite force_no_nans_eq in Hd. cbn in Hd.
      destruct (Detect.resolve_thresh _ _ _ _ _); discriminate Hd. }
    split; [done|].
    destruct (Detect.resolve_thresh sqrt median thresh_type threshold
                (cleaned fmax cum_net_resp)) as [thresh|] eqn:Hth.
    + exists thresh. split; [done|]. split.
      { apply (resolve_thresh_is_Some sqrt median thresh_type threshold
                 (cleaned fmax cum_net_resp)). by eexists. }
      rewrite (find_detections_eq _ _ _ _ _ _ _ _ _ _ _ thresh) in Hd by done.
      apply mapM_Some in Hd. apply Forall_forall. intros peak Hp.
      apply list_elem_of_lookup in Hp as [k Hk].
      destruct (Forall2_lookup_l _ _ _ _ _ Hd Hk) as (d & _ & Hnode).
      apply bind_Some in Hnode as (node & Hnode & _).
      now apply lookup_lt_Some in Hnode.
    + unfold Detect._find_detections in Hd.
      rewrite force_no_nans_eq in Hd. cbn [mbind option_bind] in Hd.
      rewrite finite_values_cleaned in Hd. cbn [mbind option_bind] in Hd.
      rewrite Hth in Hd. discriminate Hd.
  - intros (Hne & thresh & Hth & _ & Hpeaks).
    rewrite (find_detections_eq _ _ _ _ _ _ _ _ _ _ _ thresh) by done.
    apply mapM_is_Some. eapply Forall_impl; [exact Hpeaks|].
    intros peak Hp. cbn.
    destruct (lookup_lt_is_Some_2 nodes peak.2 Hp) as [node ->].
    by eexists.
Qed.

Lemma split_component (a rest : string) :
  no_underscore a ->
  Driver.split "_" (a +:+ String "_" rest) = a :: Driver.split "_" rest.
Proof.
  induction a as [|c a IH]; intros Ha; [reflexivity|].
  destruct Ha as [Hc Ha].
  change (String c a +:+ String "_" rest)
    with (String c (a +:+ String "_" rest)).
  cbn [Driver.split].
  destruct (Ascii.eqb c "_") eqn:Heq; [apply Ascii.eqb_eq in Heq; done|].
  now rewrite IH.
Qed.

Lemma split_last (a : string) :
  no_underscore a -> Driver.split "_" a = [a].
Proof.
  induction a as [|c a IH]; intros Ha; [reflexivity|].
  destruct Ha as [Hc Ha]. cbn [Driver.split].
  destruct (Ascii.eqb c "_") eqn:Heq; [apply Ascii.eqb_eq in Heq; done|].
  now rewrite IH.
Qed.

Lemma node_of_name_key (node : Grid.Node) :
  no_underscore node.1.1 -> no_underscore node.1.2 -> no_underscore node.2 ->
  Driver.node_of_name (node_key node) = Some node.
Proof.
  destruct node as [[a b] c]. cbn [fst snd]. intros Ha Hb Hc.
  unfold Driver.node_of_name, node_key. cbn [fst snd].
  change ("_" +:+ b +:+ "_" +:+ c) with (String "_" (b +:+ String "_" c)).
  rewrite split_component by done. rewrite split_component by done.
  rewrite split_last by done. reflexivity.
Qed.

Lemma index_Some (x : Grid.Node) (l : list Grid.Node) (k : nat) :
  Driver.index x l = Some k ->
  l !! k = Some x /\ (forall j, (j < k)%nat -> l !! j <> Some x).
Proof.
  revert k. induction l as [|y l IH]; intros k H; [done|]. cbn in H.
  destruct (decide (y = x)) as [->|Hne].
  - injection H as <-. split; [done|]. intros j Hj. lia.
  - apply fmap_Some in H as (k' & Hk' & ->).
    destruct (IH k' Hk') as [H1 H2]. split; [done|].
    intros [|j] Hj; cbn; [congruence|]. apply H2. lia.
Qed.

Lemma index_elem_of (x : Grid.Node) (l : list Grid.Node) :
  x ∈ l -> is_Some (Driver.index x l).
Proof.
  induction l as [|y l IH]; intros H; [by apply elem_of_nil in H|].
  cbn. destruct (decide (y = x)); [by eexists|].
  apply elem_of_cons in H as [->|H]; [done|].
  destruct (IH H) as [k ->]. by eexists.
Qed.

(** X23.  For a node whose three coordinate strings hold no underscore,
    the name [_find_detections] gives it reads back as that node in
    [brightness]; a name without any underscore has fewer than three
    parts and raises. *)
Theorem node_name_round_trip (node : Grid.Node) :
  no_underscore node.1.1 -> no_underscore node.1.2 -> no_underscore node.2 ->
  Driver.node_of_name (node_key node) = Some node
  /\ (forall s, no_underscore s -> Driver.node_of_name s = None).
Proof.
  intros Ha Hb Hc. split; [now apply node_of_name_key|].
  intros s Hs. unfold Driver.node_of_name. now rewrite split_last.
Qed.

Lemma node_name_round_trip_witness :
  Driver.node_of_name (node_key ("-43.0", "170.1", "5.0")%string)
  = Some ("-43.0", "170.1", "5.0")%string
  /\ (forall s, no_underscore s -> Driver.node_of_name s = None).
Proof.
  apply (node_name_round_trip ("-43.0", "170.1", "5.0")%string);
    cbn; repeat split; discriminate.
Defined.

(** X24.  Every detection [_find_detections] makes from the per-sample
    brightest nodes is turned back by [brightness] into a node of the
    grid and that node's column of lags: the node is the brightest one
    at the sample of the detection, and the lags are those of its first
    position in the node list. *)
Theorem detections_recover_their_lags (fmax : Q) (sqrt : Q -> Q)
    (median : list Q -> Q)
    (find_peaks2 : list Q -> Q -> Q -> list (Q * nat)) (length_par : Q)
    (cum_net_resp : list Detect.float) (peak_nodes nodes : list Grid.Node)
    (lags : Grid.Lags) (threshold : Q) (thresh_type : string) (samp_rate : Q)
    (realstations : list string) (dets : list Detect.DETECTION)
    (d : Detect.DETECTION) :
  Detect._find_detections fmax sqrt median find_peaks2 length_par
    cum_net_resp peak_nodes threshold thresh_type samp_rate realstations
  = Some dets ->
  d ∈ dets ->
  (forall node, node ∈ peak_nodes -> node ∈ nodes) ->
  (forall node, node ∈ nodes ->
     no_underscore node.1.1 /\ no_underscore node.1.2 /\ no_underscore node.2) ->
  node_aligned nodes lags ->
  exists (p k : nat) (node : Grid.Node) (col : list Q),
    peak_nodes !! p = Some node
    /\ Detect.detect_time d = inject_Z (Z.of_nat p) / samp_rate
    /\ nodes !! k = Some node
    /\ (forall j, (j < k)%nat -> nodes !! j <> Some node)
    /\ Grid.col lags k = Some col
    /\ Driver.detect_lags nodes lags d = Some (node, col).
Proof.
  intros Hdets Hd Hsub Hus Hal.
  assert (Hsome : is_Some (Detect._find_detections fmax sqrt median find_peaks2
            length_par cum_net_resp peak_nodes threshold thresh_type samp_rate
            realstations)) by (by eexists).
  assert (Hne : cum_net_resp <> []).
  { intros ->. unfold Detect._find_detections in Hdets.
    rewrite force_no_nans_eq in Hdets. cbn in Hdets.
    destruct (Detect.resolve_thresh _ _ _ _ _); discriminate Hdets. }
  destruct (Detect.resolve_thresh sqrt median thresh_type threshold
              (cleaned fmax cum_net_resp)) as [thresh|] eqn:Hth.
  2:{ unfold Detect._find_detections in Hdets.
      rewrite force_no_nans_eq in Hdets. cbn [mbind option_bind] in Hdets.
      rewrite finite_values_cleaned in Hdets. cbn [mbind option_bind] in Hdets.
      rewrite Hth in Hdets. discriminate Hdets. }
  rewrite (find_detections_eq _ _ _ _ _ _ _ _ _ _ _ thresh) in Hdets by done.
  apply mapM_Some in Hdets. apply list_elem_of_lookup in Hd as [n Hn].
  destruct (Forall2_lookup_r _ _ _ _ _ Hdets Hn) as (peak & _ & Hpeak).
  apply bind_Some in Hpeak as (node & Hnode & Hpeak). injection Hpeak as <-.
  assert (Hin : node ∈ nodes).
  { apply Hsub. apply list_elem_of_lookup. by eexists. }
  destruct (index_elem_of node nodes Hin) as [k Hk].
  destruct (index_Some _ _ _ Hk) as [Hk1 Hk2].
  assert (Hcol : is_Some (Grid.col lags k)).
  { unfold Grid.col, Py.column. apply mapM_is_Some.
    eapply Forall_impl; [exact Hal|]. intros row Hrow. cbn in *.
    apply lookup_lt_is_Some_2. rewrite Hrow. now apply lookup_lt_Some in Hk1. }
  destruct Hcol as [col Hcol].
  exists peak.2, k, node, col.
  split; [done|]. split; [done|]. split; [done|]. split; [done|].
  split; [done|].
  unfold Driver.detect_lags. cbn [Detect.template_name].
  destruct (Hus node Hin) as (Ha & Hb & Hc).
  rewrite node_of_name_key by done. cbn [mbind option_bind].
  rewrite Hk. cbn [mbind option_bind]. rewrite Hcol. reflexivity.
Qed.

Lemma detections_recover_their_lags_witness :
  exists (p k : nat) (node : Grid.Node) (col : list Q),
    Examples.nodes3 !! p = Some node
    /\ Detect.detect_time
         {| Detect.template_name := "-43.0_170.1_5.0";
            Detect.detect_time := inject_Z 1 / 1;
            Detect.no_chans := 2;
            Detect.detect_val := 5;
            Detect.threshold := 2;
            Detect.typeofdet := "brightness";
            Detect.chans := ["FOZ"; "WVZ"]%string |}
       = inject_Z (Z.of_nat p) / 1
    /\ Examples.nodes3 !! k = Some node
    /\ (forall j, (j < k)%nat -> Examples.nodes3 !! j <> Some node)
    /\ Grid.col Examples.lags_two_stations k = Some col
    /\ Driver.detect_lags Examples.nodes3 Examples.lags_two_stations
         {| Detect.template_name := "-43.0_170.1_5.0";
            Detect.detect_time := inject_Z 1 / 1;
            Detect.no_chans := 2;
            Detect.detect_val := 5;
            Detect.threshold := 2;
            Detect.typeofdet := "brightness";
            Detect.chans := ["FOZ"; "WVZ"]%string |}
       = Some (node, col).
Proof.
  apply (detections_recover_their_lags Examples.float64_max
           Examples.sqrt_exact (fun _ => 0) (fun _ _ _ => [(5, 1%nat)]) 1
           [Detect.Finite 1; Detect.Finite 5; Detect.NaN]
           Examples.nodes3 Examples.nodes3 Examples.lags_two_stations
           2 "abs"%string 1 ["FOZ"; "WVZ"]%string
           [{| Detect.template_name := "-43.0_170.1_5.0";
               Detect.detect_time := inject_Z 1 / 1;
               Detect.no_chans := 2;
               Detect.detect_val := 5;
               Detect.threshold := 2;
               Detect.typeofdet := "brightness";
               Detect.chans := ["FOZ"; "WVZ"]%string |}]).
  - vm_compute. reflexivity.
  - apply list_elem_of_here.
  - done.
  - intros node H. unfold Examples.nodes3 in H.
    repeat (apply elem_of_cons in H as [->|H]);
      [..|by apply elem_of_nil in H]; cbn; repeat split; discriminate.
  - repeat constructor.
Defined.

(** ** Coherence: when it is defined, and its range *)

Lemma coherance_eq (normxcorr2 : list Q -> list Q -> Q)
    (stream : Stack.Stream) (m : nat) :
  (2 <= length stream)%nat ->
  Forall (fun tr => length (Stack.data tr) = m) stream ->
  Coherence.coherance normxcorr2 stream
  = Some (2 * foldl Qplus 0
                (Coherence.pair_score normxcorr2 stream
                   <$> Coherence.unordered_pairs (length stream))
          / inject_Z (Z.of_nat (length stream * (length stream - 1)))).
Proof.
  intros Hn Hlen. unfold Coherence.coherance.
  destruct stream as [|tr0 rest] eqn:Hs; [cbn in Hn; lia|]. rewrite <- Hs in *.
  assert (Hmax : match length <$> (Stack.data <$> stream) with
                 | [] => None
                 | l :: ls => Some (foldl Nat.max l ls)
                 end = Some m).
  { rewrite Hs in *. cbn. apply Forall_cons in Hlen as [-> Hrest].
    f_equal. apply common_length_is_max.
    rewrite !Forall_fmap. eapply Forall_impl; [exact Hrest|]. done. }
  rewrite Hmax. cbn [mbind option_bind]. rewrite decide_True by done.
  unfold Py.range. rewrite Nat.sub_0_r.
  rewrite outer_loop_eq
    by (apply Forall_forall; intros i Hi; apply elem_of_seq in Hi; lia).
  cbn [mbind option_bind]. rewrite <- unordered_pairs_eq.
  rewrite decide_False by nia. reflexivity.
Qed.

Lemma max_length_bounds (m : nat) (ls : list nat) :
  (m <= foldl Nat.max m ls)%nat
  /\ Forall (fun l => l <= foldl Nat.max m ls)%nat ls.
Proof.
  revert m. induction ls as [|l ls IH]; intros m; [by split|]. cbn.
  destruct (IH (m `max` l)) as [H1 H2]. split; [lia|].
  constructor; [lia|done].
Qed.

Lemma pairs_length_from (n a k : nat) :
  (a + k = n)%nat ->
  (2 * length (i ← seq a k; (fun j => (i, j)) <$> seq (i + 1) (n - (i + 1)))
   = k * (k - 1))%nat.
Proof.
  revert a. induction k as [|k IH]; intros a Hak; [done|].
  cbn [seq]. rewrite bind_cons, length_app, length_fmap, length_seq.
  specialize (IH (S a) ltac:(lia)). nia.
Qed.

Lemma unordered_pairs_length (n : nat) :
  (2 * length (Coherence.unordered_pairs n) = n * (n - 1))%nat.
Proof. rewrite unordered_pairs_eq. now apply pairs_length_from. Qed.

Lemma sum_le_count (l : list Q) (c : Q) :
  Forall (fun x => x <= 1) l ->
  foldl Qplus c l <= c + inject_Z (Z.of_nat (length l)).
Proof.
  revert c. induction l as [|x l IH]; intros c Hl.
  - cbn [foldl length]. change (inject_Z (Z.of_nat 0)) with 0. lra.
  - apply Forall_cons in Hl as [Hx Hl]. cbn [foldl length].
    specialize (IH (c + x) Hl).
    rewrite Nat2Z.inj_succ. unfold Z.succ. rewrite inject_Z_plus.
    change (inject_Z 1) with 1. lra.
Qed.

(** X25.  [coherance] returns exactly for a stream of at least two
    channels whose data all have one length; an empty stream, a single
    channel, and channels of different lengths all raise. *)
Theorem coherance_returns_iff (normxcorr2 : list Q -> list Q -> Q)
    (stream : Stack.Stream) :
  is_Some (Coherence.coherance normxcorr2 stream)
  <-> (2 <= length stream)%nat
      /\ exists m, Forall (fun tr => length (Stack.data tr) = m) stream.
Proof.
  split.
  - intros [c Hc]. unfold Coherence.coherance in Hc.
    apply bind_Some in Hc as (maxlen & _ & Hc).
    destruct (decide _) as [Hall|]; [|done].
    apply bind_Some in Hc as (coh & _ & Hc).
    destruct (decide _) as [|Hn]; [done|].
    split; [nia|]. by exists maxlen.
  - intros (Hn & m & Hm). rewrite (coherance_eq _ _ m) by done. by eexists.
Qed.

(** X26.  When the correlation of any two channels of the stream has
    magnitude at most one, the coherence [coherance] returns is at
    most one. *)
Theorem coherance_at_most_one (normxcorr2 : list Q -> list Q -> Q)
    (stream : Stack.Stream) (c : Q) :
  (forall a b, a ∈ stream -> b ∈ stream ->
     Qabs (normxcorr2 (Stack.data a) (Stack.data b)) <= 1) ->
  Coherence.coherance normxcorr2 stream = Some c ->
  c <= 1.
Proof.
  intros Hxc Hc.
  assert (Hsome : is_Some (Coherence.coherance normxcorr2 stream))
    by (by eexists).
  assert (Hn : (2 <= length stream)%nat
               /\ exists m, Forall (fun tr => length (Stack.data tr) = m) stream).
  { unfold Coherence.coherance in Hc.
    apply bind_Some in Hc as (maxlen & _ & Hc).
    destruct (decide _) as [Hall|]; [|done].
    apply bind_Some in Hc as (coh & _ & Hc).
    destruct (decide _) as [|Hn]; [done|].
    split; [nia|]. by exists maxlen. }
  destruct Hn as (Hn & m & Hm).
  rewrite (coherance_eq _ _ m) in Hc by done. injection Hc as <-.
  set (n := length stream) in *.
  set (pairs := Coherence.unordered_pairs n).
  assert (HS : foldl Qplus 0 (Coherence.pair_score normxcorr2 stream <$> pairs)
               <= 0 + inject_Z (Z.of_nat (length pairs))).
  { pose proof (sum_le_count
                  (Coherence.pair_score normxcorr2 stream <$> pairs) 0) as Hs.
    rewrite length_fmap in Hs. apply Hs.
    rewrite Forall_fmap. apply Forall_forall. intros p _.
    unfold Coherence.pair_score. cbn.
    destruct (stream !! p.1) as [a|] eqn:Ha; [|lra].
    destruct (stream !! p.2) as [b|] eqn:Hb; [|lra].
    apply Hxc; apply list_elem_of_lookup; by eexists. }
  assert (Hq : inject_Z (Z.of_nat (n * (n - 1)))
               == 2 * inject_Z (Z.of_nat (length pairs))).
  { rewrite <- (unordered_pairs_length n). fold pairs.
    rewrite Nat2Z.inj_mul, inject_Z_mult. reflexivity. }
  assert (Hpos : 0 < inject_Z (Z.of_nat (n * (n - 1)))).
  { change 0 with (inject_Z 0). rewrite <- Zlt_Qlt. nia. }
  apply Qle_shift_div_r; [done|]. lra.
Qed.

Lemma coherance_at_most_one_witness :
  Coherence.coherance Examples.xcorr
    [Examples.foz_z; Examples.foz_n; Examples.xyz_z] = Some (512 # 1536)
  /\ (512 # 1536) <= 1.
Proof.
  split; [vm_compute; reflexivity|].
  apply (coherance_at_most_one Examples.xcorr
           [Examples.foz_z; Examples.foz_n; Examples.xyz_z] (512 # 1536)).
  - intros a b Ha Hb.
    repeat (apply elem_of_cons in Ha as [->|Ha]);
      [..|by apply elem_of_nil in Ha];
      (repeat (apply elem_of_cons in Hb as [->|Hb]);
       [..|by apply elem_of_nil in Hb]); vm_compute; discriminate.
  - vm_compute. reflexivity.
Defined.

(** ** The stations with data *)

Lemma chars_length (s : string) : length (Driver.chars s) = String.length s.
Proof. induction s as [|c s IH]; [done|]. cbn. now rewrite IH. Qed.

Lemma chars_single (s : string) :
  Forall (fun c => String.length c = 1%nat) (Driver.chars s).
Proof. induction s as [|c s IH]; constructor; done. Qed.

Lemma realstations_loop (select : Stack.Stream -> string -> Stack.Stream)
    (stream : Stack.Stream) (stations : list string) (acc : list string) :
  foldl (fun realstations station =>
           match select stream station with
           | [] => realstations
           | _ :: _ => realstations ++ Driver.chars station
           end) acc stations
  = acc ++ concat (Driver.chars <$>
                     filter (fun s => (0 < length (select stream s))%nat)
                            stations).
Proof.
  revert acc. induction stations as [|s stations IH]; intros acc.
  - cbn. now rewrite app_nil_r.
  - cbn [foldl]. rewrite IH, filter_cons.
    destruct (select stream s) as [|tr st] eqn:Hs.
    + rewrite decide_False by (cbn; lia). done.
    + rewrite decide_True by (cbn; lia). cbn [fmap list_fmap concat].
      now rewrite <- app_assoc.
Qed.

(** X27.  The list [brightness] keeps as [realstations] holds the
    characters of the names of the stations with data, one string per
    character, in order: its length, which every detection records as
    its number of channels, is the total length of those names.  With
    no station at all the function raises. *)
Theorem realstations_are_characters
    (select : Stack.Stream -> string -> Stack.Stream)
    (stations : list string) (stream : Stack.Stream) (rs : list string) :
  Driver.realstations select stations stream = Some rs ->
  stations <> []
  /\ rs = concat (Driver.chars <$>
                    filter (fun s => (0 < length (select stream s))%nat)
                           stations)
  /\ Forall (fun c => String.length c = 1%nat) rs
  /\ length rs
     = sum_list (String.length <$>
                   filter (fun s => (0 < length (select stream s))%nat)
                          stations).
Proof.
  unfold Driver.realstations. rewrite realstations_loop. cbn [app].
  intros H. assert (Hne : stations <> []) by (intros ->; discriminate H).
  assert (Hrs : rs = concat (Driver.chars <$>
                    filter (fun s => (0 < length (select stream s))%nat)
                           stations)).
  { destruct stations; [done|]. now injection H. }
  clear H. split; [done|]. split; [done|]. subst rs.
  generalize (filter (fun s => (0 < length (select stream s))%nat) stations).
  intros l. split.
  - induction l as [|s l IH]; [constructor|].
    cbn [fmap list_fmap concat]. apply Forall_app. split; [|done].
    apply chars_single.
  - induction l as [|s l IH]; [done|].
    cbn [fmap list_fmap concat sum_list]. cbn.
    now rewrite length_app, chars_length, IH.
Qed.

Lemma realstations_are_characters_witness :
  ["FOZ"; "WVZ"]%string <> []
  /\ ["F"; "O"; "Z"]%string
     = concat (Driver.chars <$>
                 filter (fun s =>
                           (0 < length (filter (fun tr => Stack.station tr = s)
                                          [Examples.foz_z; Examples.foz_n;
                                           Examples.xyz_z]))%nat)
                        ["FOZ"; "WVZ"]%string)
  /\ Forall (fun c => String.length c = 1%nat) ["F"; "O"; "Z"]%string
  /\ length ["F"; "O"; "Z"]%string
     = sum_list (String.length <$>
                   filter (fun s =>
                             (0 < length (filter (fun tr => Stack.station tr = s)
                                            [Examples.foz_z; Examples.foz_n;
                                             Examples.xyz_z]))%nat)
                          ["FOZ"; "WVZ"]%string).
Proof.
  apply (realstations_are_characters
           (fun stream s => filter (fun tr => Stack.station tr = s) stream)
           ["FOZ"; "WVZ"]%string
           [Examples.foz_z; Examples.foz_n; Examples.xyz_z]).
  vm_compute. reflexivity.
Defined.

